(** * EmbeddingVisualizer: the similarity, reduction and caching services

    A shallow embedding of the backend of the embedding explorer:
    - [backend/services/model_loader.py]      (the model store),
    - [backend/services/embedding_service.py] (nearest neighbours, word selection),
    - [backend/services/dimensionality.py]    (PCA / t-SNE reduction and its cache),
    - [backend/routers/similarity.py], [backend/routers/embeddings.py],
      [backend/routers/models.py] (the handlers, from their first statement
      on: FastAPI checks the bounds of the query parameters before it calls
      one).

    Python values are modelled as follows.  A [str] is a [string] (ASCII; bytes
    above 127 are left alone by [lower] and [strip]).  An [int] is a [Z].  A
    similarity score (a finite float) is a rational [Q]: the properties below
    only use the order of scores and the constant [1.0].  A [dict] whose
    iteration order matters (a vocabulary) is an association list with unique
    keys; a [dict] used only for lookups is a [gmap].  A raised exception is
    the left injection of a sum, and a [try ... except Exception] is a match on
    it.  The numerical routines of scikit-learn and gensim are not part of the
    repository: they are the fields of the class [Numerics] and of the
    record [Word2Vec], and nothing is assumed about what they return.
    NumPy's [argsort] leaves the order of equal values open: the TF-IDF
    lookup is defined for any sorting routine, and [argsort] is one of
    them. *)

From Stdlib Require Import ZArith QArith Qround Lqa Ascii String.
From stdpp Require Import gmap strings list pretty sorting.

Local Open Scope string_scope.
Local Open Scope Z_scope.

(** ** Strings: [str.lower], [str.strip] *)

Definition is_upper (c : ascii) : bool :=
  let n := nat_of_ascii c in (65 <=? n)%nat && (n <=? 90)%nat.

Definition lower_char (c : ascii) : ascii :=
  if is_upper c then ascii_of_nat (nat_of_ascii c + 32) else c.

Fixpoint lower (s : string) : string :=
  match s with
  | EmptyString => EmptyString
  | String c s' => String (lower_char c) (lower s')
  end.

(** The ASCII characters for which [str.isspace] holds. *)
Definition is_space (c : ascii) : bool :=
  let n := nat_of_ascii c in
  ((9 <=? n)%nat && (n <=? 13)%nat) || ((28 <=? n)%nat && (n <=? 32)%nat).

Fixpoint lstrip (s : string) : string :=
  match s with
  | EmptyString => EmptyString
  | String c s' => if is_space c then lstrip s' else s
  end.

Definition rstrip (s : string) : string := String.rev (lstrip (String.rev s)).

Definition strip (s : string) : string := rstrip (lstrip s).

(** [word.lower().strip()], the normalisation applied before every lookup. *)
Definition normalize (word : string) : string := strip (lower word).

(** [str.isascii]: every character is below 128.  On such a string [lower]
    and [strip] above are Python's [str.lower] and [str.strip]; outside
    ASCII Python also lowers and strips characters that are left alone
    here. *)
Fixpoint isascii (s : string) : bool :=
  match s with
  | EmptyString => true
  | String c s' => (nat_of_ascii c <? 128)%nat && isascii s'
  end.

(** [str(n)] for an [int]. *)
Definition str_int (n : Z) : string := pretty n.

(** ** [hashlib.md5(...).hexdigest()] (RFC 1321) over 32-bit words in [Z] *)

Module MD5.

Definition u32 (x : Z) : Z := x mod 2^32.

Definition rotl32 (x c : Z) : Z :=
  u32 (Z.lor (Z.shiftl x c) (Z.shiftr x (32 - c))).

Definition shifts : list Z :=
  [7;12;17;22;7;12;17;22;7;12;17;22;7;12;17;22;
   5;9;14;20;5;9;14;20;5;9;14;20;5;9;14;20;
   4;11;16;23;4;11;16;23;4;11;16;23;4;11;16;23;
   6;10;15;21;6;10;15;21;6;10;15;21;6;10;15;21].

Definition sines : list Z :=
  [0xd76aa478;0xe8c7b756;0x242070db;0xc1bdceee;0xf57c0faf;0x4787c62a;0xa8304613;0xfd469501;
   0x698098d8;0x8b44f7af;0xffff5bb1;0x895cd7be;0x6b901122;0xfd987193;0xa679438e;0x49b40821;
   0xf61e2562;0xc040b340;0x265e5a51;0xe9b6c7aa;0xd62f105d;0x02441453;0xd8a1e681;0xe7d3fbc8;
   0x21e1cde6;0xc33707d6;0xf4d50d87;0x455a14ed;0xa9e3e905;0xfcefa3f8;0x676f02d9;0x8d2a4c8a;
   0xfffa3942;0x8771f681;0x6d9d6122;0xfde5380c;0xa4beea44;0x4bdecfa9;0xf6bb4b60;0xbebfbc70;
   0x289b7ec6;0xeaa127fa;0xd4ef3085;0x04881d05;0xd9d4d039;0xe6db99e5;0x1fa27cf8;0xc4ac5665;
   0xf4292244;0x432aff97;0xab9423a7;0xfc93a039;0x655b59c3;0x8f0ccc92;0xffeff47d;0x85845dd1;
   0x6fa87e4f;0xfe2ce6e0;0xa3014314;0x4e0811a1;0xf7537e82;0xbd3af235;0x2ad7d2bb;0xeb86d391].

(** Little-endian bytes to a word and back. *)
Definition le_word (bs : list Z) : Z := foldr (fun b acc => b + 256 * acc) 0 bs.

Fixpoint le_bytes (n : nat) (x : Z) : list Z :=
  match n with
  | O => []
  | S n' => (x mod 256) :: le_bytes n' (x / 256)
  end.

Definition pad (msg : list Z) : list Z :=
  let len := Z.of_nat (length msg) in
  msg ++ [0x80] ++ replicate (Z.to_nat ((55 - len) mod 64)) 0
      ++ le_bytes 8 ((8 * len) mod 2^64).

Fixpoint chunks (n fuel : nat) (l : list Z) : list (list Z) :=
  match fuel with
  | O => []
  | S fuel' =>
      match l with
      | [] => []
      | _ => take n l :: chunks n fuel' (drop n l)
      end
  end.

Definition round (M : list Z) (st : Z * Z * Z * Z) (i : nat) : Z * Z * Z * Z :=
  let '(a, b, c, d) := st in
  let iz := Z.of_nat i in
  let '(f, g) :=
    if iz <? 16 then (Z.lor (Z.land b c) (Z.land (Z.lxor b 0xffffffff) d), iz)
    else if iz <? 32 then
      (Z.lor (Z.land d b) (Z.land (Z.lxor d 0xffffffff) c), (5 * iz + 1) mod 16)
    else if iz <? 48 then (Z.lxor (Z.lxor b c) d, (3 * iz + 5) mod 16)
    else (Z.lxor c (Z.lor b (Z.lxor d 0xffffffff)), (7 * iz) mod 16) in
  let f' := u32 (f + a + nth i sines 0 + nth (Z.to_nat g) M 0) in
  (d, u32 (b + rotl32 f' (nth i shifts 0)), b, c).

Definition block (st : Z * Z * Z * Z) (chunk : list Z) : Z * Z * Z * Z :=
  let M := map le_word (chunks 4 16 chunk) in
  let '(a0, b0, c0, d0) := st in
  let '(a, b, c, d) := fold_left (round M) (seq 0 64) st in
  (u32 (a0 + a), u32 (b0 + b), u32 (c0 + c), u32 (d0 + d)).

Definition digest (msg : list Z) : list Z :=
  let padded := pad msg in
  let '(a, b, c, d) :=
    fold_left block (chunks 64 (length padded) padded)
      (0x67452301, 0xefcdab89, 0x98badcfe, 0x10325476) in
  le_bytes 4 a ++ le_bytes 4 b ++ le_bytes 4 c ++ le_bytes 4 d.

Definition hex_digit (x : Z) : ascii :=
  nth (Z.to_nat x) (list_ascii_of_string "0123456789abcdef") "0"%char.

Definition hex (bs : list Z) : string :=
  string_of_list_ascii
    (flat_map (fun b => [hex_digit (b / 16); hex_digit (b mod 16)]) bs).

(** [s.encode()] on an ASCII string. *)
Definition encode (s : string) : list Z :=
  map (fun c => Z.of_nat (nat_of_ascii c)) (list_ascii_of_string s).

Definition hexdigest (s : string) : string := hex (digest (encode s)).

End MD5.

(** ** Exceptions *)

Inductive Exc : Type :=
  | FileNotFoundError (msg : string)
  | KeyError (key : string)
  | IndexError (msg : string)
  | ValueError (msg : string)
  | LibraryError (msg : string)
  | HTTPException (status_code : Z) (detail : string).

(** The [IndexError] NumPy raises for [a[i]] when [a] has [n] rows and
    [i >= n]. *)
Definition out_of_bounds (i n : nat) : Exc :=
  IndexError ("index " +:+ str_int (Z.of_nat i) +:+ " is out of bounds for axis 0 with size "
                +:+ str_int (Z.of_nat n)).

(** [str(e)].  For a [KeyError] Python prints the [repr] of the key, which
    for a row index depends on the NumPy release ([2] or [np.int64(2)]);
    only the key is kept here. *)
Definition str_exc (e : Exc) : string :=
  match e with
  | FileNotFoundError msg => msg
  | KeyError key => key
  | IndexError msg => msg
  | ValueError msg => msg
  | LibraryError msg => msg
  | HTTPException status_code detail => str_int status_code ++ ": " ++ detail
  end.

Definition exc_bind {A B : Type} (m : Exc + A) (k : A -> Exc + B) : Exc + B :=
  match m with
  | inl e => inl e
  | inr a => k a
  end.

Notation "'try!' x <- m ; k" := (exc_bind m (fun x => k))
  (at level 10, x pattern, m at level 100, k at level 200).

(** A list comprehension whose element expression may raise. *)
Fixpoint exc_mapM {A B : Type} (f : A -> Exc + B) (l : list A) : Exc + list B :=
  match l with
  | [] => inr []
  | x :: l' => try! y <- f x; try! ys <- exc_mapM f l'; inr (y :: ys)
  end.

(** ** [backend/config.py] *)

(** [MODELS_DIR] is [BASE_DIR / "models"], and [BASE_DIR] the absolute
    directory the backend is installed in: the paths, which only occur in
    the text of a [FileNotFoundError], are written relative to it. *)
Definition MODELS_DIR : string := "models/".

Definition MODEL_PATHS (name : string) : string :=
  if decide (name = "tfidf_word_embeddings") then MODELS_DIR ++ "tfidf_word_embeddings.npy"
  else if decide (name = "tfidf_vocab") then MODELS_DIR ++ "tfidf_vocab.pkl"
  else if decide (name = "word2vec_cbow") then MODELS_DIR ++ "word2vec_cbow.model"
  else if decide (name = "word2vec_skipgram") then MODELS_DIR ++ "word2vec_skipgram.model"
  else MODELS_DIR ++ "word_frequencies.pkl".

Definition MODEL_TYPES : list (string * string) :=
  [("tfidf", "TF-IDF (LSA)");
   ("word2vec_cbow", "Word2Vec (CBOW)");
   ("word2vec_skipgram", "Word2Vec (Skip-Gram)")].

(** [model_type in MODEL_TYPES]. *)
Definition in_MODEL_TYPES (model_type : string) : bool :=
  bool_decide (model_type ∈ MODEL_TYPES.*1).

Definition DEFAULT_PERPLEXITY : Z := 30.

(** ** The numerical libraries

    [sklearn.metrics.pairwise.cosine_similarity] of one row against a matrix,
    [PCA(n_components=2, random_state=42).fit_transform] and
    [TSNE(n_components=2, perplexity=p, random_state=42, n_iter=1000,
    init='random').fit_transform].  Each may raise. *)

Class Numerics : Type := {
  vec : Type;
  cosine_similarity : vec -> list vec -> Exc + list Q;
  PCA_fit_transform : list vec -> Exc + list (Q * Q);
  TSNE_fit_transform : Z -> list vec -> Exc + list (Q * Q);
}.

(** ** Python containers *)

(** [d[k]] / [k in d] on a dict kept as an association list. *)
Fixpoint dict_get {V : Type} (d : list (string * V)) (k : string) : option V :=
  match d with
  | [] => None
  | (k', v) :: d' => if decide (k' = k) then Some v else dict_get d' k
  end.

(** [l[:n]]: a negative [n] counts from the end. *)
Definition slice_to {A : Type} (n : Z) (l : list A) : list A :=
  if 0 <=? n then take (Z.to_nat n) l
  else take (length l - Z.to_nat (- n))%nat l.

(** [a.argsort()]: the indices of [a] in ascending order of value.  NumPy's
    default kind is not a stable sort: where values are equal, the order of
    their indices is not specified, and it differs between builds and array
    lengths.  [argsort] is the outcome that keeps equal values in index
    order (an insertion from the right, past strictly larger values only);
    [argsort_ties_descending] below is the outcome that lists equal values
    by descending index. *)
Fixpoint argsort_insert (a : list Q) (i : nat) (sorted : list nat) : list nat :=
  match sorted with
  | [] => [i]
  | j :: rest =>
      if Qle_bool (nth i a 0%Q) (nth j a 0%Q) then i :: j :: rest
      else j :: argsort_insert a i rest
  end.

Definition argsort (a : list Q) : list nat :=
  foldr (argsort_insert a) [] (seq 0 (length a)).

Definition argsort_ties_descending (a : list Q) : list nat :=
  reverse (argsort (map Qopp a)).

(** [l.sort(key=lambda x: x[1], reverse=True)]: Python's sort is stable, also
    with [reverse=True]; entries with equal counts keep their order. *)
Fixpoint sort_insert_desc (x : string * Z) (sorted : list (string * Z)) : list (string * Z) :=
  match sorted with
  | [] => [x]
  | y :: rest =>
      if y.2 <=? x.2 then x :: y :: rest else y :: sort_insert_desc x rest
  end.

Definition sort_by_freq_desc (l : list (string * Z)) : list (string * Z) :=
  foldr sort_insert_desc [] l.

(** ** [backend/services/model_loader.py] *)

Module ModelLoader.
Section ModelLoader.
Context `{Numerics}.

(** A gensim [Word2Vec] model: [wv] lists the keys of [model.wv.key_to_index]
    in index order, each with its vector; [most_similar] is gensim's
    neighbour search [model.wv.most_similar(word, topn=n)]. *)
Record Word2Vec : Type := {
  wv : list (string * vec);
  most_similar : string -> Z -> Exc + list (string * Q);
}.

(** The model directory: what each artifact file holds, [None] when the file
    does not exist.  The loader memoises what it reads; the accessors below
    give the outcome of a first call with the files as they are.  Every later
    call has the same outcome, with one exception: [_load_tfidf_models]
    keeps the matrix it has read before it looks for the vocabulary, so when
    only the vocabulary file is missing the first call raises
    [FileNotFoundError] and a later one returns and leaves its caller with
    an unset vocabulary ([tfidf_files_together] below excludes this). *)
Record t : Type := {
  tfidf_word_embeddings : option (list vec);
  tfidf_vocab : option (list (string * nat));
  word2vec_cbow : option Word2Vec;
  word2vec_skipgram : option Word2Vec;
  word_frequencies : option (gmap string Z);
}.

Context (self : t).

Definition _load_tfidf_models : Exc + (list vec * list (string * nat)) :=
  match tfidf_word_embeddings self with
  | None =>
      inl (FileNotFoundError
             ("TF-IDF embeddings not found: " +:+ MODEL_PATHS "tfidf_word_embeddings"))
  | Some embeddings =>
      match tfidf_vocab self with
      | None =>
          inl (FileNotFoundError
                 ("TF-IDF vocabulary not found: " +:+ MODEL_PATHS "tfidf_vocab"))
      | Some vocab => inr (embeddings, vocab)
      end
  end.

Definition _load_word2vec_model (model_type : string) : Exc + Word2Vec :=
  let file :=
    if decide (model_type = "word2vec_cbow") then word2vec_cbow self
    else word2vec_skipgram self in
  match file with
  | Some model => inr model
  | None =>
      inl (FileNotFoundError ("Word2Vec model not found: " +:+ MODEL_PATHS model_type))
  end.

Definition _load_word_frequencies : gmap string Z :=
  match word_frequencies self with
  | Some frequencies => frequencies
  | None => ∅
  end.

Definition get_tfidf_embeddings : Exc + list vec :=
  try! m <- _load_tfidf_models; inr m.1.

Definition get_tfidf_vocab : Exc + list (string * nat) :=
  try! m <- _load_tfidf_models; inr m.2.

(** [{idx: word for word, idx in vocab.items()}]: a later word with the same
    index replaces an earlier one. *)
Definition invert_vocab (vocab : list (string * nat)) : gmap nat string :=
  foldl (fun m p => <[p.2 := p.1]> m) ∅ vocab.

Definition get_tfidf_idx_to_word : Exc + gmap nat string :=
  try! m <- _load_tfidf_models; inr (invert_vocab m.2).

Definition get_word2vec_cbow : Exc + Word2Vec := _load_word2vec_model "word2vec_cbow".

Definition get_word2vec_skipgram : Exc + Word2Vec :=
  _load_word2vec_model "word2vec_skipgram".

Definition get_word_frequencies : gmap string Z := _load_word_frequencies.

(** [word in model.wv]. *)
Definition wv_contains (model : Word2Vec) (word : string) : bool :=
  bool_decide (is_Some (dict_get (wv model) word)).

Definition is_word_in_vocab (word model_type : string) : Exc + bool :=
  let word := normalize word in
  if decide (model_type = "tfidf") then
    try! m <- _load_tfidf_models;
    inr (bool_decide (is_Some (dict_get m.2 word)))
  else if decide (model_type = "word2vec_cbow") then
    try! model <- get_word2vec_cbow; inr (wv_contains model word)
  else if decide (model_type = "word2vec_skipgram") then
    try! model <- get_word2vec_skipgram; inr (wv_contains model word)
  else inr false.

(** The dictionary [get_model_info] returns. *)
Record ModelInfo : Type := {
  model_type : string;
  display_name : string;
  vocab_size : Z;
  vector_dimensions : Z;
  is_loaded : bool;
}.

(** [embeddings.shape[1]] of the loaded matrix and [model.wv.vector_size]:
    attributes of the loaded objects. *)
Context (shape1 : list vec -> Z) (vector_size : Word2Vec -> Z).

(** Only a [FileNotFoundError] is caught. *)
Definition get_model_info (model_type : string) : Exc + ModelInfo :=
  let MODEL_TYPES_item : Exc + string :=
    match dict_get MODEL_TYPES model_type with
    | Some name => inr name
    | None => inl (KeyError model_type)
    end in
  let body : Exc + ModelInfo :=
    if decide (model_type = "tfidf") then
      try! m <- _load_tfidf_models;
      try! name <- MODEL_TYPES_item;
      inr {| model_type := model_type;
             display_name := name;
             vocab_size := Z.of_nat (length m.2);
             vector_dimensions := shape1 m.1;
             is_loaded := true |}
    else if bool_decide (model_type ∈ ["word2vec_cbow"; "word2vec_skipgram"]) then
      try! model <- _load_word2vec_model model_type;
      try! name <- MODEL_TYPES_item;
      inr {| model_type := model_type;
             display_name := name;
             vocab_size := Z.of_nat (length (wv model));
             vector_dimensions := vector_size model;
             is_loaded := true |}
    else
      inr {| model_type := model_type;
             display_name := "Unknown";
             vocab_size := 0;
             vector_dimensions := 0;
             is_loaded := false |} in
  match body with
  | inl (FileNotFoundError _) =>
      inr {| model_type := model_type;
             display_name := default "Unknown" (dict_get MODEL_TYPES model_type);
             vocab_size := 0;
             vector_dimensions := 0;
             is_loaded := false |}
  | r => r
  end.

Definition get_all_models_info : Exc + list ModelInfo :=
  exc_mapM get_model_info MODEL_TYPES.*1.

(** [if frequencies:] holds for a non-empty dict. *)
Definition get_vocabulary_sample (model_type : string) (n : Z) : Exc + list string :=
  let frequencies := get_word_frequencies in
  try! vocab <-
    (if decide (model_type = "tfidf") then
       try! m <- _load_tfidf_models; inr (Some m.2.*1)
     else if bool_decide (model_type ∈ ["word2vec_cbow"; "word2vec_skipgram"]) then
       try! model <- _load_word2vec_model model_type; inr (Some (wv model).*1)
     else inr None);
  match vocab with
  | None => inr []
  | Some vocab =>
      if bool_decide (frequencies ≠ ∅) then
        let vocab_with_freq :=
          sort_by_freq_desc (map (fun w => (w, default 0 (frequencies !! w))) vocab) in
        inr (slice_to n vocab_with_freq).*1
      else inr (slice_to n vocab)
  end.

End ModelLoader.
End ModelLoader.

(** ** [backend/services/embedding_service.py] *)

Module EmbeddingService.
Section EmbeddingService.
Context `{Numerics}.
Context (loader : ModelLoader.t).

(** What a similarity lookup returns:
    [(similar_words, in_vocabulary, error_message)]. *)
Definition Lookup : Type := list (string * Q) * bool * option string.

(** The loop of [get_similar_words_tfidf] over [top_indices], [results] being
    the list built so far. *)
Fixpoint collect_results (idx_to_word : gmap nat string) (similarities : list Q)
    (word_idx : nat) (topn : Z) (top_indices : list nat)
    (results : list (string * Q)) : Exc + list (string * Q) :=
  match top_indices with
  | [] => inr results
  | idx :: rest =>
      if topn <=? Z.of_nat (length results) then inr results
      else if decide (idx = word_idx) then
        collect_results idx_to_word similarities word_idx topn rest results
      else
        match idx_to_word !! idx with
        | None => inl (KeyError (str_int (Z.of_nat idx)))
        | Some similar_word =>
            match similarities !! idx with
            | None => inl (out_of_bounds idx (length similarities))
            | Some similarity_score =>
                collect_results idx_to_word similarities word_idx topn rest
                  (results ++ [(similar_word, similarity_score)])
            end
        end
  end.

(** [get_similar_words_tfidf], with [sort] for NumPy's sorting routine:
    [sort similarities] is [similarities.argsort()]. *)
Definition get_similar_words_tfidf_by (sort : list Q -> list nat) (word : string)
    (topn : Z) : Lookup :=
  let word := normalize word in
  let body : Exc + Lookup :=
    try! vocab <- ModelLoader.get_tfidf_vocab loader;
    try! embeddings <- ModelLoader.get_tfidf_embeddings loader;
    try! idx_to_word <- ModelLoader.get_tfidf_idx_to_word loader;
    match dict_get vocab word with
    | None =>
        inr ([], false, Some ("Word '" +:+ word +:+ "' not found in TF-IDF vocabulary"))
    | Some word_idx =>
        match embeddings !! word_idx with
        | None => inl (out_of_bounds word_idx (length embeddings))
        | Some word_vector =>
            try! similarities <- cosine_similarity word_vector embeddings;
            let top_indices := reverse (sort similarities) in
            try! results <-
              collect_results idx_to_word similarities word_idx topn top_indices [];
            inr (results, true, None)
        end
    end in
  match body with
  | inr r => r
  | inl e => ([], false, Some (str_exc e))
  end.

(** The lookup when the sort keeps equal scores in index order. *)
Definition get_similar_words_tfidf (word : string) (topn : Z) : Lookup :=
  get_similar_words_tfidf_by argsort word topn.

Definition get_similar_words_word2vec (word model_type : string) (topn : Z) : Lookup :=
  let word := normalize word in
  let search (model : ModelLoader.Word2Vec) : Exc + Lookup :=
    if negb (ModelLoader.wv_contains model word) then
      inr ([], false,
           Some ("Word '" +:+ word +:+ "' not found in " +:+ model_type +:+ " vocabulary"))
    else
      try! similar <- ModelLoader.most_similar model word topn;
      inr (similar, true, None) in
  let body : Exc + Lookup :=
    if decide (model_type = "word2vec_cbow") then
      try! model <- ModelLoader.get_word2vec_cbow loader; search model
    else if decide (model_type = "word2vec_skipgram") then
      try! model <- ModelLoader.get_word2vec_skipgram loader; search model
    else inr ([], false, Some ("Unknown model type: " +:+ model_type)) in
  match body with
  | inr r => r
  | inl e => ([], false, Some (str_exc e))
  end.

Definition get_similar_words (word model_type : string) (topn : Z) : Lookup :=
  if decide (model_type = "tfidf") then get_similar_words_tfidf word topn
  else if bool_decide (model_type ∈ ["word2vec_cbow"; "word2vec_skipgram"]) then
    get_similar_words_word2vec word model_type topn
  else ([], false, Some ("Unknown model type: " +:+ model_type)).

(** [None] stands for Python's [None]: the word is unknown, the model type is
    unknown, or an exception was caught. *)
Definition get_word_vector (word model_type : string) : option vec :=
  let word := normalize word in
  let body : Exc + option vec :=
    if decide (model_type = "tfidf") then
      try! vocab <- ModelLoader.get_tfidf_vocab loader;
      try! embeddings <- ModelLoader.get_tfidf_embeddings loader;
      match dict_get vocab word with
      | None => inr None
      | Some word_idx =>
          match embeddings !! word_idx with
          | None => inl (out_of_bounds word_idx (length embeddings))
          | Some v => inr (Some v)
          end
      end
    else if decide (model_type = "word2vec_cbow") then
      try! model <- ModelLoader.get_word2vec_cbow loader;
      inr (dict_get (ModelLoader.wv model) word)
    else if decide (model_type = "word2vec_skipgram") then
      try! model <- ModelLoader.get_word2vec_skipgram loader;
      inr (dict_get (ModelLoader.wv model) word)
    else inr None in
  match body with
  | inr r => r
  | inl _ => None
  end.

(** [[(w, frequencies.get(w, 0)) for w in keys]], sorted, cut to [num_words]. *)
Definition top_words_by_frequency (frequencies : gmap string Z) (keys : list string)
    (num_words : Z) : list string :=
  let vocab_with_freq := map (fun w => (w, default 0 (frequencies !! w))) keys in
  (slice_to num_words (sort_by_freq_desc vocab_with_freq)).*1.

Definition get_all_embeddings (model_type : string) (num_words : Z)
    : Exc + (list vec * list string) :=
  let frequencies := ModelLoader.get_word_frequencies loader in
  if decide (model_type = "tfidf") then
    try! vocab <- ModelLoader.get_tfidf_vocab loader;
    try! embeddings <- ModelLoader.get_tfidf_embeddings loader;
    let top_words := top_words_by_frequency frequencies vocab.*1 num_words in
    try! indices <-
      exc_mapM (fun w => match dict_get vocab w with
                     | Some i => inr i
                     | None => inl (KeyError w)
                     end) top_words;
    try! selected_embeddings <-
      exc_mapM (fun i => match embeddings !! i with
                     | Some v => inr v
                     | None => inl (out_of_bounds i (length embeddings))
                     end) indices;
    inr (selected_embeddings, top_words)
  else if bool_decide (model_type ∈ ["word2vec_cbow"; "word2vec_skipgram"]) then
    try! model <-
      (if decide (model_type = "word2vec_cbow") then ModelLoader.get_word2vec_cbow loader
       else ModelLoader.get_word2vec_skipgram loader);
    let all_words := (ModelLoader.wv model).*1 in
    let top_words := top_words_by_frequency frequencies all_words num_words in
    try! selected_embeddings <-
      exc_mapM (fun w => match dict_get (ModelLoader.wv model) w with
                     | Some v => inr v
                     | None => inl (KeyError w)
                     end) top_words;
    inr (selected_embeddings, top_words)
  else inr ([], []).

(** The entry [compare_similarity] stores for one model; [similar_words]
    holds the [{"word": w, "similarity": s}] dictionaries as pairs. *)
Record ModelResult : Type := {
  similar_words : list (string * Q);
  in_vocabulary : bool;
  message : option string;
}.

(** [results[model_type] = ...] for the three selectors in turn: the keys
    are distinct, so the dictionary lists them in this order. *)
Definition compare_similarity (word : string) (topn : Z) : list (string * ModelResult) :=
  map (fun model_type =>
         let '(similar, in_vocab, msg) := get_similar_words word model_type topn in
         (model_type,
          {| similar_words := similar; in_vocabulary := in_vocab; message := msg |}))
      ["tfidf"; "word2vec_cbow"; "word2vec_skipgram"].

End EmbeddingService.
End EmbeddingService.

(** ** [backend/services/dimensionality.py] *)

Module DimensionalityReductionService.

(** The records the service writes to its logger. *)
Inductive LogRecord : Type :=
  | ApplyingPCA (n_samples : nat)
  | PCAExplainedVariance
  | ApplyingTSNE (n_samples : nat) (perplexity : Z)
  | TSNEFailed (e : Exc)
  | FallingBackToPCA
  | UsingCachedReduction (model_type method : string) (num_words : Z)
  | NoEmbeddingsFound (model_type : string)
  | CacheCleared.

(** [(2D coordinates, word list, frequencies)]. *)
Definition Reduction : Type := list (Q * Q) * list string * list Z.

(** The mutable part of the service: [self._cache] and the log. *)
Record t : Type := {
  _cache : gmap string Reduction;
  log : list LogRecord;
}.

(** [__init__]. *)
Definition init : t := {| _cache := ∅; log := [] |}.

(** A method: it reads and writes the service, and returns or raises. *)
Definition M (A : Type) : Type := t -> (Exc + A) * t.

Definition ret {A : Type} (a : A) : M A := fun s => (inr a, s).

Definition raise {A : Type} (e : Exc) : M A := fun s => (inl e, s).

Definition bind {A B : Type} (m : M A) (k : A -> M B) : M B :=
  fun s => match m s with
           | (inr a, s') => k a s'
           | (inl e, s') => (inl e, s')
           end.

(** [try: m except Exception as e: h e]. *)
Definition catch {A : Type} (m : M A) (h : Exc -> M A) : M A :=
  fun s => match m s with
           | (inr a, s') => (inr a, s')
           | (inl e, s') => h e s'
           end.

Definition lift {A : Type} (r : Exc + A) : M A := fun s => (r, s).

Definition logger (r : LogRecord) : M unit :=
  fun s => (inr tt, {| _cache := _cache s; log := log s ++ [r] |}).

Definition cache_lookup (key : string) : M (option Reduction) :=
  fun s => (inr (_cache s !! key), s).

Definition cache_store (key : string) (result : Reduction) : M unit :=
  fun s => (inr tt, {| _cache := <[key := result]> (_cache s); log := log s |}).

Notation "'do!' x <- m ; k" := (bind m (fun x => k))
  (at level 10, x pattern, m at level 100, k at level 200).
Notation "'run!' m ; k" := (bind m (fun _ => k))
  (at level 10, m at level 100, k at level 200).

Section DimensionalityReductionService.
Context `{Numerics}.
Context (loader : ModelLoader.t).

(** [f"{model_type}_{method}_{num_words}_{perplexity}"], the local [key_str]
    of [_get_cache_key]. *)
Definition key_str (model_type method : string) (num_words perplexity : Z) : string :=
  model_type +:+ "_" +:+ method +:+ "_" +:+ str_int num_words +:+ "_"
    +:+ str_int perplexity.

Definition _get_cache_key (model_type method : string) (num_words perplexity : Z)
    : string :=
  MD5.hexdigest (key_str model_type method num_words perplexity).

Definition reduce_pca (embeddings : list vec) : M (list (Q * Q)) :=
  run! logger (ApplyingPCA (length embeddings));
  do! reduced <- lift (PCA_fit_transform embeddings);
  run! logger PCAExplainedVariance;
  ret reduced.

Definition reduce_tsne (embeddings : list vec) (perplexity : Z) : M (list (Q * Q)) :=
  let n_samples := Z.of_nat (length embeddings) in
  let adjusted_perplexity := Z.min perplexity (Z.max 5 ((n_samples - 1) / 3)) in
  run! logger (ApplyingTSNE (length embeddings) adjusted_perplexity);
  catch (lift (TSNE_fit_transform adjusted_perplexity embeddings))
        (fun e =>
           run! logger (TSNEFailed e);
           run! logger FallingBackToPCA;
           reduce_pca embeddings).

Definition get_reduced_embeddings (model_type method : string)
    (num_words perplexity : Z) (use_cache : bool) : M Reduction :=
  let cache_key := _get_cache_key model_type method num_words perplexity in
  do! cached <- cache_lookup cache_key;
  match (if use_cache then cached else None) with
  | Some result =>
      run! logger (UsingCachedReduction model_type method num_words);
      ret result
  | None =>
      do! ew <- lift (EmbeddingService.get_all_embeddings loader model_type num_words);
      let embeddings := ew.1 in
      let words := ew.2 in
      if decide (length words = 0%nat) then
        run! logger (NoEmbeddingsFound model_type);
        ret ([], [], [])
      else
        do! reduced <-
          (if decide (method = "pca") then reduce_pca embeddings
           else if decide (method = "tsne") then reduce_tsne embeddings perplexity
           else raise (ValueError ("Unknown reduction method: " +:+ method)));
        let frequencies := ModelLoader.get_word_frequencies loader in
        let word_freqs := map (fun w => default 0 (frequencies !! w)) words in
        let result := (reduced, words, word_freqs) in
        run! cache_store cache_key result;
        ret result
  end.

(** The loop of [get_word_neighborhood] over [zip(words, similarities)]: the
    three lists [vectors], [valid_words], [valid_similarities] grow together. *)
Fixpoint collect_valid (model_type : string) (pairs : list (string * Q))
    (acc : list vec * list string * list Q) : list vec * list string * list Q :=
  match pairs with
  | [] => acc
  | (w, sim) :: rest =>
      let '(vectors, valid_words, valid_similarities) := acc in
      match EmbeddingService.get_word_vector loader w model_type with
      | Some v =>
          collect_valid model_type rest
            ((vectors ++ [v])%list, (valid_words ++ [w])%list,
             (valid_similarities ++ [sim])%list)
      | None => collect_valid model_type rest acc
      end
  end.

Definition get_word_neighborhood (word model_type method : string)
    (num_neighbors perplexity : Z) : M (list (Q * Q) * list string * list Q) :=
  let '(similar_words, in_vocab, _) :=
    EmbeddingService.get_similar_words loader word model_type num_neighbors in
  if negb in_vocab then ret ([], [], [])
  else
    let words := word :: similar_words.*1 in
    let similarities := 1%Q :: similar_words.*2 in
    let '(vectors, valid_words, valid_similarities) :=
      collect_valid model_type (zip words similarities) ([], [], []) in
    if (length vectors <? 2)%nat then ret ([], [], [])
    else
      let embeddings := vectors in
      do! reduced <-
        (if decide (method = "pca") then reduce_pca embeddings
         else
           let adj_perplexity :=
             Z.min perplexity (Z.max 2 (Z.of_nat (length vectors) / 3)) in
           reduce_tsne embeddings adj_perplexity);
      ret (reduced, valid_words, valid_similarities).

Definition clear_cache : M unit :=
  run! (fun s => (inr tt, {| _cache := ∅; log := log s |}));
  logger CacheCleared.

End DimensionalityReductionService.
End DimensionalityReductionService.

(** ** The routers *)

(** [round(s, 4)]: to the nearest multiple of 1/10000, a tie going to the
    even one. *)
Definition round4 (s : Q) : Q :=
  let scaled := (s * 10000)%Q in
  let f := Qfloor scaled in
  let d := (scaled - inject_Z f)%Q in
  let n :=
    match (d ?= 1 # 2)%Q with
    | Lt => f
    | Gt => f + 1
    | Eq => if Z.even f then f else f + 1
    end in
  Qred (inject_Z n / 10000)%Q.

(** The status of the response FastAPI sends for what a handler returned or
    raised. *)
Definition http_status {A : Type} (r : Exc + A) : Z :=
  match r with
  | inr _ => 200
  | inl (HTTPException status_code _) => status_code
  | inl _ => 500
  end.

Definition invalid_model_type : Exc :=
  HTTPException 400
    "Invalid model type. Available: ['tfidf', 'word2vec_cbow', 'word2vec_skipgram']".

(** [backend/schemas/responses.py]: the response models the handlers build. *)
Module SimilarityResponse.
Record t : Type := {
  query_word : string;
  model_type : string;
  similar_words : list (string * Q);
  in_vocabulary : bool;
  message : option string;
}.
End SimilarityResponse.

Module ComparisonResult.
Record t : Type := {
  query_word : string;
  results : list (string * EmbeddingService.ModelResult);
}.
End ComparisonResult.

Module EmbeddingPoint.
Record t : Type := {
  word : string;
  x : Q;
  y : Q;
  frequency : Z;
}.
End EmbeddingPoint.

Module EmbeddingsResponse.
Record t : Type := {
  model_type : string;
  reduction_method : string;
  num_words : Z;
  points : list EmbeddingPoint.t;
}.
End EmbeddingsResponse.

Module VocabularyInfo.
Record t : Type := {
  model_type : string;
  vocab_size : Z;
  sample_words : list string;
}.
End VocabularyInfo.

(** [backend/routers/similarity.py] *)
Module SimilarityRouter.

Record BatchItem : Type := {
  query_word : string;
  similar_words : list (string * Q);
  in_vocabulary : bool;
  message : option string;
}.

Record BatchResponse : Type := {
  model_type : string;
  results : list BatchItem;
}.

Section SimilarityRouter.
Context `{Numerics}.
Context (loader : ModelLoader.t).

(** The body of the loop of [get_similar_words_batch]: the entry appended
    for [word]. *)
Definition batch_item (model_type : string) (topn : Z) (word : string) : BatchItem :=
  let '(similar, in_vocab, msg) :=
    EmbeddingService.get_similar_words loader word model_type topn in
  {| query_word := normalize word;
     similar_words := map (fun ws => (ws.1, round4 ws.2)) similar;
     in_vocabulary := in_vocab;
     message := msg |}.

Definition get_similar_words_batch (words : list string) (model_type : string)
    (topn : Z) : Exc + BatchResponse :=
  if negb (in_MODEL_TYPES model_type) then inl invalid_model_type
  else if (20 <? length words)%nat then
    inl (HTTPException 400 "Maximum 20 words per batch")
  else
    inr {| model_type := model_type;
           results := map (batch_item model_type topn) words |}.

Definition get_similar_words (word model_type : string) (topn : Z)
    : Exc + SimilarityResponse.t :=
  if negb (in_MODEL_TYPES model_type) then inl invalid_model_type
  else
    let '(similar, in_vocab, msg) :=
      EmbeddingService.get_similar_words loader word model_type topn in
    inr {| SimilarityResponse.query_word := normalize word;
           SimilarityResponse.model_type := model_type;
           SimilarityResponse.similar_words := map (fun ws => (ws.1, round4 ws.2)) similar;
           SimilarityResponse.in_vocabulary := in_vocab;
           SimilarityResponse.message := msg |}.

Definition compare_similarity_across_models (word : string) (topn : Z)
    : Exc + ComparisonResult.t :=
  let results := EmbeddingService.compare_similarity loader word topn in
  inr {| ComparisonResult.query_word := normalize word;
         ComparisonResult.results := results |}.

End SimilarityRouter.
End SimilarityRouter.

(** [backend/routers/embeddings.py] *)
Module EmbeddingsRouter.

Import DimensionalityReductionService.

Record Point : Type := {
  word : string;
  x : Q;
  y : Q;
  similarity : Q;
  is_query : bool;
}.

Record NeighborhoodResponse : Type := {
  query_word : string;
  model_type : string;
  reduction_method : string;
  points : list Point;
}.

Section EmbeddingsRouter.
Context `{Numerics}.
Context (loader : ModelLoader.t).

(** The loop over [enumerate(zip(words, similarities))], from index [i]:
    [reduced[i, 0]] raises when [reduced] has no row [i]. *)
Fixpoint build_points (reduced : list (Q * Q)) (query : string) (i : nat)
    (pairs : list (string * Q)) : Exc + list Point :=
  match pairs with
  | [] => inr []
  | (w, sim) :: rest =>
      match reduced !! i with
      | None => inl (out_of_bounds i (length reduced))
      | Some xy =>
          try! ps <- build_points reduced query (S i) rest;
          inr ({| word := w; x := xy.1; y := xy.2; similarity := round4 sim;
                  is_query := bool_decide (w = normalize query) |} :: ps)
      end
  end.

Definition get_word_neighborhood (model_type word method : string)
    (num_neighbors perplexity : Z) : M NeighborhoodResponse :=
  if negb (in_MODEL_TYPES model_type) then raise invalid_model_type
  else
    catch
      (do! r <-
         DimensionalityReductionService.get_word_neighborhood loader word model_type
           method num_neighbors perplexity;
       let reduced := r.1.1 in
       let words := r.1.2 in
       let similarities := r.2 in
       if decide (length words = 0%nat) then
         raise (HTTPException 404 ("Word '" +:+ word +:+ "' not found in vocabulary"))
       else
         do! points <- lift (build_points reduced word 0 (zip words similarities));
         ret {| query_word := normalize word;
                model_type := model_type;
                reduction_method := method;
                points := points |})
      (fun e =>
         raise (HTTPException 500 ("Error generating neighborhood: " +:+ str_exc e))).

Definition clear_embeddings_cache : M string :=
  run! clear_cache;
  ret "Cache cleared successfully".

(** The comprehension over [enumerate(zip(words, frequencies))], from index
    [i]. *)
Fixpoint build_embedding_points (reduced : list (Q * Q)) (i : nat)
    (pairs : list (string * Z)) : Exc + list EmbeddingPoint.t :=
  match pairs with
  | [] => inr []
  | (w, freq) :: rest =>
      match reduced !! i with
      | None => inl (out_of_bounds i (length reduced))
      | Some xy =>
          try! ps <- build_embedding_points reduced (S i) rest;
          inr ({| EmbeddingPoint.word := w; EmbeddingPoint.x := xy.1;
                  EmbeddingPoint.y := xy.2; EmbeddingPoint.frequency := freq |} :: ps)
      end
  end.

(** The service is called with its default [use_cache=True]. *)
Definition get_embeddings_for_visualization (model_type method : string)
    (num_words perplexity : Z) : M EmbeddingsResponse.t :=
  if negb (in_MODEL_TYPES model_type) then raise invalid_model_type
  else if negb (bool_decide (method ∈ ["pca"; "tsne"])) then
    raise (HTTPException 400 "Method must be 'pca' or 'tsne'")
  else
    catch
      (do! r <- get_reduced_embeddings loader model_type method num_words perplexity true;
       let reduced := r.1.1 in
       let words := r.1.2 in
       let frequencies := r.2 in
       if decide (length words = 0%nat) then
         raise (HTTPException 500 "Failed to load embeddings")
       else
         do! points <- lift (build_embedding_points reduced 0 (zip words frequencies));
         ret {| EmbeddingsResponse.model_type := model_type;
                EmbeddingsResponse.reduction_method := method;
                EmbeddingsResponse.num_words := Z.of_nat (length points);
                EmbeddingsResponse.points := points |})
      (fun e =>
         raise (HTTPException 500 ("Error generating embeddings: " +:+ str_exc e))).

End EmbeddingsRouter.
End EmbeddingsRouter.

(** [backend/routers/models.py] *)
Module ModelsRouter.

(** The dictionary [check_word_in_vocabulary] returns. *)
Record CheckWord : Type := {
  word : string;
  model_type : string;
  in_vocabulary : bool;
}.

Section ModelsRouter.
Context `{Numerics}.
Context (loader : ModelLoader.t).
Context (shape1 : list vec -> Z) (vector_size : ModelLoader.Word2Vec -> Z).

Definition list_models : Exc + list ModelLoader.ModelInfo :=
  ModelLoader.get_all_models_info loader shape1 vector_size.

Definition get_model_info (model_type : string) : Exc + ModelLoader.ModelInfo :=
  if negb (in_MODEL_TYPES model_type) then
    inl (HTTPException 404
           ("Model type '" +:+ model_type +:+
            "' not found. Available: ['tfidf', 'word2vec_cbow', 'word2vec_skipgram']"))
  else ModelLoader.get_model_info loader shape1 vector_size model_type.

Definition get_vocabulary_sample (model_type : string) (sample_size : Z)
    : Exc + VocabularyInfo.t :=
  if negb (in_MODEL_TYPES model_type) then
    inl (HTTPException 404 ("Model type '" +:+ model_type +:+ "' not found"))
  else
    try! info <- ModelLoader.get_model_info loader shape1 vector_size model_type;
    try! sample_words <- ModelLoader.get_vocabulary_sample loader model_type sample_size;
    inr {| VocabularyInfo.model_type := model_type;
           VocabularyInfo.vocab_size := ModelLoader.vocab_size info;
           VocabularyInfo.sample_words := sample_words |}.

Definition check_word_in_vocabulary (model_type word : string) : Exc + CheckWord :=
  if negb (in_MODEL_TYPES model_type) then
    inl (HTTPException 404 ("Model type '" +:+ model_type +:+ "' not found"))
  else
    try! in_vocab <- ModelLoader.is_word_in_vocab loader word model_type;
    inr {| word := word; model_type := model_type; in_vocabulary := in_vocab |}.

End ModelsRouter.
End ModelsRouter.

(** ** A small model directory, used to run the code on concrete inputs *)

Module Example.

Definition dot (u v : list Q) : Q := Qred (foldr Qplus 0%Q (zip_with Qmult u v)).

(** Stand-ins for the numerical routines.  The rows used below have norm 1,
    for which the cosine similarity of two rows is their dot product; the
    projection keeps the first two coordinates; t-SNE raises (as a
    scikit-learn release without the [n_iter] keyword does), so that the
    fallback runs. *)
Definition unit_rows : Numerics := {|
  vec := list Q;
  cosine_similarity := fun u rows => inr (map (dot u) rows);
  PCA_fit_transform := fun rows => inr (map (fun r => (nth 0 r 0%Q, nth 1 r 0%Q)) rows);
  TSNE_fit_transform := fun _ _ => inl (LibraryError "unexpected keyword argument 'n_iter'");
|}.

#[local] Existing Instance unit_rows.

Definition cbow : ModelLoader.Word2Vec := {|
  ModelLoader.wv := [("cat", [1; 0]); ("dog", [0; 1])]%Q;
  ModelLoader.most_similar := fun w n =>
    inr (take (Z.to_nat n) (if decide (w = "cat") then [("dog", 0%Q)] else [("cat", 0%Q)]));
|}.

(** Three words; [dog] is the most frequent, [fish] has no count. *)
Definition files : ModelLoader.t := {|
  ModelLoader.tfidf_word_embeddings := Some [[1; 0]; [3 # 5; 4 # 5]; [0; 1]]%Q;
  ModelLoader.tfidf_vocab := Some [("cat", 0%nat); ("dog", 1%nat); ("fish", 2%nat)];
  ModelLoader.word2vec_cbow := Some cbow;
  ModelLoader.word2vec_skipgram := None;
  ModelLoader.word_frequencies := Some (list_to_map [("cat", 5); ("dog", 9)]);
|}.

(** The same vocabulary with [dog] and [fish] on the same row vector: both
    are at similarity 0 from [cat]. *)
Definition tied_files : ModelLoader.t := {|
  ModelLoader.tfidf_word_embeddings := Some [[1; 0]; [0; 1]; [0; 1]]%Q;
  ModelLoader.tfidf_vocab := Some [("cat", 0%nat); ("dog", 1%nat); ("fish", 2%nat)];
  ModelLoader.word2vec_cbow := Some cbow;
  ModelLoader.word2vec_skipgram := None;
  ModelLoader.word_frequencies := Some (list_to_map [("cat", 5); ("dog", 9)]);
|}.

(** The directory of [files] without the frequency table. *)
Definition uncounted_files : ModelLoader.t := {|
  ModelLoader.tfidf_word_embeddings := Some [[1; 0]; [3 # 5; 4 # 5]; [0; 1]]%Q;
  ModelLoader.tfidf_vocab := Some [("cat", 0%nat); ("dog", 1%nat); ("fish", 2%nat)];
  ModelLoader.word2vec_cbow := Some cbow;
  ModelLoader.word2vec_skipgram := None;
  ModelLoader.word_frequencies := None;
|}.


(** The attributes [shape[1]] and [vector_size] of these objects. *)
Definition shape1 (embeddings : list (list Q)) : Z :=
  Z.of_nat (length (hd [] embeddings)).

Definition vector_size (model : ModelLoader.Word2Vec) : Z :=
  Z.of_nat (length (hd [] (ModelLoader.wv model).*2)).

End Example.

(** * Vocabulary of the statements *)

Import DimensionalityReductionService.

(** What NumPy documents of [a.argsort()]: it returns every index of [a]
    once, in an order along which the values do not decrease.  Nothing is
    said of the order of equal values. *)
Definition sorts_ascending (sort : list Q → list nat) : Prop :=
  ∀ a, sort a ≡ₚ seq 0 (length a) ∧
       StronglySorted (λ i j, (nth i a 0 <= nth j a 0)%Q) (sort a).

(** [ranks_before a i j]: row [i] comes before row [j] in the reversal of
    [argsort a]: a higher score first, and among equal scores the larger
    index first. *)
Definition ranks_before (a : list Q) (i j : nat) : Prop :=
  (nth j a 0 < nth i a 0)%Q ∨ ((nth i a 0 == nth j a 0)%Q ∧ (j < i)%nat).

(** [backed_by idx_to_word sims rows results]: the pairs of [results] are,
    in order, the word and the score of the rows [rows]. *)
Definition backed_by (idx_to_word : gmap nat string) (sims : list Q)
    (rows : list nat) (results : list (string * Q)) : Prop :=
  Forall2 (λ i r, idx_to_word !! i = Some r.1 ∧ sims !! i = Some r.2) rows results.

(** The tie-break as the specification words it: of two returned pairs with
    equal scores, the one listed first has the smaller vocabulary index. *)
Definition ties_by_ascending_index (vocab : list (string * nat))
    (results : list (string * Q)) : Prop :=
  ∀ (p q : nat) (rp rq : string * Q) (ip iq : nat),
    (p < q)%nat → results !! p = Some rp → results !! q = Some rq →
    (rp.2 == rq.2)%Q →
    dict_get vocab rp.1 = Some ip → dict_get vocab rq.1 = Some iq →
    (ip < iq)%nat.


(** The service after the records [rs] were logged. *)
Definition logged (s : DimensionalityReductionService.t) (rs : list LogRecord)
    : DimensionalityReductionService.t :=
  {| _cache := _cache s; log := (log s ++ rs)%list |}.

(** The service after [result] was stored under [key]. *)
Definition stored (s : DimensionalityReductionService.t) (key : string)
    (result : Reduction) : DimensionalityReductionService.t :=
  {| _cache := <[key := result]> (_cache s); log := log s |}.

(** The operations of the reduction service. *)
Inductive Operation : Type :=
  | Reduce (model_type method : string) (num_words perplexity : Z) (use_cache : bool)
  | Neighborhood (word model_type method : string) (num_neighbors perplexity : Z)
  | Clear.

(** Every cache entry has a non-empty word list. *)
Definition cache_nonempty_words (s : DimensionalityReductionService.t) : Prop :=
  map_Forall (λ _ (r : Reduction), r.1.2 ≠ []) (_cache s).

Section Statements.
Context `{Numerics}.
Context (loader : ModelLoader.t).

(** The projection step of [get_reduced_embeddings]. *)
Definition project (method : string) (perplexity : Z) (embeddings : list vec)
    : M (list (Q * Q)) :=
  if decide (method = "pca") then reduce_pca embeddings
  else if decide (method = "tsne") then reduce_tsne embeddings perplexity
  else raise (ValueError ("Unknown reduction method: " +:+ method)).

(** The service after an operation, whether it returned or raised. *)
Definition exec (op : Operation) (s : DimensionalityReductionService.t)
    : DimensionalityReductionService.t :=
  match op with
  | Reduce model_type method num_words perplexity use_cache =>
      (get_reduced_embeddings loader model_type method num_words perplexity use_cache s).2
  | Neighborhood word model_type method num_neighbors perplexity =>
      (DimensionalityReductionService.get_word_neighborhood loader word model_type method
         num_neighbors perplexity s).2
  | Clear => (clear_cache s).2
  end.

(** The vocabulary of a model, in its own order: the keys of [vocab] for
    TF-IDF, of [model.wv.key_to_index] for Word2Vec; no word for another
    selector. *)
Definition model_keys (model_type : string) : Exc + list string :=
  if decide (model_type = "tfidf") then
    try! vocab <- ModelLoader.get_tfidf_vocab loader; inr vocab.*1
  else if decide (model_type = "word2vec_cbow") then
    try! model <- ModelLoader.get_word2vec_cbow loader; inr (ModelLoader.wv model).*1
  else if decide (model_type = "word2vec_skipgram") then
    try! model <- ModelLoader.get_word2vec_skipgram loader; inr (ModelLoader.wv model).*1
  else inr [].

(** The embedding row of a vocabulary key: [embeddings[vocab[w]]] for TF-IDF,
    [model.wv[w]] for Word2Vec. *)
Definition row_of_key (model_type : string) (w : string) : option vec :=
  if decide (model_type = "tfidf") then
    match ModelLoader._load_tfidf_models loader with
    | inr (embeddings, vocab) => dict_get vocab w ≫= λ i, embeddings !! i
    | inl _ => None
    end
  else
    match ModelLoader._load_word2vec_model loader model_type with
    | inr model => dict_get (ModelLoader.wv model) w
    | inl _ => None
    end.

(** [frequencies.get(w, 0)]. *)
Definition frequency (w : string) : Z :=
  default 0 (ModelLoader.get_word_frequencies loader !! w).

(** The vocabulary table as the data model describes it: every key is a
    lowercased, trimmed string. *)
Definition vocabulary_normalized : Prop :=
  ∀ model_type keys,
    model_keys model_type = inr keys → Forall (λ w, normalize w = w) keys.

(** What gensim's [most_similar] is relied on for: the words it returns are
    keys of the model. *)
Definition neighbours_are_keys : Prop :=
  ∀ model_type model w n l,
    ModelLoader._load_word2vec_model loader model_type = inr model →
    ModelLoader.most_similar model w n = inr l →
    Forall (λ p : string * Q, p.1 ∈ (ModelLoader.wv model).*1) l.

End Statements.

(** The two TF-IDF artifacts are written together: where the embedding
    matrix exists, so does the vocabulary.  (The loader keeps the matrix it
    has read before it looks for the vocabulary; with the two files together,
    every call of an accessor has the outcome of the first one.) *)
Definition tfidf_files_together `{Numerics} (loader : ModelLoader.t) : Prop :=
  is_Some (ModelLoader.tfidf_word_embeddings loader) →
  is_Some (ModelLoader.tfidf_vocab loader).

(** * Properties *)

(** ** Sorting and ranking *)

Section Sorting.

Lemma StronglySorted_sublist {A : Type} (R : relation A) (l k : list A) :
  k `sublist_of` l → StronglySorted R l → StronglySorted R k.
Proof.
  induction 1 as [|x k l Hs IH|x k l Hs IH]; intros Hl.
  - constructor.
  - apply StronglySorted_inv in Hl as [Hl Hx]. constructor; [by apply IH|].
    rewrite Forall_forall in Hx. apply Forall_forall. intros y Hy.
    apply Hx. by eapply elem_of_sublist.
  - apply StronglySorted_inv in Hl as [Hl _]. by apply IH.
Qed.

Lemma StronglySorted_reverse {A : Type} (R : relation A) (l : list A) :
  StronglySorted R l → StronglySorted (flip R) (reverse l).
Proof.
  induction 1 as [|x l Hl IH Hx]; [constructor|].
  rewrite reverse_cons. apply StronglySorted_app_2; [|done|repeat constructor].
  intros y z Hy Hz. rewrite elem_of_reverse in Hy. apply list_elem_of_singleton in Hz.
  subst z. rewrite Forall_forall in Hx. unfold flip. by apply Hx.
Qed.

Lemma argsort_insert_perm (a : list Q) (i : nat) (l : list nat) :
  argsort_insert a i l ≡ₚ i :: l.
Proof.
  induction l as [|j l IH]; simpl; [done|].
  destruct (Qle_bool _ _); [done|]. rewrite IH. apply Permutation_swap.
Qed.

Lemma argsort_foldr_perm (a : list Q) (l : list nat) :
  foldr (argsort_insert a) [] l ≡ₚ l.
Proof.
  induction l as [|i l IH]; simpl; [done|].
  by rewrite argsort_insert_perm, IH.
Qed.

(** [argsort] returns every index exactly once. *)
Lemma argsort_perm (a : list Q) : argsort a ≡ₚ seq 0 (length a).
Proof. apply argsort_foldr_perm. Qed.

Lemma argsort_insert_sorted (a : list Q) (i : nat) (l : list nat) :
  Forall (λ j, (i < j)%nat) l →
  StronglySorted (flip (ranks_before a)) l →
  StronglySorted (flip (ranks_before a)) (argsort_insert a i l).
Proof.
  induction l as [|j l IH]; intros Hlt Hs; simpl.
  { repeat constructor. }
  apply Forall_cons in Hlt as [Hij Hlt].
  apply StronglySorted_inv in Hs as [Hs Hj].
  destruct (Qle_bool (nth i a 0%Q) (nth j a 0%Q)) eqn:Hle.
  - apply Qle_bool_iff in Hle.
    assert (Hi : flip (ranks_before a) i j).
    { unfold flip, ranks_before.
      destruct (Qlt_le_dec (nth i a 0%Q) (nth j a 0%Q)); [by left|right].
      split; [lra|done]. }
    constructor; [by constructor|]. constructor; [done|].
    rewrite Forall_forall in Hj, Hlt. apply Forall_forall. intros k Hk.
    specialize (Hj k Hk). specialize (Hlt k Hk).
    unfold flip, ranks_before in *.
    destruct (Qlt_le_dec (nth i a 0%Q) (nth k a 0%Q)); [by left|right].
    split; [|done]. destruct Hj as [?|[? _]]; lra.
  - assert (Hgt : (nth j a 0 < nth i a 0)%Q).
    { apply Qnot_le_lt. intros Hc. apply Qle_bool_iff in Hc. congruence. }
    constructor; [by apply IH|].
    rewrite argsort_insert_perm. constructor; [by left|done].
Qed.

Lemma argsort_foldr_sorted (a : list Q) (l : list nat) :
  StronglySorted lt l →
  StronglySorted (flip (ranks_before a)) (foldr (argsort_insert a) [] l).
Proof.
  induction 1 as [|i l Hl IH Hi]; simpl; [constructor|].
  apply argsort_insert_sorted; [|done].
  by rewrite argsort_foldr_perm.
Qed.

Lemma seq_strongly_sorted (start len : nat) : StronglySorted lt (seq start len).
Proof.
  revert start. induction len as [|len IH]; intros start; simpl; [constructor|].
  constructor; [apply IH|]. apply Forall_forall. intros j Hj.
  apply list_elem_of_In, in_seq in Hj. lia.
Qed.

(** [a.argsort()[::-1]] lists the rows by descending score, and rows of equal
    score by descending index. *)
Lemma reverse_argsort_sorted (a : list Q) :
  StronglySorted (ranks_before a) (reverse (argsort a)).
Proof.
  apply (StronglySorted_reverse (flip (ranks_before a))).
  apply argsort_foldr_sorted, seq_strongly_sorted.
Qed.

Lemma StronglySorted_weaken {A : Type} (R R' : relation A) (l : list A) :
  (∀ x y, R x y → R' x y) → StronglySorted R l → StronglySorted R' l.
Proof.
  intros HR. induction 1 as [|x l Hl IH Hx]; constructor; [done|].
  eapply Forall_impl; [exact Hx|]. intros y. apply HR.
Qed.

(** Both outcomes are sorting routines. *)
Lemma argsort_sorts_ascending : sorts_ascending argsort.
Proof.
  intros a. split; [apply argsort_perm|].
  eapply StronglySorted_weaken; [|apply argsort_foldr_sorted, seq_strongly_sorted].
  intros i j. unfold flip, ranks_before. intros [?|[? _]]; lra.
Qed.

Lemma argsort_ties_descending_sorts_ascending : sorts_ascending argsort_ties_descending.
Proof.
  intros a. unfold argsort_ties_descending. split.
  { by rewrite reverse_Permutation, argsort_perm, length_map. }
  eapply StronglySorted_weaken; [|apply reverse_argsort_sorted].
  intros i j. unfold ranks_before.
  change 0%Q with (- 0)%Q. rewrite !(map_nth Qopp).
  change (- 0)%Q with 0%Q. intros [?|[? _]]; lra.
Qed.

End Sorting.

(** ** The TF-IDF nearest-neighbour lookup *)

Lemma invert_vocab_lookup (vocab : list (string * nat)) (i : nat) (w : string) :
  ModelLoader.invert_vocab vocab !! i = Some w → (w, i) ∈ vocab.
Proof.
  unfold ModelLoader.invert_vocab.
  assert (∀ m : gmap nat string,
            foldl (λ m p, <[p.2 := p.1]> m) m vocab !! i = Some w →
            m !! i = Some w ∨ (w, i) ∈ vocab) as Hgen.
  { induction vocab as [|[w' i'] vocab IH]; intros m; simpl; [by left|].
    intros [Hm|Hin]%IH; [|right; by right].
    destruct (decide (i' = i)) as [->|Hne].
    - rewrite lookup_insert_eq in Hm. injection Hm as ->. right. by left.
    - rewrite lookup_insert_ne in Hm by done. by left. }
  intros [Hm|Hin]%Hgen; [by rewrite lookup_empty in Hm|done].
Qed.

Section Nearest.
Context `{Numerics}.
Context (loader : ModelLoader.t).

(** The loop returns the first [topn] rows of [top_indices] other than the
    query's own, unless a lookup raised. *)
Lemma collect_results_spec idx_to_word sims word_idx topn top_indices acc res :
  EmbeddingService.collect_results idx_to_word sims word_idx topn top_indices acc
    = inr res →
  ∃ new,
    res = (acc ++ new)%list ∧
    backed_by idx_to_word sims
      (take (Z.to_nat topn - length acc) (filter (λ i, i ≠ word_idx) top_indices)) new.
Proof.
  revert acc res. induction top_indices as [|idx rest IH]; intros acc res; simpl.
  { intros [= <-]. exists []. rewrite app_nil_r, filter_nil, take_nil.
    split; [done|constructor]. }
  destruct (Z.leb_spec topn (Z.of_nat (length acc))) as [Hfull|Hroom].
  { intros [= <-]. exists []. rewrite app_nil_r.
    replace (Z.to_nat topn - length acc)%nat with 0%nat by lia.
    split; [done|constructor]. }
  rewrite filter_cons. destruct (decide (idx = word_idx)) as [->|Hne].
  { rewrite decide_False by naive_solver. apply IH. }
  rewrite decide_True by done.
  destruct (idx_to_word !! idx) as [w|] eqn:Hw; [|done].
  destruct (sims !! idx) as [sc|] eqn:Hsc; [|done].
  intros (new & -> & Hnew)%IH. exists ((w, sc) :: new).
  rewrite <- (assoc_L (++)). split; [done|].
  rewrite length_app in Hnew. simpl in Hnew.
  replace (Z.to_nat topn - length acc)%nat
    with (S (Z.to_nat topn - (length acc + 1)))%nat by lia.
  simpl. by constructor.
Qed.

(** What a TF-IDF lookup of a vocabulary word returns: an error triple, or
    the ranking cut to [topn]. *)
Lemma get_similar_words_tfidf_by_inv sort word topn embeddings vocab word_idx :
  ModelLoader._load_tfidf_models loader = inr (embeddings, vocab) →
  dict_get vocab (normalize word) = Some word_idx →
  (∃ msg, EmbeddingService.get_similar_words_tfidf_by loader sort word topn
            = ([], false, Some msg)) ∨
  (∃ v sims results,
      embeddings !! word_idx = Some v ∧
      cosine_similarity v embeddings = inr sims ∧
      EmbeddingService.get_similar_words_tfidf_by loader sort word topn
        = (results, true, None) ∧
      backed_by (ModelLoader.invert_vocab vocab) sims
        (take (Z.to_nat topn)
           (filter (λ i, i ≠ word_idx) (reverse (sort sims)))) results).
Proof.
  intros Hload Hidx.
  unfold EmbeddingService.get_similar_words_tfidf_by, ModelLoader.get_tfidf_vocab,
    ModelLoader.get_tfidf_embeddings, ModelLoader.get_tfidf_idx_to_word.
  rewrite Hload. simpl. rewrite Hidx.
  destruct (embeddings !! word_idx) as [v|] eqn:Hv; [|left; eauto].
  destruct (cosine_similarity v embeddings) as [e|sims] eqn:Hcos; simpl; [left; eauto|].
  destruct (EmbeddingService.collect_results _ _ _ _ _ _) as [e|res] eqn:Hres; simpl;
    [left; eauto|].
  right. exists v, sims, res. repeat split; try done.
  apply collect_results_spec in Hres as (new & -> & Hnew).
  simpl in *. by rewrite Nat.sub_0_r in Hnew.
Qed.

Lemma get_similar_words_tfidf_inv word topn embeddings vocab word_idx :
  ModelLoader._load_tfidf_models loader = inr (embeddings, vocab) →
  dict_get vocab (normalize word) = Some word_idx →
  (∃ msg, EmbeddingService.get_similar_words_tfidf loader word topn
            = ([], false, Some msg)) ∨
  (∃ v sims results,
      embeddings !! word_idx = Some v ∧
      cosine_similarity v embeddings = inr sims ∧
      EmbeddingService.get_similar_words_tfidf loader word topn = (results, true, None) ∧
      backed_by (ModelLoader.invert_vocab vocab) sims
        (take (Z.to_nat topn)
           (filter (λ i, i ≠ word_idx) (reverse (argsort sims)))) results).
Proof. apply get_similar_words_tfidf_by_inv. Qed.

(** Rows listed by non-increasing score carry scores in that order. *)
Lemma backed_by_scores_sorted idx_to_word sims rows results :
  backed_by idx_to_word sims rows results →
  StronglySorted (λ i j, (nth j sims 0 <= nth i sims 0)%Q) rows →
  StronglySorted (λ r1 r2, (r2.2 <= r1.2)%Q) results.
Proof.
  induction 1 as [|i r rows results [_ Hi] Hrest IH]; intros Hs; [constructor|].
  apply StronglySorted_inv in Hs as [Hs Hall].
  constructor; [by apply IH|].
  clear IH Hs. induction Hrest as [|j r' rows results [_ Hj] Hrest IH]; [constructor|].
  apply Forall_cons in Hall as [Hij Hall]. constructor; [|by apply IH].
  by rewrite (nth_lookup_Some _ _ _ _ Hi), (nth_lookup_Some _ _ _ _ Hj) in Hij.
Qed.

Lemma backed_by_sorted idx_to_word sims rows results :
  backed_by idx_to_word sims rows results →
  StronglySorted (ranks_before sims) rows →
  StronglySorted (λ r1 r2, (r2.2 <= r1.2)%Q) results.
Proof.
  induction 1 as [|i r rows results [_ Hi] Hrest IH]; intros Hs; [constructor|].
  apply StronglySorted_inv in Hs as [Hs Hall].
  constructor; [by apply IH|].
  clear IH Hs. induction Hrest as [|j r' rows results [_ Hj] Hrest IH]; [constructor|].
  apply Forall_cons in Hall as [Hij Hall]. constructor; [|by apply IH].
  unfold ranks_before in Hij.
  rewrite (nth_lookup_Some _ _ _ _ Hi), (nth_lookup_Some _ _ _ _ Hj) in Hij.
  destruct Hij as [?|[? _]]; lra.
Qed.

Lemma ranked_rows_sorted sims word_idx n :
  StronglySorted (ranks_before sims)
    (take n (filter (λ i, i ≠ word_idx) (reverse (argsort sims)))).
Proof.
  eapply StronglySorted_sublist; [apply sublist_take|].
  eapply StronglySorted_sublist; [apply sublist_filter|].
  apply reverse_argsort_sorted.
Qed.

(** In a dict (an association list with unique keys) an item is what a
    lookup of its key returns. *)
Lemma dict_get_item {V : Type} (d : list (string * V)) (k : string) (v : V) :
  NoDup d.*1 → (k, v) ∈ d → dict_get d k = Some v.
Proof.
  induction d as [|[k' v'] d IH]; simpl; [by intros _ ?%elem_of_nil|].
  intros [Hk' Hd]%NoDup_cons [[= -> ->]|Hin]%elem_of_cons.
  - by rewrite decide_True.
  - destruct (decide (k' = k)) as [->|Hne]; [|by apply IH].
    destruct Hk'. by apply (list_elem_of_fmap_2 fst) in Hin.
Qed.

(** C1.  For a word of the TF-IDF vocabulary and [N >= 1], the lookup returns
    at most [N] pairs; each pair is the word of a row other than the query
    word's own row, so that the query word is not among the returned words;
    and the scores are in non-increasing order. *)
Theorem nearest_tfidf_bounded_sorted (word : string) (N : Z)
    (vocab : list (string * nat)) (word_idx : nat) :
  1 ≤ N →
  ModelLoader.get_tfidf_vocab loader = inr vocab →
  NoDup vocab.*1 →
  dict_get vocab (normalize word) = Some word_idx →
  let results := (EmbeddingService.get_similar_words_tfidf loader word N).1.1 in
  Z.of_nat (length results) ≤ N ∧
  (∃ rows,
      Forall2 (λ i r, ModelLoader.invert_vocab vocab !! i = Some r.1) rows results ∧
      word_idx ∉ rows) ∧
  (normalize word ∉ results.*1) ∧
  StronglySorted (λ r1 r2, (r2.2 <= r1.2)%Q) results.
Proof.
  intros HN Hvocab Hdict Hidx results.
  unfold ModelLoader.get_tfidf_vocab in Hvocab.
  destruct (ModelLoader._load_tfidf_models loader) as [e|[embeddings vocab']] eqn:Hload;
    simplify_eq/=.
  destruct (get_similar_words_tfidf_inv word N _ _ _ Hload Hidx)
    as [[msg Hr]|(v & sims & res & _ & _ & Hr & Hb)]; subst results; rewrite Hr; simpl.
  { split; [lia|]. split; [|split; [set_solver|constructor]].
    exists []. split; [constructor|set_solver]. }
  assert (word_idx ∉ take (Z.to_nat N)
            (filter (λ i, i ≠ word_idx) (reverse (argsort sims)))) as Hown.
  { intros Hin. apply elem_of_take in Hin as (k & Hk & _).
    apply list_elem_of_lookup_2, list_elem_of_filter in Hk as [Hne _]. done. }
  split; [|split; [|split]].
  - apply Forall2_length in Hb. rewrite <- Hb, length_take. lia.
  - eexists. split; [|exact Hown].
    eapply Forall2_impl; [exact Hb|]. by intros i r [? _].
  - intros (r & Hw & Hr')%list_elem_of_fmap.
    apply list_elem_of_lookup in Hr' as [k Hk].
    destruct (Forall2_lookup_r _ _ _ _ _ Hb Hk) as (i & Hi & Hiw & _).
    apply invert_vocab_lookup in Hiw. rewrite <- Hw in Hiw.
    apply (dict_get_item _ _ _ Hdict) in Hiw.
    assert (i = word_idx) as -> by congruence.
    apply Hown. by eapply list_elem_of_lookup_2.
  - eapply backed_by_sorted; [exact Hb|]. apply ranked_rows_sorted.
Qed.

End Nearest.

(** C1 on the example directory: the two neighbours of [cat]. *)
Lemma nearest_tfidf_bounded_sorted_witness :
  EmbeddingService.get_similar_words_tfidf Example.files "Cat " 2
    = ([("dog", 3 # 5); ("fish", 0%Q)], true, None) ∧
  let results := (EmbeddingService.get_similar_words_tfidf Example.files "Cat " 2).1.1 in
  Z.of_nat (length results) ≤ 2 ∧
  (∃ rows,
      Forall2 (λ i r,
        ModelLoader.invert_vocab [("cat", 0%nat); ("dog", 1%nat); ("fish", 2%nat)] !! i
          = Some r.1) rows results ∧
      0%nat ∉ rows) ∧
  (normalize "Cat " ∉ results.*1) ∧
  StronglySorted (λ r1 r2, (r2.2 <= r1.2)%Q) results.
Proof.
  split; [reflexivity|].
  apply (nearest_tfidf_bounded_sorted Example.files "Cat " 2
           [("cat", 0%nat); ("dog", 1%nat); ("fish", 2%nat)] 0%nat);
    [lia|reflexivity|simpl; apply NoDup_ListNoDup; repeat constructor; simpl; intuition congruence
    |reflexivity].
Defined.

(** ** Ties in the ranking *)

Section Ties.
Context `{Numerics}.
Context (loader : ModelLoader.t).

(** Whatever the sorting routine, the lookup returns the rows of the
    reversed sort other than the query's, cut to [N], by non-increasing
    score. *)
Lemma get_similar_words_tfidf_by_ranked (sort : list Q → list nat) (word : string)
    (N : Z) (embeddings : list vec) (vocab : list (string * nat)) (word_idx : nat)
    (v : vec) (sims : list Q) :
  sorts_ascending sort →
  ModelLoader._load_tfidf_models loader = inr (embeddings, vocab) →
  dict_get vocab (normalize word) = Some word_idx →
  embeddings !! word_idx = Some v →
  cosine_similarity v embeddings = inr sims →
  let lookup := EmbeddingService.get_similar_words_tfidf_by loader sort word N in
  StronglySorted (λ r1 r2, (r2.2 <= r1.2)%Q) lookup.1.1 ∧
  (lookup.1.2 = true →
   backed_by (ModelLoader.invert_vocab vocab) sims
     (take (Z.to_nat N) (filter (λ i, i ≠ word_idx) (reverse (sort sims)))) lookup.1.1).
Proof.
  intros Hsort Hload Hidx Hv Hcos lookup. subst lookup.
  destruct (get_similar_words_tfidf_by_inv loader sort word N _ _ _ Hload Hidx)
    as [[msg Hr]|(v' & sims' & res & Hv' & Hcos' & Hr & Hb)]; rewrite Hr; simpl.
  { split; [constructor|done]. }
  assert (sims' = sims) as -> by congruence.
  split; [|done].
  eapply backed_by_scores_sorted; [exact Hb|].
  eapply StronglySorted_sublist; [apply sublist_take|].
  eapply StronglySorted_sublist; [apply sublist_filter|].
  apply (StronglySorted_reverse (λ i j, (nth i sims 0 <= nth j sims 0)%Q)).
  apply Hsort.
Qed.

End Ties.

(** C3, as the code has it.  The pairs a TF-IDF lookup returns are those of
    the rows of [similarities.argsort()[::-1]] other than the query's, cut to
    [N]: they come by non-increasing score, and rows of equal score in the
    reverse of the order the sort gave them.  The sort is NumPy's default
    one, which fixes no order among equal values.  When it keeps them in
    index order, [fish] (row 2) is returned before [dog] (row 1), both at
    similarity 0 from [cat]; when it lists them by descending index, [dog]
    is returned first: no order of the vocabulary indices holds among equal
    scores. *)
Theorem tfidf_ties_follow_argsort :
  (∀ (numerics : Numerics) (loader : ModelLoader.t) (sort : list Q → list nat)
     (word : string) (N : Z) (embeddings : list vec) (vocab : list (string * nat))
     (word_idx : nat) (v : vec) (sims : list Q),
     sorts_ascending sort →
     ModelLoader._load_tfidf_models loader = inr (embeddings, vocab) →
     dict_get vocab (normalize word) = Some word_idx →
     embeddings !! word_idx = Some v →
     cosine_similarity v embeddings = inr sims →
     let lookup := EmbeddingService.get_similar_words_tfidf_by loader sort word N in
     StronglySorted (λ r1 r2, (r2.2 <= r1.2)%Q) lookup.1.1 ∧
     (lookup.1.2 = true →
      backed_by (ModelLoader.invert_vocab vocab) sims
        (take (Z.to_nat N) (filter (λ i, i ≠ word_idx) (reverse (sort sims))))
        lookup.1.1)) ∧
  sorts_ascending argsort ∧
  sorts_ascending argsort_ties_descending ∧
  EmbeddingService.get_similar_words_tfidf_by Example.tied_files argsort "cat" 2
    = ([("fish", 0%Q); ("dog", 0%Q)], true, None) ∧
  EmbeddingService.get_similar_words_tfidf_by Example.tied_files argsort_ties_descending
    "cat" 2
    = ([("dog", 0%Q); ("fish", 0%Q)], true, None).
Proof.
  split; [|split; [|split; [|split]]].
  - intros numerics loader sort word N embeddings vocab word_idx v sims.
    apply get_similar_words_tfidf_by_ranked.
  - apply argsort_sorts_ascending.
  - apply argsort_ties_descending_sorts_ascending.
  - reflexivity.
  - reflexivity.
Qed.

(** C3 fails as stated: [dog] (row 1) and [fish] (row 2) are both at
    similarity 0 from [cat], and [fish] is returned first. *)
Lemma tfidf_ties_not_ascending :
  EmbeddingService.get_similar_words_tfidf Example.tied_files "cat" 2
    = ([("fish", 0%Q); ("dog", 0%Q)], true, None) ∧
  ¬ ties_by_ascending_index [("cat", 0%nat); ("dog", 1%nat); ("fish", 2%nat)]
      (EmbeddingService.get_similar_words_tfidf Example.tied_files "cat" 2).1.1.
Proof.
  split; [reflexivity|].
  intros Hasc.
  specialize (Hasc 0%nat 1%nat ("fish", 0%Q) ("dog", 0%Q) 2%nat 1%nat).
  assert (2 < 1)%nat; [|lia].
  apply Hasc; try reflexivity. lia.
Qed.

(** On the example directory, with the sort that lists equal scores by
    descending index. *)
Lemma tfidf_ties_follow_argsort_witness :
  let lookup :=
    EmbeddingService.get_similar_words_tfidf_by Example.files argsort_ties_descending
      "Cat " 2 in
  lookup = ([("dog", 3 # 5); ("fish", 0%Q)], true, None) ∧
  StronglySorted (λ r1 r2, (r2.2 <= r1.2)%Q) lookup.1.1 ∧
  (lookup.1.2 = true →
   backed_by (ModelLoader.invert_vocab [("cat", 0%nat); ("dog", 1%nat); ("fish", 2%nat)])
     [1; 3 # 5; 0]%Q
     (take (Z.to_nat 2)
        (filter (λ i, i ≠ 0%nat) (reverse (argsort_ties_descending [1; 3 # 5; 0]%Q))))
     lookup.1.1).
Proof.
  split; [reflexivity|].
  destruct tfidf_ties_follow_argsort as (Hranked & _ & Hsort & _).
  apply (Hranked Example.unit_rows Example.files argsort_ties_descending "Cat " 2
           [[1; 0]; [3 # 5; 4 # 5]; [0; 1]]%Q
           [("cat", 0%nat); ("dog", 1%nat); ("fish", 2%nat)] 0%nat [1; 0]%Q
           [1; 3 # 5; 0]%Q);
    [exact Hsort|reflexivity..].
Defined.

(** ** Words outside the vocabulary *)

Lemma string_app_nonempty (c : ascii) (s t : string) : String c s +:+ t ≠ "".
Proof. done. Qed.

Section Absent.
Context `{Numerics}.
Context (loader : ModelLoader.t).

Lemma load_tfidf_error e :
  ModelLoader._load_tfidf_models loader = inl e → str_exc e ≠ "".
Proof.
  unfold ModelLoader._load_tfidf_models.
  destruct (ModelLoader.tfidf_word_embeddings loader); [|by intros [= <-]].
  destruct (ModelLoader.tfidf_vocab loader); [done|by intros [= <-]].
Qed.

Lemma load_word2vec_error model_type e :
  ModelLoader._load_word2vec_model loader model_type = inl e → str_exc e ≠ "".
Proof.
  unfold ModelLoader._load_word2vec_model.
  destruct (if decide (model_type = "word2vec_cbow") then _ else _);
    [done|by intros [= <-]].
Qed.

Lemma absent_word_tfidf word topn :
  ModelLoader.is_word_in_vocab loader word "tfidf" ≠ inr true →
  ∃ msg, EmbeddingService.get_similar_words_tfidf loader word topn
           = ([], false, Some msg) ∧ msg ≠ "".
Proof.
  unfold ModelLoader.is_word_in_vocab, EmbeddingService.get_similar_words_tfidf,
    EmbeddingService.get_similar_words_tfidf_by,
    ModelLoader.get_tfidf_vocab, ModelLoader.get_tfidf_embeddings,
    ModelLoader.get_tfidf_idx_to_word.
  rewrite decide_True by done.
  destruct (ModelLoader._load_tfidf_models loader) as [e|[embeddings vocab]] eqn:Hload;
    simpl; intros Habs.
  { eexists. split; [done|]. by eapply load_tfidf_error. }
  destruct (dict_get vocab (normalize word)) as [i|] eqn:Hget.
  { destruct Habs; f_equal; apply bool_decide_eq_true; by eexists. }
  eexists. split; [done|]. apply string_app_nonempty.
Qed.

Lemma absent_word_word2vec word model_type topn :
  model_type ∈ ["word2vec_cbow"; "word2vec_skipgram"] →
  ModelLoader.is_word_in_vocab loader word model_type ≠ inr true →
  ∃ msg, EmbeddingService.get_similar_words_word2vec loader word model_type topn
           = ([], false, Some msg) ∧ msg ≠ "".
Proof.
  intros Hmt. unfold ModelLoader.is_word_in_vocab,
    EmbeddingService.get_similar_words_word2vec,
    ModelLoader.get_word2vec_cbow, ModelLoader.get_word2vec_skipgram.
  rewrite !elem_of_cons, elem_of_nil in Hmt. destruct Hmt as [->|[->|[]]].
  all: repeat (rewrite decide_False by done); repeat (rewrite decide_True by done).
  all: destruct (ModelLoader._load_word2vec_model loader _) as [e|model] eqn:Hload;
    simpl; intros Habs;
    [eexists; split; [done|]; by eapply load_word2vec_error|].
  all: destruct (ModelLoader.wv_contains model (normalize word)) eqn:Hin;
    [by destruct Habs|simpl].
  all: eexists; split; [done|]; apply string_app_nonempty.
Qed.

(** C6.  When the vocabulary check of the model store does not answer [True]
    for the word (the normalised word is not a key of the selected model, the
    selector is not a known one, or the model could not be loaded), the
    lookup returns an empty list, [found_in_vocabulary = False] and a
    non-empty message.  The lookup is a total function: it never raises. *)
Theorem absent_word_lookup (word model_type : string) (topn : Z) :
  ModelLoader.is_word_in_vocab loader word model_type ≠ inr true →
  ∃ msg,
    EmbeddingService.get_similar_words loader word model_type topn
      = ([], false, Some msg) ∧
    msg ≠ "".
Proof.
  intros Habs. unfold EmbeddingService.get_similar_words.
  destruct (decide (model_type = "tfidf")) as [->|Hne].
  { by apply absent_word_tfidf. }
  case_bool_decide as Hmt.
  { by apply absent_word_word2vec. }
  eexists. split; [done|]. apply string_app_nonempty.
Qed.

End Absent.

Lemma absent_word_lookup_witness :
  ∃ msg,
    EmbeddingService.get_similar_words Example.files "Zebra" "tfidf" 5
      = ([], false, Some msg) ∧
    msg ≠ "".
Proof.
  apply (absent_word_lookup Example.files "Zebra" "tfidf" 5).
  vm_compute. discriminate.
Defined.

(** ** The batch endpoint *)

Section Batch.
Context `{Numerics}.
Context (loader : ModelLoader.t).

(** C7.  A list of more than 20 words is answered with status 400, whatever
    the model store holds: no word is looked up.  A list of at most 20 words,
    for a recognised model type, is answered with one entry per word, in
    order; the entry of a word is [batch_item] of that word alone, so it
    carries the word's own [in_vocabulary] flag and does not depend on the
    other words of the list. *)
Theorem batch_limit_and_independence (words : list string) (model_type : string)
    (topn : Z) :
  ((20 < length words)%nat →
     http_status (SimilarityRouter.get_similar_words_batch loader words model_type topn)
       = 400 ∧
     ∀ loader' : ModelLoader.t,
       SimilarityRouter.get_similar_words_batch loader' words model_type topn
         = SimilarityRouter.get_similar_words_batch loader words model_type topn) ∧
  ((length words ≤ 20)%nat → in_MODEL_TYPES model_type = true →
     ∃ resp,
       SimilarityRouter.get_similar_words_batch loader words model_type topn = inr resp ∧
       length (SimilarityRouter.results resp) = length words ∧
       ∀ (i : nat) (word : string), words !! i = Some word →
         ∃ item,
           SimilarityRouter.results resp !! i = Some item ∧
           item = SimilarityRouter.batch_item loader model_type topn word ∧
           SimilarityRouter.query_word item = normalize word ∧
           SimilarityRouter.in_vocabulary item
             = (EmbeddingService.get_similar_words loader word model_type topn).1.2).
Proof.
  unfold SimilarityRouter.get_similar_words_batch. split.
  - intros Hlen. apply Nat.ltb_lt in Hlen. rewrite Hlen.
    destruct (in_MODEL_TYPES model_type); simpl; by split.
  - intros Hlen Hvalid. rewrite Hvalid. simpl.
    destruct (Nat.ltb_spec 20 (length words)) as [?|_]; [lia|].
    eexists. split; [done|]. simpl. split; [by rewrite length_map|].
    intros i word Hw. eexists. split; [|split; [done|]].
    { by rewrite list_lookup_fmap, Hw. }
    unfold SimilarityRouter.batch_item.
    by destruct (EmbeddingService.get_similar_words loader word model_type topn)
      as [[??]?].
Qed.

End Batch.

Lemma batch_limit_and_independence_witness :
  http_status
    (SimilarityRouter.get_similar_words_batch Example.files
       (replicate 21 "cat") "tfidf" 5) = 400 ∧
  ∃ resp,
    SimilarityRouter.get_similar_words_batch Example.files
      (replicate 19 "cat" ++ ["zebra"])%list "tfidf" 5 = inr resp ∧
    length (SimilarityRouter.results resp) = 20%nat ∧
    (SimilarityRouter.in_vocabulary <$> SimilarityRouter.results resp)
      = (replicate 19 true ++ [false])%list.
Proof.
  split.
  - apply (batch_limit_and_independence Example.files (replicate 21 "cat") "tfidf" 5).
    simpl. lia.
  - destruct (proj2 (batch_limit_and_independence Example.files
                       (replicate 19 "cat" ++ ["zebra"])%list "tfidf" 5))
      as (resp & Hresp & Hlen & _); [simpl; lia|reflexivity|].
    exists resp. split; [exact Hresp|]. split; [exact Hlen|].
    vm_compute in Hresp. injection Hresp as <-. reflexivity.
Defined.

(** ** The neighbourhood endpoint *)

Section NeighborhoodStatus.
Context `{Numerics}.
Context (loader : ModelLoader.t).

(** For a recognised model type and a word the vocabulary check does not
    find, the handler raises its 404 inside its own [try] block, whose
    [except Exception] turns it into a 500. *)
Lemma neighborhood_absent_word_status (model_type word method : string)
    (num_neighbors perplexity : Z) (s : DimensionalityReductionService.t) :
  in_MODEL_TYPES model_type = true →
  ModelLoader.is_word_in_vocab loader word model_type ≠ inr true →
  (EmbeddingsRouter.get_word_neighborhood loader model_type word method
     num_neighbors perplexity s).1
    = inl (HTTPException 500
             ("Error generating neighborhood: "
                +:+ str_exc (HTTPException 404
                               ("Word '" +:+ word +:+ "' not found in vocabulary")))).
Proof.
  intros Hvalid Habs.
  assert (∃ msg, EmbeddingService.get_similar_words loader word model_type num_neighbors
                   = ([], false, Some msg)) as [msg Hlookup].
  { unfold EmbeddingService.get_similar_words.
    destruct (decide (model_type = "tfidf")) as [->|Hne].
    { destruct (absent_word_tfidf loader word num_neighbors Habs) as (m & ? & _); eauto. }
    case_bool_decide as Hmt; [|eauto].
    destruct (absent_word_word2vec loader word model_type num_neighbors Hmt Habs)
      as (m & ? & _); eauto. }
  unfold EmbeddingsRouter.get_word_neighborhood,
    DimensionalityReductionService.get_word_neighborhood.
  rewrite Hvalid, Hlookup. reflexivity.
Qed.

End NeighborhoodStatus.

(** C2 (violated by the code).  On the example directory [fish] is a word of
    the TF-IDF vocabulary that the CBOW model does not have: asking for its
    neighbourhood in the CBOW model is answered with status 500, not 404. *)
Theorem neighborhood_unknown_word_responds_500 :
  ModelLoader.is_word_in_vocab Example.files "fish" "tfidf" = inr true ∧
  ModelLoader.is_word_in_vocab Example.files "fish" "word2vec_cbow" = inr false ∧
  (EmbeddingsRouter.get_word_neighborhood Example.files "word2vec_cbow" "fish" "pca"
     20 30 DimensionalityReductionService.init).1
    = inl (HTTPException 500
             "Error generating neighborhood: 404: Word 'fish' not found in vocabulary") ∧
  http_status
    (EmbeddingsRouter.get_word_neighborhood Example.files "word2vec_cbow" "fish" "pca"
       20 30 DimensionalityReductionService.init).1 = 500.
Proof. repeat split; reflexivity. Qed.

(** ** The reduction service: what a call leaves in the log and the cache *)

Lemma logged_logged s rs1 rs2 : logged (logged s rs1) rs2 = logged s (rs1 ++ rs2).
Proof. unfold logged. simpl. by rewrite (assoc_L (++)). Qed.

Section Reduce.
Context `{Numerics}.

Lemma reduce_pca_eq (embeddings : list vec) s :
  reduce_pca embeddings s =
    match PCA_fit_transform embeddings with
    | inr reduced =>
        (inr reduced, logged s [ApplyingPCA (length embeddings); PCAExplainedVariance])
    | inl e => (inl e, logged s [ApplyingPCA (length embeddings)])
    end.
Proof.
  unfold reduce_pca, bind, logger, lift, ret, logged. simpl.
  destruct (PCA_fit_transform embeddings); simpl; [done|].
  by rewrite <- (assoc_L (++)).
Qed.

Lemma reduce_tsne_eq (embeddings : list vec) perplexity s :
  let adjusted :=
    Z.min perplexity (Z.max 5 ((Z.of_nat (length embeddings) - 1) / 3)) in
  reduce_tsne embeddings perplexity s =
    match TSNE_fit_transform adjusted embeddings with
    | inr reduced => (inr reduced, logged s [ApplyingTSNE (length embeddings) adjusted])
    | inl e =>
        reduce_pca embeddings
          (logged s [ApplyingTSNE (length embeddings) adjusted; TSNEFailed e;
                     FallingBackToPCA])
    end.
Proof.
  unfold reduce_tsne, bind, catch, logger, lift, logged. simpl.
  destruct (TSNE_fit_transform _ embeddings); simpl; [|done].
  by rewrite <- !(assoc_L (++)).
Qed.

(** A projection only appends to the log. *)
Lemma reduce_pca_logged (embeddings : list vec) s :
  ∃ rest, (reduce_pca embeddings s).2
            = logged s (ApplyingPCA (length embeddings) :: rest).
Proof.
  rewrite reduce_pca_eq. destruct (PCA_fit_transform embeddings); eauto.
Qed.

Lemma reduce_tsne_logged (embeddings : list vec) perplexity s :
  ∃ rest,
    (reduce_tsne embeddings perplexity s).2
      = logged s
          (ApplyingTSNE (length embeddings)
             (Z.min perplexity (Z.max 5 ((Z.of_nat (length embeddings) - 1) / 3)))
             :: rest).
Proof.
  rewrite reduce_tsne_eq. simpl.
  destruct (TSNE_fit_transform _ embeddings) as [e|reduced]; [|eauto].
  destruct (reduce_pca_logged embeddings
              (logged s [ApplyingTSNE (length embeddings)
                           (Z.min perplexity
                              (Z.max 5 ((Z.of_nat (length embeddings) - 1) / 3)));
                         TSNEFailed e; FallingBackToPCA])) as [rest ->].
  rewrite logged_logged. eauto.
Qed.

End Reduce.

Section FullVisualization.
Context `{Numerics}.
Context (loader : ModelLoader.t).

Lemma project_cache method perplexity embeddings s :
  _cache (project method perplexity embeddings s).2 = _cache s.
Proof.
  unfold project. repeat case_decide; [| |done].
  - by destruct (reduce_pca_logged embeddings s) as [rest ->].
  - by destruct (reduce_tsne_logged embeddings perplexity s) as [rest ->].
Qed.

(** A call that finds its key in the cache. *)
Lemma get_reduced_embeddings_hit model_type method num_words perplexity s r :
  _cache s !! _get_cache_key model_type method num_words perplexity = Some r →
  get_reduced_embeddings loader model_type method num_words perplexity true s
    = (inr r, logged s [UsingCachedReduction model_type method num_words]).
Proof.
  intros Hr. unfold get_reduced_embeddings, bind, cache_lookup. simpl. by rewrite Hr.
Qed.

(** A call that computes: the cache is not consulted or has no entry. *)
Lemma get_reduced_embeddings_miss model_type method num_words perplexity use_cache s :
  use_cache = false
    ∨ _cache s !! _get_cache_key model_type method num_words perplexity = None →
  get_reduced_embeddings loader model_type method num_words perplexity use_cache s =
    match EmbeddingService.get_all_embeddings loader model_type num_words with
    | inl e => (inl e, s)
    | inr (embeddings, words) =>
        if decide (length words = 0%nat) then
          (inr ([], [], []), logged s [NoEmbeddingsFound model_type])
        else
          match project method perplexity embeddings s with
          | (inr reduced, sr) =>
              let frequencies := ModelLoader.get_word_frequencies loader in
              let result :=
                (reduced, words, map (λ w, default 0 (frequencies !! w)) words) in
              (inr result,
               stored sr (_get_cache_key model_type method num_words perplexity) result)
          | (inl e, sr) => (inl e, sr)
          end
    end.
Proof.
  intros Hmiss. unfold get_reduced_embeddings, bind, cache_lookup, lift. simpl.
  assert ((if use_cache
           then _cache s !! _get_cache_key model_type method num_words perplexity
           else None) = None) as ->.
  { destruct Hmiss as [->| ->]; [done|by destruct use_cache]. }
  destruct (EmbeddingService.get_all_embeddings loader model_type num_words)
    as [e|[embeddings words]]; [done|]. simpl.
  case_decide; [done|].
  fold (project method perplexity embeddings).
  by destruct (project method perplexity embeddings s) as [[e|reduced] sr].
Qed.

(** C4.  [reduce_tsne] on [n_samples] rows with requested perplexity [p]
    passes [min(p, max(5, floor((n_samples - 1) / 3)))] to the t-SNE routine
    (and logs it); for [p = 30] on 10 rows this is at most 5.  A
    full-visualization call with [method = "tsne"] that computes runs exactly
    this on the rows it gathered. *)
Theorem tsne_effective_perplexity (embeddings : list vec) (p : Z) :
  let n_samples := Z.of_nat (length embeddings) in
  ∃ q effective : Z,
    3 * q ≤ n_samples - 1 < 3 * q + 3 ∧
    effective = Z.min p (Z.max 5 q) ∧
    (p = 30 → n_samples = 10 → effective ≤ 5) ∧
    (∀ s,
       reduce_tsne embeddings p s =
         match TSNE_fit_transform effective embeddings with
         | inr reduced =>
             (inr reduced, logged s [ApplyingTSNE (length embeddings) effective])
         | inl e =>
             reduce_pca embeddings
               (logged s [ApplyingTSNE (length embeddings) effective; TSNEFailed e;
                          FallingBackToPCA])
         end) ∧
    (∀ model_type num_words words use_cache s,
       EmbeddingService.get_all_embeddings loader model_type num_words
         = inr (embeddings, words) →
       words ≠ [] →
       use_cache = false
         ∨ _cache s !! _get_cache_key model_type "tsne" num_words p = None →
       ∃ rest,
         log (get_reduced_embeddings loader model_type "tsne" num_words p use_cache s).2
           = (log s ++ ApplyingTSNE (length embeddings) effective :: rest)%list).
Proof.
  intros n_samples. exists ((n_samples - 1) / 3), (Z.min p (Z.max 5 ((n_samples - 1) / 3))).
  split; [|split; [done|split; [|split]]].
  - pose proof (Z.div_mod (n_samples - 1) 3 ltac:(lia)).
    pose proof (Z.mod_pos_bound (n_samples - 1) 3 ltac:(lia)). lia.
  - intros -> Hn. rewrite Hn. change ((10 - 1) / 3) with 3. lia.
  - intros s. apply reduce_tsne_eq.
  - intros model_type num_words words use_cache s Hall Hwords Hmiss.
    rewrite (get_reduced_embeddings_miss _ _ _ _ _ _ Hmiss), Hall.
    rewrite decide_False by (by destruct words).
    unfold project. rewrite decide_False, decide_True by done.
    destruct (reduce_tsne_logged embeddings p s) as [rest Hrest].
    destruct (reduce_tsne embeddings p s) as [[e|reduced] sr]; simpl in *; subst sr;
      by exists rest.
Qed.

End FullVisualization.

Lemma tsne_effective_perplexity_witness :
  ∃ q effective : Z,
    3 * q ≤ 2 - 1 < 3 * q + 3 ∧
    effective = Z.min 30 (Z.max 5 q) ∧
    ∃ rest,
      log (get_reduced_embeddings Example.files "tfidf" "tsne" 2 30 true
             DimensionalityReductionService.init).2
        = ([] ++ ApplyingTSNE 2 effective :: rest)%list.
Proof.
  destruct (tsne_effective_perplexity Example.files [[3 # 5; 4 # 5]; [1; 0]]%Q 30)
    as (q & effective & Hq & Heff & _ & _ & Hfull).
  exists q, effective. split; [exact Hq|]. split; [exact Heff|].
  apply (Hfull "tfidf" 2 ["dog"; "cat"] true DimensionalityReductionService.init);
    [reflexivity|discriminate|right; reflexivity].
Defined.

(** ** Cache keys *)

Lemma string_app_cons (c : ascii) (s t : string) : String c s +:+ t = String c (s +:+ t).
Proof. done. Qed.

Lemma string_app_nil (t : string) : "" +:+ t = t.
Proof. done. Qed.






Section Memoization.
Context `{Numerics}.
Context (loader : ModelLoader.t).




End Memoization.



(** ** The cache invariant *)

Section CacheInvariant.
Context `{Numerics}.
Context (loader : ModelLoader.t).

Lemma get_word_neighborhood_cache word model_type method num_neighbors perplexity s :
  _cache (DimensionalityReductionService.get_word_neighborhood loader word model_type
            method num_neighbors perplexity s).2 = _cache s.
Proof.
  unfold DimensionalityReductionService.get_word_neighborhood.
  destruct (EmbeddingService.get_similar_words _ _ _ _) as [[similar in_vocab] msg].
  destruct in_vocab; cbn [negb]; [|done].
  destruct (collect_valid _ _ _ _) as [[vectors valid_words] valid_similarities].
  destruct (length vectors <? 2)%nat; [done|].
  unfold bind, ret. case_decide.
  - destruct (reduce_pca_logged vectors s) as [rest Hs].
    by destruct (reduce_pca vectors s) as [[e|reduced] sr]; simpl in *; subst sr.
  - destruct (reduce_tsne_logged vectors
                (Z.min perplexity (Z.max 2 (Z.of_nat (length vectors) / 3))) s)
      as [rest Hs].
    by destruct (reduce_tsne vectors _ s) as [[e|reduced] sr]; simpl in *; subst sr.
Qed.

Lemma get_reduced_embeddings_invariant model_type method num_words perplexity use_cache s :
  cache_nonempty_words s →
  cache_nonempty_words
    (get_reduced_embeddings loader model_type method num_words perplexity use_cache s).2.
Proof.
  intros Hinv.
  destruct (_cache s !! _get_cache_key model_type method num_words perplexity)
    as [r0|] eqn:Hkey; [destruct use_cache|].
  { by rewrite (get_reduced_embeddings_hit _ _ _ _ _ _ _ Hkey). }
  all: rewrite get_reduced_embeddings_miss by auto.
  all: destruct (EmbeddingService.get_all_embeddings _ _ _) as [e|[embeddings words]];
    [done|]; case_decide as Hwords; [done|].
  all: pose proof (project_cache method perplexity embeddings s) as Hsr.
  all: destruct (project _ _ _ _) as [[e|reduced] sr]; simpl in *;
    unfold cache_nonempty_words in *; simpl; rewrite Hsr; [done|].
  all: apply map_Forall_insert_2; [|done]; simpl; by destruct words.
Qed.

(** C10.  The cache starts empty; every operation of the service, [clear]
    included, keeps every cached entry's word list non-empty; and a
    full-visualization call whose embedding lookup yields no word returns
    the empty result and leaves the cache as it was. *)
Theorem cache_entries_have_words :
  cache_nonempty_words DimensionalityReductionService.init ∧
  (∀ op s, cache_nonempty_words s → cache_nonempty_words (exec loader op s)) ∧
  (∀ model_type method num_words perplexity use_cache s embeddings,
     EmbeddingService.get_all_embeddings loader model_type num_words
       = inr (embeddings, []) →
     use_cache = false
       ∨ _cache s !! _get_cache_key model_type method num_words perplexity = None →
     get_reduced_embeddings loader model_type method num_words perplexity use_cache s
       = (inr ([], [], []), logged s [NoEmbeddingsFound model_type]) ∧
     _cache (logged s [NoEmbeddingsFound model_type]) = _cache s).
Proof.
  split; [|split].
  - apply map_Forall_empty.
  - intros [model_type method num_words perplexity use_cache
           |word model_type method num_neighbors perplexity|] s Hinv; simpl.
    + by apply get_reduced_embeddings_invariant.
    + unfold cache_nonempty_words. by rewrite get_word_neighborhood_cache.
    + apply map_Forall_empty.
  - intros model_type method num_words perplexity use_cache s embeddings Hall Hmiss.
    split; [|done]. by rewrite get_reduced_embeddings_miss, Hall.
Qed.

End CacheInvariant.

Lemma cache_entries_have_words_witness :
  cache_nonempty_words
    (exec Example.files (Reduce "tfidf" "pca" 100 30 true)
       DimensionalityReductionService.init) ∧
  size (_cache (exec Example.files (Reduce "tfidf" "pca" 100 30 true)
                  DimensionalityReductionService.init)) = 1%nat ∧
  get_reduced_embeddings Example.files "word2vec" "pca" 100 30 true
    DimensionalityReductionService.init
    = (inr ([], [], []),
       logged DimensionalityReductionService.init [NoEmbeddingsFound "word2vec"]).
Proof.
  destruct (cache_entries_have_words Example.files) as (Hinit & Hstep & Hempty).
  split; [by apply Hstep|]. split; [reflexivity|].
  apply (Hempty "word2vec" "pca" 100 30 true DimensionalityReductionService.init []);
    [reflexivity|right; reflexivity].
Defined.

(** ** Word selection by frequency *)

Section FrequencySort.

Lemma sort_insert_desc_perm (x : string * Z) (l : list (string * Z)) :
  sort_insert_desc x l ≡ₚ x :: l.
Proof.
  induction l as [|y l IH]; simpl; [done|].
  destruct (y.2 <=? x.2); [done|]. rewrite IH. apply Permutation_swap.
Qed.

Lemma sort_by_freq_desc_perm (l : list (string * Z)) : sort_by_freq_desc l ≡ₚ l.
Proof.
  induction l as [|x l IH]; simpl; [done|]. by rewrite sort_insert_desc_perm, IH.
Qed.

Lemma sort_insert_desc_sorted (x : string * Z) (l : list (string * Z)) :
  StronglySorted (λ a b, b.2 ≤ a.2) l →
  StronglySorted (λ a b, b.2 ≤ a.2) (sort_insert_desc x l).
Proof.
  induction 1 as [|y l Hl IH Hy]; simpl; [repeat constructor|].
  destruct (Z.leb_spec y.2 x.2) as [Hle|Hgt].
  - constructor; [by constructor|]. constructor; [done|].
    eapply Forall_impl; [exact Hy|]. simpl. lia.
  - constructor; [done|]. rewrite sort_insert_desc_perm. constructor; [lia|done].
Qed.

Lemma sort_by_freq_desc_sorted (l : list (string * Z)) :
  StronglySorted (λ a b, b.2 ≤ a.2) (sort_by_freq_desc l).
Proof.
  induction l as [|x l IH]; simpl; [constructor|]. by apply sort_insert_desc_sorted.
Qed.

Lemma sorted_pairs_keys (f : string → Z) (l : list (string * Z)) :
  Forall (λ p, p.2 = f p.1) l →
  StronglySorted (λ a b, b.2 ≤ a.2) l →
  StronglySorted (λ a b, f b ≤ f a) l.*1.
Proof.
  intros Hf. induction 1 as [|x l Hl IH Hx]; simpl; [constructor|].
  apply Forall_cons in Hf as [Hfx Hf]. constructor; [by apply IH|].
  apply Forall_fmap. rewrite Forall_forall in Hx, Hf. apply Forall_forall.
  intros y Hy. simpl. rewrite <- Hfx, <- (Hf y Hy). by apply Hx.
Qed.

(** The words [top_words_by_frequency] selects: the first [num_words] of a
    ranking of the keys by descending count. *)
Lemma top_words_by_frequency_spec (frequencies : gmap string Z) (keys : list string)
    (num_words : Z) :
  0 ≤ num_words →
  ∃ ranked,
    ranked ≡ₚ keys ∧
    StronglySorted
      (λ a b, default 0 (frequencies !! b) ≤ default 0 (frequencies !! a)) ranked ∧
    EmbeddingService.top_words_by_frequency frequencies keys num_words
      = take (Z.to_nat num_words) ranked.
Proof.
  intros Hn. unfold EmbeddingService.top_words_by_frequency, slice_to.
  destruct (Z.leb_spec 0 num_words) as [_|?]; [|lia].
  set (pairs := map (λ w, (w, default 0 (frequencies !! w))) keys).
  exists (sort_by_freq_desc pairs).*1. split; [|split].
  - rewrite sort_by_freq_desc_perm. subst pairs.
    by rewrite <- list_fmap_compose, list_fmap_id.
  - apply sorted_pairs_keys; [|apply sort_by_freq_desc_sorted].
    rewrite sort_by_freq_desc_perm. subst pairs. by apply Forall_fmap, Forall_true.
  - by rewrite fmap_take.
Qed.

Lemma exc_mapM_inr {A B : Type} (f : A → Exc + B) (l : list A) (ys : list B) :
  exc_mapM f l = inr ys → Forall2 (λ x y, f x = inr y) l ys.
Proof.
  revert ys. induction l as [|x l IH]; intros ys; simpl; [by intros [= <-]|].
  destruct (f x) as [e|y] eqn:Hx; simpl; [done|].
  destruct (exc_mapM f l) as [e|ys'] eqn:Hl; simpl; [done|].
  intros [= <-]. constructor; [done|by apply IH].
Qed.

End FrequencySort.

Section Selection.
Context `{Numerics}.
Context (loader : ModelLoader.t).

Lemma get_all_embeddings_spec model_type num_words rows words keys :
  0 ≤ num_words →
  model_keys loader model_type = inr keys →
  EmbeddingService.get_all_embeddings loader model_type num_words = inr (rows, words) →
  ∃ ranked,
    ranked ≡ₚ keys ∧
    StronglySorted (λ a b, frequency loader b ≤ frequency loader a) ranked ∧
    words = take (Z.to_nat num_words) ranked ∧
    Forall2 (λ w v, row_of_key loader model_type w = Some v) words rows.
Proof.
  intros Hn. unfold model_keys, EmbeddingService.get_all_embeddings, row_of_key,
    ModelLoader.get_tfidf_vocab, ModelLoader.get_tfidf_embeddings,
    ModelLoader.get_word2vec_cbow, ModelLoader.get_word2vec_skipgram.
  destruct (decide (model_type = "tfidf")) as [->|Hne].
  { destruct (ModelLoader._load_tfidf_models loader) as [e|[embeddings vocab]];
      simpl; [done|]. intros [= <-].
    destruct (top_words_by_frequency_spec (ModelLoader.get_word_frequencies loader)
                vocab.*1 num_words Hn) as (ranked & Hperm & Hsorted & ->).
    destruct (exc_mapM _ (take _ ranked)) as [e|indices] eqn:Hidx; simpl; [done|].
    destruct (exc_mapM _ indices) as [e|selected] eqn:Hsel; simpl; [done|].
    intros [= <- <-]. exists ranked. repeat split; try done.
    apply exc_mapM_inr in Hidx, Hsel.
    revert selected Hsel. induction Hidx as [|w i ws idxs Hw _ IH]; intros selected Hsel.
    - inv Hsel. constructor.
    - inv Hsel. constructor; [|by apply IH].
      destruct (dict_get vocab w) as [i'|]; [|done]. injection Hw as ->. simpl.
      match goal with
      | Hy : match embeddings !! i with _ => _ end = inr _ |- _ =>
          revert Hy; destruct (embeddings !! i); [by intros [= ->]|done]
      end. }
  case_bool_decide as Hw2v.
  - rewrite !elem_of_cons, elem_of_nil in Hw2v. destruct Hw2v as [->|[->|[]]].
    all: repeat (rewrite decide_False by done); repeat (rewrite decide_True by done).
    all: destruct (ModelLoader._load_word2vec_model loader _) as [e|model];
      simpl; [done|]; intros [= <-].
    all: destruct (top_words_by_frequency_spec (ModelLoader.get_word_frequencies loader)
                     (ModelLoader.wv model).*1 num_words Hn)
           as (ranked & Hperm & Hsorted & ->).
    all: destruct (exc_mapM _ (take _ ranked)) as [e|selected] eqn:Hsel; simpl; [done|].
    all: intros [= <- <-]; exists ranked; repeat split; try done.
    all: apply exc_mapM_inr in Hsel.
    all: eapply Forall2_impl; [exact Hsel|]; simpl; intros w v Hw.
    all: by destruct (dict_get (ModelLoader.wv model) w); simplify_eq.
  - rewrite !elem_of_cons, elem_of_nil in Hw2v.
    repeat (rewrite decide_False by naive_solver).
    intros [= <-] [= <- <-]. exists []. repeat split; try done; try constructor.
    by rewrite take_nil.
Qed.

(** C8.  A full-visualization call that computes (the cache is not consulted
    or has no entry for the key), for a word count [>= 0]: the returned words
    are the first [num_words] of a ranking of the model's vocabulary by
    descending frequency, a word without a count having frequency 0; the
    returned frequencies are those of the returned words, in the same order;
    and the coordinates are the projection of the embedding rows of these
    words, gathered in that order. *)
Theorem frequency_ranked_selection (model_type method : string)
    (num_words perplexity : Z) (use_cache : bool) (s s' : DimensionalityReductionService.t)
    (reduced : list (Q * Q)) (words : list string) (freqs : list Z)
    (keys : list string) :
  0 ≤ num_words →
  use_cache = false
    ∨ _cache s !! _get_cache_key model_type method num_words perplexity = None →
  model_keys loader model_type = inr keys →
  get_reduced_embeddings loader model_type method num_words perplexity use_cache s
    = (inr (reduced, words, freqs), s') →
  ∃ ranked,
    ranked ≡ₚ keys ∧
    StronglySorted (λ a b, frequency loader b ≤ frequency loader a) ranked ∧
    words = take (Z.to_nat num_words) ranked ∧
    freqs = map (frequency loader) words ∧
    (words ≠ [] →
     ∃ rows,
       Forall2 (λ w v, row_of_key loader model_type w = Some v) words rows ∧
       (project method perplexity rows s).1 = inr reduced).
Proof.
  intros Hn Hmiss Hkeys Hcall.
  rewrite get_reduced_embeddings_miss in Hcall by done.
  destruct (EmbeddingService.get_all_embeddings loader model_type num_words)
    as [e|[rows words']] eqn:Hall; [done|].
  destruct (get_all_embeddings_spec _ _ _ _ _ Hn Hkeys Hall)
    as (ranked & Hperm & Hsorted & Hwords & Hrows).
  exists ranked. case_decide as Hlen.
  - injection Hcall as <- <- <- <-. destruct words'; [|done].
    repeat split; try done.
  - destruct (project method perplexity rows s) as [[e|reduced'] sr] eqn:Hproj; [done|].
    cbv zeta in Hcall. injection Hcall as <- <- <- <-.
    repeat split; try done. intros _. exists rows. by rewrite Hproj.
Qed.

End Selection.

Lemma frequency_ranked_selection_witness :
  get_reduced_embeddings Example.files "tfidf" "pca" 2 30 true
    DimensionalityReductionService.init
    = (inr ([(3 # 5, 4 # 5); (1, 0)]%Q, ["dog"; "cat"], [9; 5]),
       stored
         (logged DimensionalityReductionService.init
            [ApplyingPCA 2; PCAExplainedVariance])
         (_get_cache_key "tfidf" "pca" 2 30)
         ([(3 # 5, 4 # 5); (1, 0)]%Q, ["dog"; "cat"], [9; 5])) ∧
  ∃ ranked,
    ranked ≡ₚ ["cat"; "dog"; "fish"] ∧
    StronglySorted
      (λ a b, frequency Example.files b ≤ frequency Example.files a) ranked ∧
    ["dog"; "cat"] = take (Z.to_nat 2) ranked ∧
    [9; 5] = map (frequency Example.files) ["dog"; "cat"] ∧
    (["dog"; "cat"] ≠ [] →
     ∃ rows,
       Forall2 (λ w v, row_of_key Example.files "tfidf" w = Some v) ["dog"; "cat"] rows ∧
       (project "pca" 30 rows DimensionalityReductionService.init).1
         = inr [(3 # 5, 4 # 5); (1, 0)]%Q).
Proof.
  split; [reflexivity|].
  apply (frequency_ranked_selection Example.files "tfidf" "pca" 2 30 true
           DimensionalityReductionService.init
           (get_reduced_embeddings Example.files "tfidf" "pca" 2 30 true
              DimensionalityReductionService.init).2
           [(3 # 5, 4 # 5); (1, 0)]%Q ["dog"; "cat"] [9; 5] ["cat"; "dog"; "fish"]);
    [lia|right; reflexivity|reflexivity|reflexivity].
Defined.

(** ** The neighbourhood of a word *)

Section Neighborhood.
Context `{Numerics}.
Context (loader : ModelLoader.t).

(** A word the lookup reports as found has a vector. *)
Lemma found_word_has_vector word model_type topn similar msg :
  EmbeddingService.get_similar_words loader word model_type topn = (similar, true, msg) →
  is_Some (EmbeddingService.get_word_vector loader word model_type).
Proof.
  unfold EmbeddingService.get_similar_words, EmbeddingService.get_word_vector.
  destruct (decide (model_type = "tfidf")) as [->|Hne].
  { unfold EmbeddingService.get_similar_words_tfidf,
    EmbeddingService.get_similar_words_tfidf_by, ModelLoader.get_tfidf_vocab,
      ModelLoader.get_tfidf_embeddings, ModelLoader.get_tfidf_idx_to_word.
    destruct (ModelLoader._load_tfidf_models loader) as [e|[embeddings vocab]];
      simpl; [done|].
    destruct (dict_get vocab (normalize word)) as [i|]; [|done].
    destruct (embeddings !! i) as [v|]; [by eexists|done]. }
  case_bool_decide as Hw2v; [|done].
  rewrite !elem_of_cons, elem_of_nil in Hw2v. destruct Hw2v as [->|[->|[]]].
  all: unfold EmbeddingService.get_similar_words_word2vec,
    ModelLoader.get_word2vec_cbow, ModelLoader.get_word2vec_skipgram.
  all: repeat (rewrite decide_False by done); repeat (rewrite decide_True by done).
  all: destruct (ModelLoader._load_word2vec_model loader _) as [e|model]; simpl; [done|].
  all: unfold ModelLoader.wv_contains; case_bool_decide as Hin; simpl; [|done].
  all: by intros _.
Qed.

(** A word that has a vector passes the vocabulary check. *)
Lemma vector_word_in_vocab w model_type :
  is_Some (EmbeddingService.get_word_vector loader w model_type) →
  ModelLoader.is_word_in_vocab loader w model_type = inr true.
Proof.
  unfold EmbeddingService.get_word_vector, ModelLoader.is_word_in_vocab,
    ModelLoader.get_tfidf_vocab, ModelLoader.get_tfidf_embeddings,
    ModelLoader.wv_contains.
  repeat case_decide.
  - destruct (ModelLoader._load_tfidf_models loader) as [e|[embeddings vocab]];
      simpl; [by intros [??]|].
    destruct (dict_get vocab (normalize w)) as [i|]; [|by intros [??]].
    intros _; f_equal; apply bool_decide_eq_true; by eexists.
  - destruct (ModelLoader.get_word2vec_cbow loader) as [e|model]; simpl;
      [by intros [??]|].
    intros Hv. f_equal. by apply bool_decide_eq_true.
  - destruct (ModelLoader.get_word2vec_skipgram loader) as [e|model]; simpl;
      [by intros [??]|].
    intros Hv. f_equal. by apply bool_decide_eq_true.
  - by intros [??].
Qed.

(** The loop keeps, in order, the pairs whose word has a vector. *)
Lemma collect_valid_spec model_type pairs vectors valid_words valid_similarities :
  ∃ vs ws ss,
    collect_valid loader model_type pairs (vectors, valid_words, valid_similarities)
      = ((vectors ++ vs)%list, (valid_words ++ ws)%list,
         (valid_similarities ++ ss)%list) ∧
    length vs = length ws ∧
    ws `sublist_of` pairs.*1 ∧
    Forall (λ w, is_Some (EmbeddingService.get_word_vector loader w model_type)) ws.
Proof.
  revert vectors valid_words valid_similarities.
  induction pairs as [|[w sim] pairs IH]; intros vectors valid_words valid_similarities.
  { exists [], [], []. by rewrite !app_nil_r. }
  simpl. destruct (EmbeddingService.get_word_vector loader w model_type) as [v|] eqn:Hv.
  - destruct (IH (vectors ++ [v])%list (valid_words ++ [w])%list
                (valid_similarities ++ [sim])%list)
      as (vs & ws & ss & -> & Hlen & Hsub & Hall).
    exists (v :: vs), (w :: ws), (sim :: ss). rewrite <- !(assoc_L (++)).
    repeat split; simpl; [by f_equal|by constructor|].
    constructor; [by rewrite Hv|done].
  - destruct (IH vectors valid_words valid_similarities)
      as (vs & ws & ss & -> & Hlen & Hsub & Hall).
    exists vs, ws, ss. repeat split; try done. by constructor.
Qed.

(** A non-empty neighbourhood starts with the query string as it was passed,
    at similarity 1; the words that follow are returned neighbours that pass
    the vocabulary check. *)
Lemma get_word_neighborhood_words word model_type method num_neighbors perplexity
    s s' reduced words similarities :
  DimensionalityReductionService.get_word_neighborhood loader word model_type method
    num_neighbors perplexity s = (inr (reduced, words, similarities), s') →
  words ≠ [] →
  ∃ ws ss,
    words = word :: ws ∧
    similarities = 1%Q :: ss ∧
    ws `sublist_of`
      (EmbeddingService.get_similar_words loader word model_type num_neighbors).1.1.*1 ∧
    Forall (λ w, ModelLoader.is_word_in_vocab loader w model_type = inr true) ws.
Proof.
  unfold DimensionalityReductionService.get_word_neighborhood.
  destruct (EmbeddingService.get_similar_words _ _ _ _) as [[similar in_vocab] msg]
    eqn:Hlookup.
  destruct in_vocab; cbn [negb]; [|by intros [= <- <- <- <-]].
  destruct (found_word_has_vector _ _ _ _ _ Hlookup) as [v Hv].
  cbn [zip zip_with collect_valid]. rewrite Hv.
  destruct (collect_valid_spec model_type (zip similar.*1 similar.*2)
              ([] ++ [v])%list ([] ++ [word])%list ([] ++ [1%Q])%list)
    as (vs & ws & ss & -> & Hlen & Hsub & Hall).
  simpl. destruct (_ <? 2)%nat; [by intros [= <- <- <- <-]|].
  unfold bind, ret. intros Hcall Hne. exists ws, ss.
  assert (words = word :: ws ∧ similarities = 1%Q :: ss) as [-> ->].
  { destruct (if decide (method = "pca") then _ else _) as [[e|r] sr];
      by simplify_eq. }
  repeat split; try done.
  - by rewrite zip_fst_snd in Hsub.
  - eapply Forall_impl; [exact Hall|]. intros w Hw. by apply vector_word_in_vocab.
Qed.

End Neighborhood.

Section NeighborhoodWords.
Context `{Numerics}.
Context (loader : ModelLoader.t).

Lemma found_neighbours_are_keys word model_type topn similar msg :
  neighbours_are_keys loader →
  EmbeddingService.get_similar_words loader word model_type topn = (similar, true, msg) →
  ∃ keys,
    model_keys loader model_type = inr keys ∧
    Forall (λ r : string * Q, r.1 ∈ keys) similar.
Proof.
  intros Hgensim. unfold EmbeddingService.get_similar_words, model_keys.
  destruct (decide (model_type = "tfidf")) as [->|Hne].
  { unfold ModelLoader.get_tfidf_vocab.
    destruct (ModelLoader._load_tfidf_models loader) as [e|[embeddings vocab]] eqn:Hload.
    { unfold EmbeddingService.get_similar_words_tfidf,
    EmbeddingService.get_similar_words_tfidf_by, ModelLoader.get_tfidf_vocab.
      by rewrite Hload. }
    simpl. intros Hlookup. exists vocab.*1. split; [done|].
    destruct (dict_get vocab (normalize word)) as [i|] eqn:Hidx.
    - destruct (get_similar_words_tfidf_inv loader word topn _ _ _ Hload Hidx)
        as [[msg' Hr]|(v & sims & results & _ & _ & Hr & Hb)]; [congruence|].
      rewrite Hr in Hlookup. injection Hlookup as <- _.
      unfold backed_by in Hb. apply Forall2_Forall_r with (Q := λ r, r.1 ∈ vocab.*1) in Hb;
        [done|].
      apply Forall_true. intros j r [Hw%invert_vocab_lookup _].
      by apply (list_elem_of_fmap_2 fst) in Hw.
    - revert Hlookup.
      unfold EmbeddingService.get_similar_words_tfidf,
    EmbeddingService.get_similar_words_tfidf_by, ModelLoader.get_tfidf_vocab,
        ModelLoader.get_tfidf_embeddings, ModelLoader.get_tfidf_idx_to_word.
      rewrite Hload. simpl. by rewrite Hidx. }
  case_bool_decide as Hw2v; [|done].
  rewrite !elem_of_cons, elem_of_nil in Hw2v. destruct Hw2v as [->|[->|[]]].
  all: unfold EmbeddingService.get_similar_words_word2vec,
    ModelLoader.get_word2vec_cbow, ModelLoader.get_word2vec_skipgram.
  all: repeat (rewrite decide_False by done); repeat (rewrite decide_True by done).
  all: destruct (ModelLoader._load_word2vec_model loader _) as [e|model] eqn:Hload;
    simpl; [done|].
  all: destruct (ModelLoader.wv_contains model (normalize word)); simpl; [|done].
  all: destruct (ModelLoader.most_similar model (normalize word) topn) as [e|l] eqn:Hl;
    simpl; [done|].
  all: intros [= <- _]; eexists; split; [done|].
  all: by eapply Hgensim.
Qed.

(** C9.  Under the data model's invariant on vocabulary keys, and gensim
    returning keys as neighbours: a non-empty neighbourhood result lists
    first the query string exactly as passed, with similarity 1, and then
    vocabulary keys in normalised form.  In the points of a successful
    response the first point is the query string with similarity 1, and its
    [is_query] flag is true exactly when the query string was already
    lowercase and trimmed. *)
Theorem neighborhood_query_first (word model_type method : string)
    (num_neighbors perplexity : Z) (s : DimensionalityReductionService.t) :
  vocabulary_normalized loader →
  neighbours_are_keys loader →
  (∀ reduced words similarities s',
     DimensionalityReductionService.get_word_neighborhood loader word model_type method
       num_neighbors perplexity s = (inr (reduced, words, similarities), s') →
     words ≠ [] →
     ∃ ws ss keys,
       words = word :: ws ∧
       similarities = 1%Q :: ss ∧
       model_keys loader model_type = inr keys ∧
       Forall (λ w, w ∈ keys ∧ normalize w = w) ws) ∧
  (∀ body s',
     EmbeddingsRouter.get_word_neighborhood loader model_type word method
       num_neighbors perplexity s = (inr body, s') →
     ∃ pt pts,
       EmbeddingsRouter.points body = pt :: pts ∧
       EmbeddingsRouter.word pt = word ∧
       EmbeddingsRouter.similarity pt = 1%Q ∧
       (EmbeddingsRouter.is_query pt = true ↔ word = normalize word)).
Proof.
  intros Hnorm Hgensim. split.
  - intros reduced words similarities s' Hcall Hne.
    destruct (get_word_neighborhood_words loader _ _ _ _ _ _ _ _ _ _ Hcall Hne)
      as (ws & ss & -> & -> & Hsub & _).
    destruct (EmbeddingService.get_similar_words loader word model_type num_neighbors)
      as [[similar in_vocab] msg] eqn:Hlookup.
    assert (in_vocab = true) as ->.
    { revert Hcall. unfold DimensionalityReductionService.get_word_neighborhood.
      rewrite Hlookup. destruct in_vocab; [done|]. by intros [= _ ? _ _]. }
    destruct (found_neighbours_are_keys _ _ _ _ _ Hgensim Hlookup) as (keys & Hkeys & Hin).
    exists ws, ss, keys. repeat split; try done.
    specialize (Hnorm _ _ Hkeys). rewrite Forall_forall in Hnorm.
    rewrite Forall_forall in Hin.
    apply Forall_forall. intros w Hw.
    assert (w ∈ keys) as Hk; [|by auto].
    apply (elem_of_sublist _ _ _ Hw) in Hsub. simpl in Hsub.
    apply list_elem_of_fmap in Hsub as (r & -> & Hr). by apply Hin.
  - unfold EmbeddingsRouter.get_word_neighborhood.
    destruct (in_MODEL_TYPES model_type); cbn [negb]; [|done].
    intros body s'. unfold catch, bind.
    destruct (DimensionalityReductionService.get_word_neighborhood loader word model_type
                method num_neighbors perplexity s)
      as [[e|[[reduced words] similarities]] s1] eqn:Hcall; [done|].
    cbn [fst snd]. case_decide as Hlen; [done|].
    assert (words ≠ []) as Hne by (by destruct words).
    destruct (get_word_neighborhood_words loader _ _ _ _ _ _ _ _ _ _ Hcall Hne)
      as (ws & ss & -> & -> & _ & _).
    unfold lift, ret. cbn [zip zip_with EmbeddingsRouter.build_points].
    destruct (reduced !! 0%nat) as [xy|]; [|done].
    destruct (EmbeddingsRouter.build_points reduced word 1 _) as [e|pts]; [done|].
    simpl. intros [= <- _]. simpl. eexists _, pts.
    split; [done|]. split; [done|]. split; [done|]. simpl.
    apply bool_decide_eq_true.
Qed.

End NeighborhoodWords.

Lemma example_vocabulary_normalized : vocabulary_normalized Example.files.
Proof.
  intros model_type keys. unfold model_keys. repeat case_decide; subst.
  all: vm_compute; intros [= <-]; repeat constructor.
Qed.

Lemma example_neighbours_are_keys : neighbours_are_keys Example.files.
Proof.
  intros model_type model w n l. unfold ModelLoader._load_word2vec_model.
  case_decide; simpl; [|done]. intros [= <-]. simpl. intros [= <-].
  apply Forall_take. case_decide; repeat constructor; simpl; set_solver.
Qed.

Lemma neighborhood_query_first_witness :
  (∃ ws ss keys,
     ["Cat"; "dog"; "fish"] = "Cat" :: ws ∧
     [1; 3 # 5; 0]%Q = 1%Q :: ss ∧
     model_keys Example.files "tfidf" = inr keys ∧
     Forall (λ w, w ∈ keys ∧ normalize w = w) ws) ∧
  match
    (EmbeddingsRouter.get_word_neighborhood Example.files "tfidf" "Cat" "pca" 20 30
       DimensionalityReductionService.init).1
  with
  | inr body =>
      ∃ pt pts,
        EmbeddingsRouter.points body = pt :: pts ∧
        EmbeddingsRouter.word pt = "Cat" ∧
        EmbeddingsRouter.similarity pt = 1%Q ∧
        (EmbeddingsRouter.is_query pt = true ↔ "Cat" = normalize "Cat")
  | inl _ => False
  end.
Proof.
  destruct (neighborhood_query_first Example.files "Cat" "tfidf" "pca" 20 30
              DimensionalityReductionService.init
              example_vocabulary_normalized example_neighbours_are_keys)
    as [Hservice Hrouter].
  split.
  - apply (Hservice [(1, 0); (3 # 5, 4 # 5); (0, 1)]%Q ["Cat"; "dog"; "fish"]
             [1; 3 # 5; 0]%Q
             (DimensionalityReductionService.get_word_neighborhood Example.files
                "Cat" "tfidf" "pca" 20 30 DimensionalityReductionService.init).2);
      [reflexivity|discriminate].
  - destruct (EmbeddingsRouter.get_word_neighborhood Example.files "tfidf" "Cat" "pca"
                20 30 DimensionalityReductionService.init) as [[e|body] s'] eqn:Hr.
    + vm_compute in Hr. discriminate Hr.
    + simpl. by apply (Hrouter body s').
Defined.

(** ** The reduction service: what a call appends to the log *)

Lemma logged_nil s : logged s [] = s.
Proof. destruct s. unfold logged. simpl. by rewrite app_nil_r. Qed.

Section Runs.
Context `{Numerics}.
Context (loader : ModelLoader.t).

Lemma reduce_pca_run (embeddings : list vec) :
  ∃ r rs, ∀ s, reduce_pca embeddings s = (r, logged s rs).
Proof.
  destruct (PCA_fit_transform embeddings) as [e|reduced] eqn:Hpca.
  - exists (inl e), [ApplyingPCA (length embeddings)]. intros s.
    by rewrite reduce_pca_eq, Hpca.
  - exists (inr reduced), [ApplyingPCA (length embeddings); PCAExplainedVariance].
    intros s. by rewrite reduce_pca_eq, Hpca.
Qed.

Lemma reduce_tsne_run (embeddings : list vec) (perplexity : Z) :
  ∃ r rs, ∀ s, reduce_tsne embeddings perplexity s = (r, logged s rs).
Proof.
  pose proof (reduce_tsne_eq embeddings perplexity) as Heq. cbv zeta in Heq.
  destruct (TSNE_fit_transform _ embeddings) as [e|reduced].
  - destruct (reduce_pca_run embeddings) as (r & rs & Hrun).
    eexists r, (_ ++ rs)%list. intros s. rewrite Heq, Hrun, logged_logged. done.
  - eexists _, _. intros s. by rewrite Heq.
Qed.

Lemma project_run method perplexity (embeddings : list vec) :
  ∃ r rs, ∀ s, project method perplexity embeddings s = (r, logged s rs).
Proof.
  unfold project. repeat case_decide.
  - apply reduce_pca_run.
  - apply reduce_tsne_run.
  - eexists _, []. intros s. unfold raise. by rewrite logged_nil.
Qed.

Lemma get_word_neighborhood_run word model_type method num_neighbors perplexity :
  ∃ r rs, ∀ s,
    DimensionalityReductionService.get_word_neighborhood loader word model_type method
      num_neighbors perplexity s = (r, logged s rs).
Proof.
  unfold DimensionalityReductionService.get_word_neighborhood.
  destruct (EmbeddingService.get_similar_words _ _ _ _) as [[similar in_vocab] msg].
  destruct in_vocab; cbn [negb];
    [|eexists _, []; intros s; unfold ret; by rewrite logged_nil].
  destruct (collect_valid _ _ _ _) as [[vectors valid_words] valid_similarities].
  destruct (length vectors <? 2)%nat;
    [eexists _, []; intros s; unfold ret; by rewrite logged_nil|].
  unfold bind, ret. case_decide.
  - destruct (reduce_pca_run vectors) as (r & rs & Hrun).
    destruct r as [e|reduced]; eexists _, rs; intros s; by rewrite Hrun.
  - destruct (reduce_tsne_run vectors
                (Z.min perplexity (Z.max 2 (Z.of_nat (length vectors) / 3))))
      as (r & rs & Hrun).
    destruct r as [e|reduced]; eexists _, rs; intros s; by rewrite Hrun.
Qed.

(** What a full-visualization call returns, and the cache it leaves, depend
    on the cache only. *)
Lemma get_reduced_embeddings_cache_only model_type method num_words perplexity use_cache
    s1 s2 :
  _cache s1 = _cache s2 →
  (get_reduced_embeddings loader model_type method num_words perplexity use_cache s1).1
    = (get_reduced_embeddings loader model_type method num_words perplexity use_cache s2).1
  ∧ _cache (get_reduced_embeddings loader model_type method num_words perplexity
              use_cache s1).2
    = _cache (get_reduced_embeddings loader model_type method num_words perplexity
                use_cache s2).2.
Proof.
  intros Hc.
  destruct (decide (use_cache = false
                    ∨ _cache s1 !! _get_cache_key model_type method num_words perplexity
                        = None)) as [Hmiss|Hhit].
  - rewrite !get_reduced_embeddings_miss by (by rewrite <- ?Hc).
    destruct (EmbeddingService.get_all_embeddings loader model_type num_words)
      as [e|[embeddings words]]; [done|].
    case_decide; [done|].
    destruct (project_run method perplexity embeddings) as (r & rs & Hrun).
    rewrite !Hrun. destruct r as [e|reduced]; simpl; [done|]. by rewrite Hc.
  - destruct use_cache; [|by destruct Hhit; left].
    destruct (_cache s1 !! _get_cache_key model_type method num_words perplexity)
      as [r|] eqn:Hr; [|by destruct Hhit; right].
    rewrite (get_reduced_embeddings_hit loader _ _ _ _ s1 r) by done.
    rewrite (get_reduced_embeddings_hit loader _ _ _ _ s2 r) by (by rewrite <- Hc).
    done.
Qed.

End Runs.

(** ** The reduction service: what a call reads and what it leaves behind *)

Section ServiceFrame.
Context `{Numerics}.
Context (loader : ModelLoader.t).

(** X1.  The neighbourhood computation neither reads nor writes the service:
    its outcome is the same in every state, it leaves the cache as it was and
    only appends to the log; a full-visualization call made after it returns
    what it would have returned without it. *)
Theorem neighborhood_bypasses_cache (word model_type method : string)
    (num_neighbors perplexity : Z) (s : DimensionalityReductionService.t) :
  let call :=
    DimensionalityReductionService.get_word_neighborhood loader word model_type method
      num_neighbors perplexity in
  (∀ s0, (call s0).1 = (call s).1) ∧
  _cache (call s).2 = _cache s ∧
  (∃ rs, log (call s).2 = (log s ++ rs)%list) ∧
  (∀ mt m n p use_cache,
     (get_reduced_embeddings loader mt m n p use_cache (call s).2).1
       = (get_reduced_embeddings loader mt m n p use_cache s).1).
Proof.
  intros call.
  destruct (get_word_neighborhood_run loader word model_type method num_neighbors
              perplexity) as (r & rs & Hrun).
  subst call. repeat split.
  - intros s0. by rewrite !Hrun.
  - by rewrite Hrun.
  - exists rs. by rewrite Hrun.
  - intros mt m n p use_cache.
    apply get_reduced_embeddings_cache_only. by rewrite Hrun.
Qed.

(** X2.  [clear_cache] empties the cache and logs it; the handler of
    [DELETE /embeddings/cache] does just this and always succeeds.  After it
    every full-visualization call recomputes: with caching enabled it does
    what it does with caching disabled. *)
Theorem clear_cache_forgets (s : DimensionalityReductionService.t) :
  let s0 := (clear_cache s).2 in
  (clear_cache s).1 = inr tt ∧
  _cache s0 = ∅ ∧
  log s0 = (log s ++ [CacheCleared])%list ∧
  EmbeddingsRouter.clear_embeddings_cache s = (inr "Cache cleared successfully", s0) ∧
  (∀ model_type method num_words perplexity,
     get_reduced_embeddings loader model_type method num_words perplexity true s0
       = get_reduced_embeddings loader model_type method num_words perplexity false s0).
Proof.
  intros s0. split; [done|]. split; [done|]. split; [done|]. split; [done|].
  intros model_type method num_words perplexity.
  rewrite !get_reduced_embeddings_miss; [done|by left|right; apply lookup_empty].
Qed.

(** X3.  A full-visualization call touches at most the cache entry of its
    own key, and with caching enabled an entry that exists is never replaced:
    it stays until the cache is cleared. *)
Theorem cache_entries_stable (model_type method : string) (num_words perplexity : Z)
    (use_cache : bool) (s : DimensionalityReductionService.t) :
  let key := _get_cache_key model_type method num_words perplexity in
  let s' :=
    (get_reduced_embeddings loader model_type method num_words perplexity use_cache s).2 in
  (∀ k, k ≠ key → _cache s' !! k = _cache s !! k) ∧
  (use_cache = true → ∀ r, _cache s !! key = Some r → _cache s' = _cache s) ∧
  (∀ k, is_Some (_cache s !! k) → is_Some (_cache s' !! k)).
Proof.
  intros key s'.
  assert (_cache s' = _cache s
          ∨ ∃ r, _cache s' = <[key := r]> (_cache s)
                 ∧ (use_cache = false ∨ _cache s !! key = None)) as Hs'.
  { subst s'.
    destruct (decide (use_cache = false ∨ _cache s !! key = None)) as [Hmiss|Hhit].
    - rewrite get_reduced_embeddings_miss by done.
      destruct (EmbeddingService.get_all_embeddings loader model_type num_words)
        as [e|[embeddings words]]; [by left|].
      case_decide; [by left|].
      destruct (project_run method perplexity embeddings) as (r & rs & Hrun).
      rewrite Hrun. destruct r as [e|reduced]; [by left|]. right. by eexists.
    - destruct use_cache; [|by destruct Hhit; left].
      destruct (_cache s !! key) as [r|] eqn:Hr; [|by destruct Hhit; right].
      subst key. rewrite (get_reduced_embeddings_hit loader _ _ _ _ s r) by done.
      by left. }
  repeat split.
  - intros k Hk. destruct Hs' as [->|(r & -> & _)]; [done|].
    by rewrite lookup_insert_ne.
  - intros -> r Hr. destruct Hs' as [->|(r' & _ & [?|Hnone])]; [done|done|].
    by rewrite Hr in Hnone.
  - intros k Hk. destruct Hs' as [->|(r & -> & _)]; [done|].
    destruct (decide (k = key)) as [->|Hne].
    + rewrite lookup_insert_eq. by eexists.
    + by rewrite lookup_insert_ne.
Qed.

(** X4.  A full-visualization call that raises, or that returns an empty
    word list, leaves the cache as it was; a call that computes for a
    non-empty selection with a method other than ["pca"] and ["tsne"] raises
    [ValueError]. *)
Theorem failed_reduction_stores_nothing (model_type method : string)
    (num_words perplexity : Z) (use_cache : bool) (s s' : DimensionalityReductionService.t) :
  (∀ e,
     get_reduced_embeddings loader model_type method num_words perplexity use_cache s
       = (inl e, s') → _cache s' = _cache s) ∧
  (∀ r,
     get_reduced_embeddings loader model_type method num_words perplexity use_cache s
       = (inr r, s') → r.1.2 = [] → _cache s' = _cache s) ∧
  (∀ embeddings words,
     method ∉ ["pca"; "tsne"] →
     use_cache = false
       ∨ _cache s !! _get_cache_key model_type method num_words perplexity = None →
     EmbeddingService.get_all_embeddings loader model_type num_words
       = inr (embeddings, words) →
     words ≠ [] →
     get_reduced_embeddings loader model_type method num_words perplexity use_cache s
       = (inl (ValueError ("Unknown reduction method: " +:+ method)), s)).
Proof.
  repeat split.
  - intros e.
    destruct (decide (use_cache = false
                ∨ _cache s !! _get_cache_key model_type method num_words perplexity
                    = None)) as [Hmiss|Hhit].
    + rewrite get_reduced_embeddings_miss by done.
      destruct (EmbeddingService.get_all_embeddings loader model_type num_words)
        as [e'|[embeddings words]]; [by intros [= _ <-]|].
      case_decide; [done|].
      destruct (project_run method perplexity embeddings) as (r & rs & Hrun).
      rewrite Hrun. destruct r as [e'|reduced]; [by intros [= _ <-]|done].
    + destruct use_cache; [|by destruct Hhit; left].
      destruct (_cache s !! _ ) as [r|] eqn:Hr; [|by destruct Hhit; right].
      by rewrite (get_reduced_embeddings_hit loader _ _ _ _ s r).
  - intros r.
    destruct (decide (use_cache = false
                ∨ _cache s !! _get_cache_key model_type method num_words perplexity
                    = None)) as [Hmiss|Hhit].
    + rewrite get_reduced_embeddings_miss by done.
      destruct (EmbeddingService.get_all_embeddings loader model_type num_words)
        as [e'|[embeddings words]]; [done|].
      case_decide as Hlen; [by intros [= _ <-]|].
      destruct (project_run method perplexity embeddings) as (r' & rs & Hrun).
      rewrite Hrun. destruct r' as [e'|reduced]; [done|].
      cbv zeta. intros [= <- _]. simpl. intros ->. done.
    + destruct use_cache; [|by destruct Hhit; left].
      destruct (_cache s !! _ ) as [r'|] eqn:Hr; [|by destruct Hhit; right].
      rewrite (get_reduced_embeddings_hit loader _ _ _ _ s r') by done.
      by intros [= _ <-].
  - intros embeddings words Hm Hmiss Hall Hne.
    rewrite get_reduced_embeddings_miss by done. rewrite Hall.
    rewrite decide_False by (by destruct words).
    apply not_elem_of_cons in Hm as [Hpca Hm].
    apply not_elem_of_cons in Hm as [Htsne _].
    unfold project. by rewrite !decide_False.
Qed.

End ServiceFrame.

(** ** The neighbourhood computation *)

Section NeighborhoodShape.
Context `{Numerics}.
Context (loader : ModelLoader.t).

(** The three lists of the loop grow together. *)
Lemma collect_valid_lengths model_type pairs vectors valid_words valid_similarities :
  ∃ vs ws ss,
    collect_valid loader model_type pairs (vectors, valid_words, valid_similarities)
      = ((vectors ++ vs)%list, (valid_words ++ ws)%list,
         (valid_similarities ++ ss)%list) ∧
    length vs = length ws ∧ length ss = length ws.
Proof.
  revert vectors valid_words valid_similarities.
  induction pairs as [|[w sim] pairs IH]; intros vectors valid_words valid_similarities.
  { exists [], [], []. by rewrite !app_nil_r. }
  simpl. destruct (EmbeddingService.get_word_vector loader w model_type) as [v|].
  - destruct (IH (vectors ++ [v])%list (valid_words ++ [w])%list
                (valid_similarities ++ [sim])%list)
      as (vs & ws & ss & -> & Hvs & Hss).
    exists (v :: vs), (w :: ws), (sim :: ss). rewrite <- !(assoc_L (++)).
    repeat split; simpl; by f_equal.
  - apply IH.
Qed.

(** The two ways a neighbourhood computation goes: the empty result, with
    nothing run; or a projection of the vectors of the query word and of at
    least one neighbour. *)
Lemma get_word_neighborhood_cases word model_type method num_neighbors perplexity :
  (∀ s,
     DimensionalityReductionService.get_word_neighborhood loader word model_type method
       num_neighbors perplexity s = (inr ([], [], []), s)) ∨
  (∃ (vectors : list vec) ws ss,
     length vectors = S (length ws) ∧ length ss = length ws ∧ ws ≠ [] ∧
     ∀ s,
       DimensionalityReductionService.get_word_neighborhood loader word model_type
         method num_neighbors perplexity s
       = match
           (if decide (method = "pca") then reduce_pca vectors
            else reduce_tsne vectors
                   (Z.min perplexity (Z.max 2 (Z.of_nat (length vectors) / 3)))) s
         with
         | (inr reduced, s') => (inr (reduced, word :: ws, 1%Q :: ss), s')
         | (inl e, s') => (inl e, s')
         end).
Proof.
  unfold DimensionalityReductionService.get_word_neighborhood.
  destruct (EmbeddingService.get_similar_words _ _ _ _) as [[similar in_vocab] msg]
    eqn:Hlookup.
  destruct in_vocab; cbn [negb]; [|by left].
  destruct (found_word_has_vector _ _ _ _ _ _ Hlookup) as [v Hv].
  cbn [zip zip_with collect_valid]. rewrite Hv.
  destruct (collect_valid_lengths model_type (zip similar.*1 similar.*2)
              ([] ++ [v])%list ([] ++ [word])%list ([] ++ [1%Q])%list)
    as (vs & ws & ss & -> & Hvs & Hss).
  simpl. destruct (Nat.ltb_spec (S (length vs)) 2) as [Hlt|Hge]; [by left|].
  right. exists (v :: vs), ws, ss. split; [simpl; by f_equal|].
  split; [done|]. split.
  - destruct ws; simpl in *; [lia|done].
  - intros s. unfold bind, ret. by destruct (if decide (method = "pca") then _ else _).
Qed.

(** X5.  What the neighbourhood computation returns has one similarity per
    word and is either empty or of at least two words.  The empty result is
    returned without running a projection: no coordinates, and the service
    is as it was.  A non-empty result starts with the query string as it was
    passed, at similarity 1. *)
Theorem neighborhood_result_shape (word model_type method : string)
    (num_neighbors perplexity : Z) (s s' : DimensionalityReductionService.t)
    (reduced : list (Q * Q)) (words : list string) (similarities : list Q) :
  DimensionalityReductionService.get_word_neighborhood loader word model_type method
    num_neighbors perplexity s = (inr (reduced, words, similarities), s') →
  length similarities = length words ∧
  ((words = [] ∧ reduced = [] ∧ s' = s) ∨
   ((2 ≤ length words)%nat ∧ head words = Some word ∧ head similarities = Some 1%Q)).
Proof.
  destruct (get_word_neighborhood_cases word model_type method num_neighbors perplexity)
    as [Hempty|(vectors & ws & ss & Hlen & Hss & Hne & Hrun)].
  - rewrite Hempty. intros [= <- <- <- <-]. split; [done|by left].
  - rewrite Hrun. destruct (if decide (method = "pca") then _ else _) as [[e|r] sr];
      [done|]. intros [= <- <- <- <-]. simpl. split; [by f_equal|]. right.
    repeat split. destruct ws; simpl; [done|lia].
Qed.

(** X6.  The neighbourhood computation runs t-SNE for every method other
    than ["pca"], and clamps the perplexity twice: to [max(2, n // 3)] itself
    and to [max(5, (n - 1) // 3)] in [reduce_tsne], [n] being the number of
    points.  Up to 17 points the first bound decides, from 18 points on the
    value is [min(perplexity, (n - 1) // 3)]. *)
Theorem neighborhood_tsne_perplexity (word model_type method : string)
    (num_neighbors perplexity : Z) (s s' : DimensionalityReductionService.t)
    (reduced : list (Q * Q)) (words : list string) (similarities : list Q) :
  method ≠ "pca" →
  DimensionalityReductionService.get_word_neighborhood loader word model_type method
    num_neighbors perplexity s = (inr (reduced, words, similarities), s') →
  words ≠ [] →
  let n := Z.of_nat (length words) in
  let effective :=
    Z.min (Z.min perplexity (Z.max 2 (n / 3))) (Z.max 5 ((n - 1) / 3)) in
  (∃ rest, log s' = (log s ++ ApplyingTSNE (length words) effective :: rest)%list) ∧
  (n ≤ 17 → effective = Z.min perplexity (Z.max 2 (n / 3))) ∧
  (18 ≤ n → effective = Z.min perplexity ((n - 1) / 3)).
Proof.
  intros Hmethod Hcall Hwords n effective. split; [|subst effective; split; intros Hn].
  - destruct (get_word_neighborhood_cases word model_type method num_neighbors
                perplexity) as [Hempty|(vectors & ws & ss & Hlen & Hss & Hne & Hrun)].
    { rewrite Hempty in Hcall. by injection Hcall as <- <- <- <-. }
    rewrite Hrun, decide_False in Hcall by done.
    destruct (reduce_tsne_logged vectors
                (Z.min perplexity (Z.max 2 (Z.of_nat (length vectors) / 3))) s)
      as [rest Hlog].
    destruct (reduce_tsne vectors _ s) as [[e|r] sr]; [done|].
    injection Hcall as <- <- <- <-. simpl in Hlog. subst sr.
    exists rest. subst effective n. simpl length. by rewrite <- Hlen.
  - assert (n / 3 < 6) by (apply Z.div_lt_upper_bound; lia). lia.
  - assert (n / 3 * 3 ≤ n) by (pose proof (Z.mul_div_le n 3); lia).
    assert (5 ≤ (n - 1) / 3) by (apply Z.div_le_lower_bound; lia).
    assert ((n - 1) / 3 ≤ n / 3) by (apply Z.div_le_mono; lia).
    lia.
Qed.

End NeighborhoodShape.

Section Fallback.
Context `{Numerics}.

(** X7.  When the t-SNE routine raises, [reduce_tsne] logs the failure and
    returns what PCA returns on the same rows; it raises only when PCA
    raises too.  The cache is not touched. *)
Theorem tsne_failure_falls_back_to_pca (embeddings : list vec) (perplexity : Z)
    (s : DimensionalityReductionService.t) (e : Exc) :
  let effective :=
    Z.min perplexity (Z.max 5 ((Z.of_nat (length embeddings) - 1) / 3)) in
  TSNE_fit_transform effective embeddings = inl e →
  (reduce_tsne embeddings perplexity s).1 = PCA_fit_transform embeddings ∧
  _cache (reduce_tsne embeddings perplexity s).2 = _cache s ∧
  ∃ rest,
    log (reduce_tsne embeddings perplexity s).2
      = (log s ++ [ApplyingTSNE (length embeddings) effective; TSNEFailed e;
                   FallingBackToPCA; ApplyingPCA (length embeddings)] ++ rest)%list.
Proof.
  intros effective Htsne. pose proof (reduce_tsne_eq embeddings perplexity s) as Heq.
  cbv zeta in Heq. fold effective in Heq. rewrite Htsne, reduce_pca_eq in Heq.
  rewrite Heq. destruct (PCA_fit_transform embeddings); simpl.
  - repeat split. exists []. by rewrite <- (assoc_L (++)).
  - repeat split. exists [PCAExplainedVariance]. by rewrite <- (assoc_L (++)).
Qed.

End Fallback.

Lemma neighborhood_result_shape_witness :
  length [1; 3 # 5; 0]%Q = length ["Cat"; "dog"; "fish"] ∧
  ((["Cat"; "dog"; "fish"] = [] ∧ [(1, 0); (3 # 5, 4 # 5); (0, 1)]%Q = [] ∧
    (DimensionalityReductionService.get_word_neighborhood Example.files "Cat" "tfidf"
       "pca" 20 30 DimensionalityReductionService.init).2
      = DimensionalityReductionService.init) ∨
   ((2 ≤ length ["Cat"; "dog"; "fish"])%nat ∧
    head ["Cat"; "dog"; "fish"] = Some "Cat" ∧ head [1; 3 # 5; 0]%Q = Some 1%Q)).
Proof.
  apply (neighborhood_result_shape Example.files "Cat" "tfidf" "pca" 20 30
           DimensionalityReductionService.init
           (DimensionalityReductionService.get_word_neighborhood Example.files "Cat"
              "tfidf" "pca" 20 30 DimensionalityReductionService.init).2
           [(1, 0); (3 # 5, 4 # 5); (0, 1)]%Q ["Cat"; "dog"; "fish"] [1; 3 # 5; 0]%Q).
  reflexivity.
Defined.

Lemma neighborhood_tsne_perplexity_witness :
  Z.min (Z.min 30 (Z.max 2 (3 / 3))) (Z.max 5 ((3 - 1) / 3)) = 2 ∧
  let n := Z.of_nat (length ["cat"; "dog"; "fish"]) in
  let effective :=
    Z.min (Z.min 30 (Z.max 2 (n / 3))) (Z.max 5 ((n - 1) / 3)) in
  (∃ rest,
     log (DimensionalityReductionService.get_word_neighborhood Example.files "cat"
            "tfidf" "tsne" 20 30 DimensionalityReductionService.init).2
       = (log DimensionalityReductionService.init
            ++ ApplyingTSNE (length ["cat"; "dog"; "fish"]) effective :: rest)%list) ∧
  (n ≤ 17 → effective = Z.min 30 (Z.max 2 (n / 3))) ∧
  (18 ≤ n → effective = Z.min 30 ((n - 1) / 3)).
Proof.
  split; [reflexivity|].
  apply (neighborhood_tsne_perplexity Example.files "cat" "tfidf" "tsne" 20 30
           DimensionalityReductionService.init
           (DimensionalityReductionService.get_word_neighborhood Example.files "cat"
              "tfidf" "tsne" 20 30 DimensionalityReductionService.init).2
           [(1, 0); (3 # 5, 4 # 5); (0, 1)]%Q ["cat"; "dog"; "fish"] [1; 3 # 5; 0]%Q);
    [discriminate|reflexivity|discriminate].
Defined.

Lemma tsne_failure_falls_back_to_pca_witness :
  (@reduce_tsne Example.unit_rows [[1; 0]; [0; 1]]%Q 30
     DimensionalityReductionService.init).1
    = inr [(1, 0); (0, 1)]%Q ∧
  (@reduce_tsne Example.unit_rows [[1; 0]; [0; 1]]%Q 30
     DimensionalityReductionService.init).1
    = @PCA_fit_transform Example.unit_rows [[1; 0]; [0; 1]]%Q.
Proof.
  split; [reflexivity|].
  apply (@tsne_failure_falls_back_to_pca Example.unit_rows [[1; 0]; [0; 1]]%Q 30
           DimensionalityReductionService.init
           (LibraryError "unexpected keyword argument 'n_iter'")).
  reflexivity.
Defined.

Lemma cache_entries_stable_witness :
  let s1 :=
    (get_reduced_embeddings Example.files "tfidf" "pca" 2 30 true
       DimensionalityReductionService.init).2 in
  _cache s1 !! _get_cache_key "tfidf" "pca" 2 30
    = Some ([(3 # 5, 4 # 5); (1, 0)]%Q, ["dog"; "cat"], [9; 5]) ∧
  _cache (get_reduced_embeddings Example.files "tfidf" "pca" 2 30 true s1).2 = _cache s1.
Proof.
  intros s1.
  assert (_cache s1 !! _get_cache_key "tfidf" "pca" 2 30
            = Some ([(3 # 5, 4 # 5); (1, 0)]%Q, ["dog"; "cat"], [9; 5])) as Hentry
    by (vm_compute; reflexivity).
  split; [exact Hentry|].
  exact (proj1 (proj2 (cache_entries_stable Example.files "tfidf" "pca" 2 30 true s1))
           eq_refl _ Hentry).
Defined.

Lemma failed_reduction_stores_nothing_witness :
  get_reduced_embeddings Example.files "tfidf" "svd" 2 30 true
    DimensionalityReductionService.init
    = (inl (ValueError "Unknown reduction method: svd"),
       DimensionalityReductionService.init) ∧
  _cache DimensionalityReductionService.init = _cache DimensionalityReductionService.init.
Proof.
  destruct (failed_reduction_stores_nothing Example.files "tfidf" "svd" 2 30 true
              DimensionalityReductionService.init DimensionalityReductionService.init)
    as (Hraise & _ & Hmethod).
  assert (get_reduced_embeddings Example.files "tfidf" "svd" 2 30 true
            DimensionalityReductionService.init
          = (inl (ValueError "Unknown reduction method: svd"),
             DimensionalityReductionService.init)) as Hcall.
  { apply (Hmethod [[3 # 5; 4 # 5]; [1; 0]]%Q ["dog"; "cat"]);
      [|right; reflexivity|reflexivity|discriminate].
    intros Hin. apply elem_of_cons in Hin as [Hin|Hin]; [discriminate|].
    apply elem_of_cons in Hin as [Hin|Hin]; [discriminate|]. by apply elem_of_nil in Hin. }
  split; [exact Hcall|exact (Hraise _ Hcall)].
Defined.

(** ** The shape of a lookup, and the endpoints that return it *)

Section LookupShape.
Context `{Numerics}.
Context (loader : ModelLoader.t).

Lemma get_similar_words_tfidf_shape word topn :
  let r := EmbeddingService.get_similar_words_tfidf loader word topn in
  (r.1.2 = false → r.1.1 = [] ∧ is_Some r.2) ∧ (r.1.2 = true → r.2 = None).
Proof.
  unfold EmbeddingService.get_similar_words_tfidf,
    EmbeddingService.get_similar_words_tfidf_by, ModelLoader.get_tfidf_vocab,
    ModelLoader.get_tfidf_embeddings, ModelLoader.get_tfidf_idx_to_word.
  destruct (ModelLoader._load_tfidf_models loader) as [e|[embeddings vocab]]; simpl;
    [by eauto|].
  destruct (dict_get vocab (normalize word)) as [word_idx|]; [|by eauto].
  destruct (embeddings !! word_idx) as [v|]; [|by eauto].
  destruct (cosine_similarity v embeddings) as [e|sims]; simpl; [by eauto|].
  destruct (EmbeddingService.collect_results _ _ _ _ _ _) as [e|results]; simpl;
    by eauto.
Qed.

Lemma get_similar_words_word2vec_shape word model_type topn :
  let r := EmbeddingService.get_similar_words_word2vec loader word model_type topn in
  (r.1.2 = false → r.1.1 = [] ∧ is_Some r.2) ∧ (r.1.2 = true → r.2 = None).
Proof.
  unfold EmbeddingService.get_similar_words_word2vec, ModelLoader.get_word2vec_cbow,
    ModelLoader.get_word2vec_skipgram.
  repeat case_decide; [| |by eauto].
  all: destruct (ModelLoader._load_word2vec_model loader _) as [e|model]; simpl;
    [by eauto|].
  all: destruct (ModelLoader.wv_contains model (normalize word)); simpl; [|by eauto].
  all: destruct (ModelLoader.most_similar model (normalize word) topn); simpl; by eauto.
Qed.

Lemma get_similar_words_shape word model_type topn :
  let r := EmbeddingService.get_similar_words loader word model_type topn in
  (r.1.2 = false → r.1.1 = [] ∧ is_Some r.2) ∧ (r.1.2 = true → r.2 = None).
Proof.
  unfold EmbeddingService.get_similar_words. case_decide.
  - apply get_similar_words_tfidf_shape.
  - case_bool_decide; [apply get_similar_words_word2vec_shape|]. simpl. by eauto.
Qed.

(** X8.  A lookup never raises and its three components agree, whichever
    function answers it: when the word is reported as not found the list of
    neighbours is empty and a message is given; when it is reported as found
    there is no message. *)
Theorem lookup_components_agree (word model_type : string) (topn : Z) :
  let agree (r : EmbeddingService.Lookup) :=
    (r.1.2 = false → r.1.1 = [] ∧ is_Some r.2) ∧ (r.1.2 = true → r.2 = None) in
  agree (EmbeddingService.get_similar_words loader word model_type topn) ∧
  agree (EmbeddingService.get_similar_words_tfidf loader word topn) ∧
  agree (EmbeddingService.get_similar_words_word2vec loader word model_type topn).
Proof.
  split; [apply get_similar_words_shape|].
  split; [apply get_similar_words_tfidf_shape|apply get_similar_words_word2vec_shape].
Qed.

(** A word the lookup reports as found passes the vocabulary check. *)
Lemma found_word_in_vocab word model_type topn :
  (EmbeddingService.get_similar_words loader word model_type topn).1.2 = true →
  ModelLoader.is_word_in_vocab loader word model_type = inr true.
Proof.
  destruct (EmbeddingService.get_similar_words loader word model_type topn)
    as [[similar in_vocab] msg] eqn:Hlookup. simpl. intros ->.
  by eapply vector_word_in_vocab, found_word_has_vector.
Qed.

(** X9.  The single-word endpoint answers 400 for an unrecognised model type
    and 200 otherwise, whatever the word and whether or not the model could
    be loaded: a failure is reported in the body.  The body echoes the
    normalised query, lists the words of the lookup in order, and is what the
    batch endpoint returns for the same word. *)
Theorem similarity_endpoint_total (word model_type : string) (topn : Z) :
  let lookup := EmbeddingService.get_similar_words loader word model_type topn in
  (in_MODEL_TYPES model_type = false →
   SimilarityRouter.get_similar_words loader word model_type topn
     = inl invalid_model_type) ∧
  (in_MODEL_TYPES model_type = true →
   ∃ resp,
     SimilarityRouter.get_similar_words loader word model_type topn = inr resp ∧
     SimilarityResponse.query_word resp = normalize word ∧
     SimilarityResponse.model_type resp = model_type ∧
     (SimilarityResponse.similar_words resp).*1 = lookup.1.1.*1 ∧
     SimilarityResponse.in_vocabulary resp = lookup.1.2 ∧
     SimilarityResponse.message resp = lookup.2 ∧
     (SimilarityResponse.in_vocabulary resp = false →
      SimilarityResponse.similar_words resp = [] ∧
      is_Some (SimilarityResponse.message resp)) ∧
     SimilarityRouter.batch_item loader model_type topn word
       = {| SimilarityRouter.query_word := SimilarityResponse.query_word resp;
            SimilarityRouter.similar_words := SimilarityResponse.similar_words resp;
            SimilarityRouter.in_vocabulary := SimilarityResponse.in_vocabulary resp;
            SimilarityRouter.message := SimilarityResponse.message resp |}).
Proof.
  intros lookup. unfold SimilarityRouter.get_similar_words, SimilarityRouter.batch_item.
  split; intros ->; cbn [negb]; [done|].
  pose proof (get_similar_words_shape word model_type topn) as [Hfalse _].
  fold lookup in Hfalse |- *. destruct lookup as [[similar in_vocab] msg].
  eexists. split; [done|]. simpl in *.
  split; [done|]. split; [done|]. split.
  { rewrite <- list_fmap_compose. by apply list_fmap_ext. }
  split; [done|]. split; [done|]. split; [|done].
  intros ->. by destruct (Hfalse eq_refl) as [-> ?].
Qed.

(** X10.  The comparison has one entry for each of the three model types, in
    the order of [MODEL_TYPES], each the lookup in that model alone with its
    scores as computed (no rounding); the endpoint always answers 200.  A
    model in which the word fails the vocabulary check, or that could not be
    loaded, still has its entry: not found, no neighbours, a message. *)
Theorem comparison_covers_three_models (word : string) (topn : Z) :
  let results := EmbeddingService.compare_similarity loader word topn in
  results.*1 = MODEL_TYPES.*1 ∧
  SimilarityRouter.compare_similarity_across_models loader word topn
    = inr {| ComparisonResult.query_word := normalize word;
             ComparisonResult.results := results |} ∧
  (∀ model_type r,
     (model_type, r) ∈ results →
     (EmbeddingService.similar_words r, EmbeddingService.in_vocabulary r,
      EmbeddingService.message r)
       = EmbeddingService.get_similar_words loader word model_type topn ∧
     (ModelLoader.is_word_in_vocab loader word model_type ≠ inr true →
      EmbeddingService.similar_words r = [] ∧
      EmbeddingService.in_vocabulary r = false ∧
      is_Some (EmbeddingService.message r))).
Proof.
  intros results. split.
  { subst results. unfold EmbeddingService.compare_similarity. simpl.
    by repeat destruct (EmbeddingService.get_similar_words _ _ _ _) as [[??] ?]. }
  split; [done|]. intros model_type r Hin.
  assert ((EmbeddingService.similar_words r, EmbeddingService.in_vocabulary r,
           EmbeddingService.message r)
          = EmbeddingService.get_similar_words loader word model_type topn) as Hr.
  { subst results. unfold EmbeddingService.compare_similarity in Hin.
    apply list_elem_of_fmap in Hin as (mt & Hpair & _).
    destruct (EmbeddingService.get_similar_words loader word mt topn)
      as [[similar in_vocab] msg] eqn:Hlookup.
    injection Hpair as -> ->. by rewrite Hlookup. }
  split; [done|]. intros Hcheck.
  pose proof (get_similar_words_shape word model_type topn) as [Hfalse _].
  pose proof (found_word_in_vocab word model_type topn) as Hfound.
  rewrite <- Hr in Hfalse, Hfound. simpl in *.
  destruct (EmbeddingService.in_vocabulary r); [by destruct Hcheck; apply Hfound|].
  by destruct (Hfalse eq_refl).
Qed.

(** X11.  A word the similarity endpoint reports as in the vocabulary passes
    the vocabulary check of the model store, has a vector, and is reported as
    in the vocabulary by the check-word endpoint. *)
Theorem found_word_passes_check (word model_type : string) (topn : Z)
    (resp : SimilarityResponse.t) :
  SimilarityRouter.get_similar_words loader word model_type topn = inr resp →
  SimilarityResponse.in_vocabulary resp = true →
  ModelLoader.is_word_in_vocab loader word model_type = inr true ∧
  is_Some (EmbeddingService.get_word_vector loader word model_type) ∧
  ModelsRouter.check_word_in_vocabulary loader model_type word
    = inr {| ModelsRouter.word := word;
             ModelsRouter.model_type := model_type;
             ModelsRouter.in_vocabulary := true |}.
Proof.
  unfold SimilarityRouter.get_similar_words, ModelsRouter.check_word_in_vocabulary.
  destruct (in_MODEL_TYPES model_type); cbn [negb]; [|done].
  destruct (EmbeddingService.get_similar_words loader word model_type topn)
    as [[similar in_vocab] msg] eqn:Hlookup.
  intros [= <-]. simpl. intros ->.
  pose proof (found_word_has_vector _ _ _ _ _ _ Hlookup) as Hv.
  pose proof (vector_word_in_vocab _ _ _ Hv) as Hcheck.
  by rewrite Hcheck.
Qed.

End LookupShape.

Lemma found_word_passes_check_witness :
  ModelLoader.is_word_in_vocab Example.files " Dog" "word2vec_cbow" = inr true ∧
  is_Some (EmbeddingService.get_word_vector Example.files " Dog" "word2vec_cbow") ∧
  ModelsRouter.check_word_in_vocabulary Example.files "word2vec_cbow" " Dog"
    = inr {| ModelsRouter.word := " Dog";
             ModelsRouter.model_type := "word2vec_cbow";
             ModelsRouter.in_vocabulary := true |}.
Proof.
  apply (found_word_passes_check Example.files " Dog" "word2vec_cbow" 5
           {| SimilarityResponse.query_word := "dog";
              SimilarityResponse.model_type := "word2vec_cbow";
              SimilarityResponse.similar_words := [("cat", 0%Q)];
              SimilarityResponse.in_vocabulary := true;
              SimilarityResponse.message := None |});
    reflexivity.
Defined.

(** ** The vocabulary sample *)

Section StableSort.

(** Entries with equal counts are left in their order. *)
Lemma sort_by_freq_desc_const (c : Z) (l : list (string * Z)) :
  Forall (λ p, p.2 = c) l → sort_by_freq_desc l = l.
Proof.
  unfold sort_by_freq_desc. induction 1 as [|x l Hx Hl IH]; simpl; [done|].
  rewrite IH. destruct Hl as [|y l Hy Hl]; simpl; [done|].
  rewrite Hx, Hy. by rewrite Z.leb_refl.
Qed.

Lemma slice_to_fmap {A B : Type} (f : A → B) (n : Z) (l : list A) :
  f <$> slice_to n l = slice_to n (f <$> l).
Proof. unfold slice_to. by rewrite length_fmap; destruct (0 <=? n); rewrite fmap_take. Qed.

(** Without counts the selection by frequency is a prefix of the keys. *)
Lemma top_words_no_frequencies (keys : list string) (num_words : Z) :
  EmbeddingService.top_words_by_frequency ∅ keys num_words = slice_to num_words keys.
Proof.
  unfold EmbeddingService.top_words_by_frequency.
  rewrite (sort_by_freq_desc_const 0).
  - rewrite slice_to_fmap. f_equal. rewrite <- list_fmap_compose. apply list_fmap_id.
  - apply Forall_fmap, Forall_true. intros w. simpl. by rewrite lookup_empty.
Qed.

End StableSort.

Section VocabularySample.
Context `{Numerics}.
Context (loader : ModelLoader.t).

(** What [get_vocabulary_sample] returns, in terms of the selection made for
    the full visualization. *)
Lemma get_vocabulary_sample_eq model_type n :
  ModelLoader.get_vocabulary_sample loader model_type n =
    try! keys <- model_keys loader model_type;
    inr (EmbeddingService.top_words_by_frequency
           (ModelLoader.get_word_frequencies loader) keys n).
Proof.
  assert (∀ keys,
    (if bool_decide (ModelLoader.get_word_frequencies loader ≠ ∅)
     then inr (slice_to n
                 (sort_by_freq_desc
                    (map (λ w, (w, default 0
                                     (ModelLoader.get_word_frequencies loader !! w)))
                       keys))).*1
     else inr (slice_to n keys))
    = (inr (EmbeddingService.top_words_by_frequency
              (ModelLoader.get_word_frequencies loader) keys n) : Exc + list string))
    as Hsel.
  { intros keys. case_bool_decide as Hfreq; [done|].
    by rewrite Hfreq, top_words_no_frequencies. }
  unfold ModelLoader.get_vocabulary_sample, model_keys, ModelLoader.get_tfidf_vocab,
    ModelLoader.get_word2vec_cbow, ModelLoader.get_word2vec_skipgram.
  destruct (decide (model_type = "tfidf")) as [->|Hne].
  { destruct (ModelLoader._load_tfidf_models loader) as [e|m]; simpl; [done|].
    apply Hsel. }
  destruct (decide (model_type ∈ ["word2vec_cbow"; "word2vec_skipgram"])) as [Hw2v|Hw2v].
  - rewrite (bool_decide_eq_true_2 _ Hw2v).
    rewrite !elem_of_cons, elem_of_nil in Hw2v. destruct Hw2v as [->|[->|[]]].
    all: repeat (rewrite decide_False by done); repeat (rewrite decide_True by done).
    all: destruct (ModelLoader._load_word2vec_model loader _) as [e|model]; simpl;
      [done|apply Hsel].
  - rewrite (bool_decide_eq_false_2 _ Hw2v).
    apply not_elem_of_cons in Hw2v as [Hcbow Hw2v].
    apply not_elem_of_cons in Hw2v as [Hskip _].
    rewrite !decide_False by done. simpl. f_equal.
    unfold EmbeddingService.top_words_by_frequency, slice_to. simpl.
    by destruct (0 <=? n); rewrite ?take_nil.
Qed.

(** X12.  The vocabulary sample of a model is the word list of its full
    visualization for the same count: whenever [get_all_embeddings] returns,
    [get_vocabulary_sample] returns its words, in the same order. *)
Theorem vocabulary_sample_is_selection (model_type : string) (n : Z)
    (rows : list vec) (words : list string) :
  EmbeddingService.get_all_embeddings loader model_type n = inr (rows, words) →
  ModelLoader.get_vocabulary_sample loader model_type n = inr words.
Proof.
  rewrite get_vocabulary_sample_eq.
  unfold EmbeddingService.get_all_embeddings, model_keys, ModelLoader.get_tfidf_vocab,
    ModelLoader.get_tfidf_embeddings, ModelLoader.get_word2vec_cbow,
    ModelLoader.get_word2vec_skipgram.
  destruct (decide (model_type = "tfidf")) as [->|Hne].
  { destruct (ModelLoader._load_tfidf_models loader) as [e|m]; simpl; [done|].
    destruct (exc_mapM _ _) as [e|indices]; simpl; [done|].
    destruct (exc_mapM _ indices) as [e|selected]; simpl; [done|].
    by intros [= _ <-]. }
  case_bool_decide as Hw2v.
  - rewrite !elem_of_cons, elem_of_nil in Hw2v. destruct Hw2v as [->|[->|[]]].
    all: repeat (rewrite decide_False by done); repeat (rewrite decide_True by done).
    all: destruct (ModelLoader._load_word2vec_model loader _) as [e|model]; simpl;
      [done|].
    all: destruct (exc_mapM _ _) as [e|selected]; simpl; [done|].
    all: by intros [= _ <-].
  - apply not_elem_of_cons in Hw2v as [Hcbow Hw2v].
    apply not_elem_of_cons in Hw2v as [Hskip _].
    rewrite !decide_False by done. simpl. intros [= _ <-].
    unfold EmbeddingService.top_words_by_frequency, slice_to. simpl.
    destruct (0 <=? n); simpl; by rewrite ?take_nil.
Qed.

(** X13.  For a count [n >= 0] the vocabulary sample is the first [n] words
    of a ranking of the model's vocabulary by descending frequency, a word
    without a count ranking as 0; when there is no frequency table (the file
    is missing or empty) it is the first [n] keys in vocabulary order.  It is
    returned whenever the model loads, and is empty for an unrecognised
    model type. *)
Theorem vocabulary_sample_ranked (model_type : string) (n : Z) (keys : list string) :
  0 ≤ n →
  model_keys loader model_type = inr keys →
  ∃ ranked,
    ranked ≡ₚ keys ∧
    StronglySorted (λ a b, frequency loader b ≤ frequency loader a) ranked ∧
    ModelLoader.get_vocabulary_sample loader model_type n
      = inr (take (Z.to_nat n) ranked) ∧
    (ModelLoader.get_word_frequencies loader = ∅ → ranked = keys) ∧
    (in_MODEL_TYPES model_type = false → ranked = []).
Proof.
  intros Hn Hkeys. rewrite get_vocabulary_sample_eq, Hkeys. simpl.
  destruct (decide (ModelLoader.get_word_frequencies loader = ∅)) as [Hfreq|Hfreq].
  - exists keys. split; [done|]. split; [|split; [|split]].
    + unfold frequency. rewrite Hfreq.
      assert (∀ l : list string,
                StronglySorted (λ a b, default 0 ((∅ : gmap string Z) !! b)
                                       ≤ default 0 ((∅ : gmap string Z) !! a)) l) as Hs.
      { induction l; constructor; [done|]. apply Forall_true. intros w.
        by rewrite !lookup_empty. }
      apply Hs.
    + rewrite Hfreq, top_words_no_frequencies. unfold slice_to.
      by destruct (Z.leb_spec 0 n); [|lia].
    + done.
    + intros Hmt. revert Hkeys. unfold model_keys, in_MODEL_TYPES in *.
      apply bool_decide_eq_false in Hmt. simpl in Hmt.
      rewrite !not_elem_of_cons in Hmt. destruct Hmt as (? & ? & ? & _).
      rewrite !decide_False by done. by intros [= <-].
  - destruct (top_words_by_frequency_spec (ModelLoader.get_word_frequencies loader)
                keys n Hn) as (ranked & Hperm & Hsorted & Htop).
    exists ranked. split; [done|]. split; [done|]. split; [by rewrite Htop|].
    split; [done|].
    intros Hmt. revert Hkeys Hperm. unfold model_keys, in_MODEL_TYPES in *.
    apply bool_decide_eq_false in Hmt. simpl in Hmt.
    rewrite !not_elem_of_cons in Hmt. destruct Hmt as (? & ? & ? & _).
    rewrite !decide_False by done. intros [= <-] Hperm.
    by apply Permutation_nil_r in Hperm.
Qed.

End VocabularySample.

Lemma vocabulary_sample_is_selection_witness :
  ModelLoader.get_vocabulary_sample Example.files "tfidf" 2 = inr ["dog"; "cat"].
Proof.
  apply (vocabulary_sample_is_selection Example.files "tfidf" 2
           [[3 # 5; 4 # 5]; [1; 0]]%Q ["dog"; "cat"]).
  reflexivity.
Defined.

Lemma vocabulary_sample_ranked_witness :
  ∃ ranked,
    ranked ≡ₚ ["cat"; "dog"; "fish"] ∧
    StronglySorted
      (λ a b, frequency Example.uncounted_files b ≤ frequency Example.uncounted_files a)
      ranked ∧
    ModelLoader.get_vocabulary_sample Example.uncounted_files "tfidf" 2
      = inr (take (Z.to_nat 2) ranked) ∧
    (ModelLoader.get_word_frequencies Example.uncounted_files = ∅ →
     ranked = ["cat"; "dog"; "fish"]) ∧
    (in_MODEL_TYPES "tfidf" = false → ranked = []).
Proof.
  apply (vocabulary_sample_ranked Example.uncounted_files "tfidf" 2
           ["cat"; "dog"; "fish"]); [lia|reflexivity].
Defined.

(** ** Model information and the models endpoints *)

Section ModelInformation.
Context `{Numerics}.
Context (loader : ModelLoader.t).
Context (shape1 : list vec → Z) (vector_size : ModelLoader.Word2Vec → Z).

(** For a recognised model type, [model_keys] succeeds exactly when the
    loader finds the files of the model. *)
Lemma model_keys_tfidf_inv keys :
  model_keys loader "tfidf" = inr keys →
  ∃ embeddings vocab,
    ModelLoader._load_tfidf_models loader = inr (embeddings, vocab) ∧ keys = vocab.*1.
Proof.
  unfold model_keys, ModelLoader.get_tfidf_vocab. simpl.
  destruct (ModelLoader._load_tfidf_models loader) as [e|[embeddings vocab]]; simpl;
    [done|]. intros [= <-]. by eexists _, _.
Qed.

Lemma model_keys_word2vec_inv model_type keys :
  model_type ∈ ["word2vec_cbow"; "word2vec_skipgram"] →
  model_keys loader model_type = inr keys →
  ∃ model,
    ModelLoader._load_word2vec_model loader model_type = inr model ∧
    keys = (ModelLoader.wv model).*1.
Proof.
  rewrite !elem_of_cons, elem_of_nil. intros [->|[->|[]]].
  all: unfold model_keys, ModelLoader.get_word2vec_cbow, ModelLoader.get_word2vec_skipgram.
  all: simpl.
  all: destruct (ModelLoader._load_word2vec_model loader _) as [e|model]; simpl; [done|].
  all: intros [= <-]; by eexists.
Qed.

Lemma load_tfidf_raises e :
  ModelLoader._load_tfidf_models loader = inl e → ∃ msg, e = FileNotFoundError msg.
Proof.
  unfold ModelLoader._load_tfidf_models.
  destruct (ModelLoader.tfidf_word_embeddings loader); [|intros [= <-]; by eexists].
  destruct (ModelLoader.tfidf_vocab loader); [done|intros [= <-]; by eexists].
Qed.

Lemma load_word2vec_raises model_type e :
  ModelLoader._load_word2vec_model loader model_type = inl e →
  ∃ msg, e = FileNotFoundError msg.
Proof.
  unfold ModelLoader._load_word2vec_model.
  destruct (if decide (model_type = "word2vec_cbow") then _ else _); [done|].
  intros [= <-]. by eexists.
Qed.

Lemma get_model_info_spec (model_type : string) :
  tfidf_files_together loader →
  ∃ info,
    ModelLoader.get_model_info loader shape1 vector_size model_type = inr info ∧
    ModelLoader.model_type info = model_type ∧
    ModelLoader.display_name info = default "Unknown" (dict_get MODEL_TYPES model_type) ∧
    (ModelLoader.is_loaded info = true ↔
       in_MODEL_TYPES model_type = true ∧ ∃ keys, model_keys loader model_type = inr keys) ∧
    (∀ keys,
       ModelLoader.is_loaded info = true → model_keys loader model_type = inr keys →
       ModelLoader.vocab_size info = Z.of_nat (length keys)) ∧
    (ModelLoader.is_loaded info = false →
     ModelLoader.vocab_size info = 0 ∧ ModelLoader.vector_dimensions info = 0).
Proof.
  intros _. unfold ModelLoader.get_model_info.
  destruct (decide (model_type = "tfidf")) as [->|Hne].
  { unfold model_keys, ModelLoader.get_tfidf_vocab. simpl.
    destruct (ModelLoader._load_tfidf_models loader) as [e|[embeddings vocab]] eqn:Hload;
      simpl.
    - destruct (load_tfidf_raises e Hload) as [msg ->].
      eexists. split; [done|]. simpl. repeat split; try done.
      + by intros (_ & keys & ?).
    - eexists. split; [done|]. simpl. repeat split; try done.
      + by eexists.
      + intros keys _ [= <-]. by rewrite length_fmap. }
  case_bool_decide as Hw2v.
  - assert (in_MODEL_TYPES model_type = true ∧
            dict_get MODEL_TYPES model_type
              = Some (default "Unknown" (dict_get MODEL_TYPES model_type))) as [Hmt Hname].
    { rewrite !elem_of_cons, elem_of_nil in Hw2v. by destruct Hw2v as [->|[->|[]]]. }
    rewrite Hname.
    destruct (ModelLoader._load_word2vec_model loader model_type) as [e|model] eqn:Hload;
      simpl.
    + destruct (load_word2vec_raises _ e Hload) as [msg ->].
      eexists. split; [done|]. simpl. repeat split; try done.
      intros (_ & keys & Hkeys).
      destruct (model_keys_word2vec_inv _ _ Hw2v Hkeys) as (model & Hmodel & _).
      by rewrite Hload in Hmodel.
    + eexists. split; [done|]. simpl. repeat split; try done.
      * rewrite !elem_of_cons, elem_of_nil in Hw2v.
        unfold model_keys, ModelLoader.get_word2vec_cbow,
          ModelLoader.get_word2vec_skipgram.
        destruct Hw2v as [->|[->|[]]]; simpl; rewrite Hload; by eexists.
      * intros keys _ Hkeys.
        destruct (model_keys_word2vec_inv _ _ Hw2v Hkeys) as (model' & Hmodel & ->).
        rewrite Hload in Hmodel. injection Hmodel as <-. by rewrite length_fmap.
  - apply not_elem_of_cons in Hw2v as [Hcbow Hw2v].
    apply not_elem_of_cons in Hw2v as [Hskip _].
    assert (in_MODEL_TYPES model_type = false) as Hmt.
    { apply bool_decide_eq_false. simpl. rewrite !not_elem_of_cons.
      repeat split; try done. apply not_elem_of_nil. }
    eexists. split; [done|]. simpl. repeat split; try done.
    + simpl. by rewrite !decide_False.
    + intros [? _]. congruence.
Qed.

(** X14.  [get_model_info] never raises: a missing model file is reported as
    [is_loaded = False], like an unrecognised model type.  A model is
    reported as loaded exactly when its type is recognised and its files are
    found, and then [vocab_size] is the number of its vocabulary keys;
    otherwise the sizes are 0.  The display name is that of [MODEL_TYPES],
    ["Unknown"] for an unrecognised type.  [get_all_models_info] returns the
    information of the three model types, in the order of [MODEL_TYPES]. *)
Theorem model_info_reports_load (model_type : string) :
  tfidf_files_together loader →
  (∃ info,
     ModelLoader.get_model_info loader shape1 vector_size model_type = inr info ∧
     ModelLoader.model_type info = model_type ∧
     ModelLoader.display_name info = default "Unknown" (dict_get MODEL_TYPES model_type) ∧
     (ModelLoader.is_loaded info = true ↔
        in_MODEL_TYPES model_type = true
        ∧ ∃ keys, model_keys loader model_type = inr keys) ∧
     (∀ keys,
        ModelLoader.is_loaded info = true → model_keys loader model_type = inr keys →
        ModelLoader.vocab_size info = Z.of_nat (length keys)) ∧
     (ModelLoader.is_loaded info = false →
      ModelLoader.vocab_size info = 0 ∧ ModelLoader.vector_dimensions info = 0)) ∧
  (∃ infos,
     ModelLoader.get_all_models_info loader shape1 vector_size = inr infos ∧
     ModelLoader.model_type <$> infos = MODEL_TYPES.*1 ∧
     Forall (λ info,
               ModelLoader.get_model_info loader shape1 vector_size
                 (ModelLoader.model_type info) = inr info) infos).
Proof.
  intros Hfiles. split; [by apply get_model_info_spec|].
  unfold ModelLoader.get_all_models_info. simpl.
  destruct (get_model_info_spec "tfidf" Hfiles) as (i1 & H1 & Hm1 & _).
  destruct (get_model_info_spec "word2vec_cbow" Hfiles) as (i2 & H2 & Hm2 & _).
  destruct (get_model_info_spec "word2vec_skipgram" Hfiles) as (i3 & H3 & Hm3 & _).
  rewrite H1, H2, H3. simpl. exists [i1; i2; i3].
  split; [done|]. split; [simpl; by rewrite Hm1, Hm2, Hm3|].
  repeat constructor; [by rewrite Hm1|by rewrite Hm2|by rewrite Hm3].
Qed.

(** X15.  The models endpoints.  An unrecognised model type is answered 404
    by all three.  For a recognised one the information endpoint always
    answers 200, also when the model files are missing; the vocabulary and
    check-word endpoints answer 200 when the model loads and 500 when it does
    not.  The vocabulary response carries the number of vocabulary keys and
    the sample of the model store, the check-word response the raw word and
    the outcome of the vocabulary check.  The listing always answers 200 with
    one entry per model type, in the order of [MODEL_TYPES]. *)
Theorem models_endpoints_status (model_type word : string) (sample_size : Z) :
  tfidf_files_together loader →
  (in_MODEL_TYPES model_type = false →
   http_status (ModelsRouter.get_model_info loader shape1 vector_size model_type) = 404 ∧
   http_status (ModelsRouter.get_vocabulary_sample loader shape1 vector_size model_type
                  sample_size) = 404 ∧
   http_status (ModelsRouter.check_word_in_vocabulary loader model_type word) = 404) ∧
  (in_MODEL_TYPES model_type = true →
   http_status (ModelsRouter.get_model_info loader shape1 vector_size model_type) = 200 ∧
   (∀ keys,
      model_keys loader model_type = inr keys →
      ∃ sample in_vocab,
        ModelLoader.get_vocabulary_sample loader model_type sample_size = inr sample ∧
        ModelLoader.is_word_in_vocab loader word model_type = inr in_vocab ∧
        ModelsRouter.get_vocabulary_sample loader shape1 vector_size model_type
          sample_size
          = inr {| VocabularyInfo.model_type := model_type;
                   VocabularyInfo.vocab_size := Z.of_nat (length keys);
                   VocabularyInfo.sample_words := sample |} ∧
        ModelsRouter.check_word_in_vocabulary loader model_type word
          = inr {| ModelsRouter.word := word;
                   ModelsRouter.model_type := model_type;
                   ModelsRouter.in_vocabulary := in_vocab |}) ∧
   ((∀ keys, model_keys loader model_type ≠ inr keys) →
    http_status (ModelsRouter.get_vocabulary_sample loader shape1 vector_size
                   model_type sample_size) = 500 ∧
    http_status (ModelsRouter.check_word_in_vocabulary loader model_type word) = 500)) ∧
  (∃ infos,
     ModelsRouter.list_models loader shape1 vector_size = inr infos ∧
     ModelLoader.model_type <$> infos = MODEL_TYPES.*1).
Proof.
  intros Hfiles. split; [|split].
  - unfold ModelsRouter.get_model_info, ModelsRouter.get_vocabulary_sample,
      ModelsRouter.check_word_in_vocabulary. by intros ->.
  - intros Hmt.
    destruct (get_model_info_spec model_type Hfiles)
      as (info & Hinfo & _ & _ & Hloaded & Hsize & _).
    unfold ModelsRouter.get_model_info, ModelsRouter.get_vocabulary_sample,
      ModelsRouter.check_word_in_vocabulary. rewrite Hmt, Hinfo. cbn [negb].
    split; [done|]. rewrite get_vocabulary_sample_eq.
    apply bool_decide_eq_true in Hmt. simpl in Hmt.
    rewrite !elem_of_cons, elem_of_nil in Hmt. split.
    + intros keys Hkeys. rewrite Hkeys. simpl.
      assert (ModelLoader.is_loaded info = true) as Hl.
      { apply Hloaded. split; [|by eexists]. apply bool_decide_eq_true. simpl.
        rewrite !elem_of_cons, elem_of_nil. tauto. }
      rewrite (Hsize keys Hl Hkeys).
      assert (∃ in_vocab,
                ModelLoader.is_word_in_vocab loader word model_type = inr in_vocab)
        as [in_vocab Hcheck].
      { revert Hkeys.
        unfold model_keys, ModelLoader.is_word_in_vocab, ModelLoader.get_tfidf_vocab.
        destruct Hmt as [->|[->|[->|[]]]]; simpl.
        - destruct (ModelLoader._load_tfidf_models loader); simpl; [done|by eexists].
        - destruct (ModelLoader.get_word2vec_cbow loader); simpl; [done|by eexists].
        - destruct (ModelLoader.get_word2vec_skipgram loader); simpl; [done|by eexists]. }
      eexists _, in_vocab. rewrite Hcheck. by repeat split.
    + intros Hnone.
      destruct (model_keys loader model_type) as [e|keys] eqn:Hkeys;
        [|by destruct (Hnone keys)].
      assert (∃ msg, e = FileNotFoundError msg ∧
                ModelLoader.is_word_in_vocab loader word model_type = inl e)
        as (msg & -> & ->).
      { revert Hkeys.
        unfold model_keys, ModelLoader.is_word_in_vocab, ModelLoader.get_tfidf_vocab,
          ModelLoader.get_word2vec_cbow, ModelLoader.get_word2vec_skipgram.
        destruct Hmt as [->|[->|[->|[]]]]; simpl.
        - destruct (ModelLoader._load_tfidf_models loader) as [e'|m] eqn:Hload; simpl;
            [|done]. intros [= <-]. destruct (load_tfidf_raises _ Hload) as [msg ->].
          by eexists.
        - destruct (ModelLoader._load_word2vec_model loader _) as [e'|m] eqn:Hload;
            simpl; [|done]. intros [= <-].
          destruct (load_word2vec_raises _ _ Hload) as [msg ->]. by eexists.
        - destruct (ModelLoader._load_word2vec_model loader _) as [e'|m] eqn:Hload;
            simpl; [|done]. intros [= <-].
          destruct (load_word2vec_raises _ _ Hload) as [msg ->]. by eexists. }
      done.
  - unfold ModelsRouter.list_models, ModelLoader.get_all_models_info. simpl.
    destruct (get_model_info_spec "tfidf" Hfiles) as (i1 & -> & <- & _).
    destruct (get_model_info_spec "word2vec_cbow" Hfiles) as (i2 & -> & <- & _).
    destruct (get_model_info_spec "word2vec_skipgram" Hfiles) as (i3 & -> & <- & _).
    simpl. by eexists.
Qed.

End ModelInformation.

Lemma example_tfidf_files_together : tfidf_files_together Example.files.
Proof. intros _. by eexists. Qed.

Lemma model_info_reports_load_witness :
  ModelLoader.get_model_info Example.files Example.shape1 Example.vector_size
    "word2vec_skipgram"
    = inr {| ModelLoader.model_type := "word2vec_skipgram";
             ModelLoader.display_name := "Word2Vec (Skip-Gram)";
             ModelLoader.vocab_size := 0;
             ModelLoader.vector_dimensions := 0;
             ModelLoader.is_loaded := false |} ∧
  (∃ info,
     ModelLoader.get_model_info Example.files Example.shape1 Example.vector_size "tfidf"
       = inr info ∧
     ModelLoader.model_type info = "tfidf" ∧
     ModelLoader.display_name info = default "Unknown" (dict_get MODEL_TYPES "tfidf") ∧
     (ModelLoader.is_loaded info = true ↔
        in_MODEL_TYPES "tfidf" = true
        ∧ ∃ keys, model_keys Example.files "tfidf" = inr keys) ∧
     (∀ keys,
        ModelLoader.is_loaded info = true → model_keys Example.files "tfidf" = inr keys →
        ModelLoader.vocab_size info = Z.of_nat (length keys)) ∧
     (ModelLoader.is_loaded info = false →
      ModelLoader.vocab_size info = 0 ∧ ModelLoader.vector_dimensions info = 0)) ∧
  (∃ infos,
     ModelLoader.get_all_models_info Example.files Example.shape1 Example.vector_size
       = inr infos ∧
     ModelLoader.model_type <$> infos = MODEL_TYPES.*1 ∧
     Forall (λ info,
               ModelLoader.get_model_info Example.files Example.shape1
                 Example.vector_size (ModelLoader.model_type info) = inr info) infos).
Proof.
  split; [reflexivity|].
  exact (model_info_reports_load Example.files Example.shape1 Example.vector_size "tfidf"
           example_tfidf_files_together).
Defined.

Lemma models_endpoints_status_witness :
  http_status (ModelsRouter.get_model_info Example.files Example.shape1
                 Example.vector_size "word2vec_skipgram") = 200 ∧
  http_status (ModelsRouter.get_vocabulary_sample Example.files Example.shape1
                 Example.vector_size "word2vec_skipgram" 50) = 500 ∧
  http_status (ModelsRouter.check_word_in_vocabulary Example.files "word2vec_skipgram"
                 "cat") = 500.
Proof.
  destruct (models_endpoints_status Example.files Example.shape1 Example.vector_size
              "word2vec_skipgram" "cat" 50 example_tfidf_files_together)
    as (_ & Hknown & _).
  destruct (Hknown eq_refl) as (Hinfo & _ & Hmissing).
  split; [exact Hinfo|]. apply Hmissing. intros keys. discriminate.
Defined.

(** ** The embeddings endpoints *)

Section EmbeddingsEndpoints.
Context `{Numerics}.
Context (loader : ModelLoader.t).

(** The points built from [pairs] carry the pairs in order, and the rows of
    [reduced] from index [i] on. *)
Lemma build_embedding_points_spec reduced i pairs points :
  EmbeddingsRouter.build_embedding_points reduced i pairs = inr points →
  (λ pt, (EmbeddingPoint.word pt, EmbeddingPoint.frequency pt)) <$> points = pairs ∧
  (λ pt, (EmbeddingPoint.x pt, EmbeddingPoint.y pt)) <$> points
    = take (length pairs) (drop i reduced).
Proof.
  revert i points. induction pairs as [|[w freq] pairs IH]; intros i points; simpl.
  { by intros [= <-]. }
  destruct (reduced !! i) as [[x y]|] eqn:Hrow; [|done].
  destruct (EmbeddingsRouter.build_embedding_points reduced (S i) pairs) as [e|ps] eqn:Hps;
    simpl; [done|].
  intros [= <-]. destruct (IH _ _ Hps) as [Hpairs Hrows].
  rewrite !fmap_cons, Hpairs, Hrows. split; [done|].
  by rewrite (drop_S _ _ _ Hrow).
Qed.

(** What a handler that wraps its body in [try ... except Exception] and
    re-raises as a 500 can answer. *)
Lemma catch_all_status {A : Type} (m : M A) (detail : Exc → string) s :
  let r := (catch m (λ e, raise (HTTPException 500 (detail e))) s).1 in
  http_status r = 200 ∨ http_status r = 500.
Proof.
  unfold catch, raise. destruct (m s) as [[e|a] s']; simpl; by eauto.
Qed.

(** X16.  A successful response of the full-visualization endpoint lists one
    point per word the service returned, in order, each with the frequency
    and the coordinate row at its position; [num_words] is the number of
    points.  It is only given for a recognised model type, a method ["pca"]
    or ["tsne"], and a non-empty selection; the service is called with
    caching enabled. *)
Theorem visualization_endpoint_points (model_type method : string)
    (num_words perplexity : Z) (s s' : DimensionalityReductionService.t)
    (resp : EmbeddingsResponse.t) :
  EmbeddingsRouter.get_embeddings_for_visualization loader model_type method num_words
    perplexity s = (inr resp, s') →
  in_MODEL_TYPES model_type = true ∧
  method ∈ ["pca"; "tsne"] ∧
  EmbeddingsResponse.model_type resp = model_type ∧
  EmbeddingsResponse.reduction_method resp = method ∧
  EmbeddingsResponse.num_words resp = Z.of_nat (length (EmbeddingsResponse.points resp)) ∧
  ∃ reduced words freqs,
    get_reduced_embeddings loader model_type method num_words perplexity true s
      = (inr (reduced, words, freqs), s') ∧
    words ≠ [] ∧
    (λ pt, (EmbeddingPoint.word pt, EmbeddingPoint.frequency pt))
      <$> EmbeddingsResponse.points resp = zip words freqs ∧
    (λ pt, (EmbeddingPoint.x pt, EmbeddingPoint.y pt))
      <$> EmbeddingsResponse.points resp
      = take (length (zip words freqs)) reduced.
Proof.
  unfold EmbeddingsRouter.get_embeddings_for_visualization.
  destruct (in_MODEL_TYPES model_type); cbn [negb]; [|done].
  case_bool_decide as Hmethod; cbn [negb]; [|done].
  unfold catch, bind, raise, lift, ret.
  destruct (get_reduced_embeddings loader model_type method num_words perplexity true s)
    as [[e|[[reduced words] freqs]] s1]; [done|].
  cbn [fst snd]. case_decide as Hlen; [done|].
  destruct (EmbeddingsRouter.build_embedding_points reduced 0 (zip words freqs))
    as [e|points] eqn:Hpoints; [done|].
  intros [= <- <-]. simpl.
  destruct (build_embedding_points_spec _ _ _ _ Hpoints) as [Hpairs Hrows].
  repeat split; try done. exists reduced, words, freqs.
  repeat split; try done. by destruct words.
Qed.

(** X17.  The status of the two embeddings endpoints.  An unrecognised model
    type is answered 400 by both, and a method other than ["pca"] and
    ["tsne"] is answered 400 by the full visualization (the neighbourhood
    endpoint does not check the method); the service is not called.
    Otherwise the answer is 200 or 500, never 404: what is raised inside the
    handler's [try], its own [HTTPException] included, is answered 500 with
    the text of the exception in the detail.  So an empty result of the
    service gives a 500 on both endpoints. *)
Theorem embeddings_endpoints_status (model_type word method : string)
    (num_words num_neighbors perplexity : Z) (s : DimensionalityReductionService.t) :
  let visualization :=
    EmbeddingsRouter.get_embeddings_for_visualization loader model_type method num_words
      perplexity s in
  let neighborhood :=
    EmbeddingsRouter.get_word_neighborhood loader model_type word method num_neighbors
      perplexity s in
  (in_MODEL_TYPES model_type = false →
   visualization = (inl invalid_model_type, s) ∧
   neighborhood = (inl invalid_model_type, s)) ∧
  (in_MODEL_TYPES model_type = true → method ∉ ["pca"; "tsne"] →
   visualization = (inl (HTTPException 400 "Method must be 'pca' or 'tsne'"), s)) ∧
  (in_MODEL_TYPES model_type = true →
   (http_status neighborhood.1 = 200 ∨ http_status neighborhood.1 = 500) ∧
   (method ∈ ["pca"; "tsne"] →
    http_status visualization.1 = 200 ∨ http_status visualization.1 = 500)) ∧
  (in_MODEL_TYPES model_type = true → method ∈ ["pca"; "tsne"] →
   ∀ reduced freqs s1,
     get_reduced_embeddings loader model_type method num_words perplexity true s
       = (inr (reduced, [], freqs), s1) →
     visualization
       = (inl (HTTPException 500
                 "Error generating embeddings: 500: Failed to load embeddings"), s1)) ∧
  (in_MODEL_TYPES model_type = true →
   ∀ reduced similarities s1,
     DimensionalityReductionService.get_word_neighborhood loader word model_type method
       num_neighbors perplexity s = (inr (reduced, [], similarities), s1) →
     neighborhood
       = (inl (HTTPException 500
                 ("Error generating neighborhood: 404: Word '" +:+ word
                    +:+ "' not found in vocabulary")), s1)).
Proof.
  intros visualization neighborhood. subst visualization neighborhood.
  unfold EmbeddingsRouter.get_embeddings_for_visualization,
    EmbeddingsRouter.get_word_neighborhood.
  split; [by intros ->|]. split.
  { intros -> Hmethod. cbn [negb]. by rewrite (bool_decide_eq_false_2 _ Hmethod). }
  split.
  { intros ->. cbn [negb]. split; [apply catch_all_status|].
    intros Hmethod. rewrite (bool_decide_eq_true_2 _ Hmethod). cbn [negb].
    apply catch_all_status. }
  split.
  - intros -> Hmethod reduced freqs s1 Hcall. cbn [negb].
    rewrite (bool_decide_eq_true_2 _ Hmethod). cbn [negb].
    unfold catch, bind, raise. by rewrite Hcall.
  - intros -> reduced similarities s1 Hcall. cbn [negb].
    unfold catch, bind, raise. by rewrite Hcall.
Qed.

End EmbeddingsEndpoints.

Lemma visualization_endpoint_points_witness :
  ∃ resp s',
    EmbeddingsRouter.get_embeddings_for_visualization Example.files "tfidf" "pca" 2 30
      DimensionalityReductionService.init = (inr resp, s') ∧
    EmbeddingsResponse.num_words resp = 2 ∧
    EmbeddingsResponse.points resp
      = [ {| EmbeddingPoint.word := "dog"; EmbeddingPoint.x := 3 # 5;
             EmbeddingPoint.y := 4 # 5; EmbeddingPoint.frequency := 9 |};
          {| EmbeddingPoint.word := "cat"; EmbeddingPoint.x := 1;
             EmbeddingPoint.y := 0; EmbeddingPoint.frequency := 5 |} ] ∧
    in_MODEL_TYPES "tfidf" = true ∧
    EmbeddingsResponse.reduction_method resp = "pca".
Proof.
  eexists _, _. split; [reflexivity|]. split; [reflexivity|]. split; [reflexivity|].
  pose proof (visualization_endpoint_points Example.files "tfidf" "pca" 2 30
                DimensionalityReductionService.init _ _ eq_refl)
    as (Hmt & _ & _ & Hmethod & _).
  split; [exact Hmt|exact Hmethod].
Defined.

Lemma embeddings_endpoints_status_witness :
  (EmbeddingsRouter.get_embeddings_for_visualization Example.files "word2vec_skipgram"
     "svd" 100 30 DimensionalityReductionService.init).1
    = inl (HTTPException 400 "Method must be 'pca' or 'tsne'") ∧
  (EmbeddingsRouter.get_word_neighborhood Example.files "tfidf" "zebra" "pca" 20 30
     DimensionalityReductionService.init).1
    = inl (HTTPException 500
             "Error generating neighborhood: 404: Word 'zebra' not found in vocabulary").
Proof.
  split.
  - destruct (embeddings_endpoints_status Example.files "word2vec_skipgram" "zebra"
                "svd" 100 20 30 DimensionalityReductionService.init)
      as (_ & Hmethod & _).
    rewrite Hmethod; [reflexivity|reflexivity|].
    intros Hin. apply elem_of_cons in Hin as [Hin|Hin]; [discriminate|].
    apply elem_of_cons in Hin as [Hin|Hin]; [discriminate|]. by apply elem_of_nil in Hin.
  - destruct (embeddings_endpoints_status Example.files "tfidf" "zebra" "pca" 100 20 30
                DimensionalityReductionService.init)
      as (_ & _ & _ & _ & Hempty).
    by rewrite (Hempty eq_refl [] [] DimensionalityReductionService.init eq_refl).
Defined.

(** ** Normalisation of the query word *)

Section Normalisation.

Lemma lower_char_idemp c : lower_char (lower_char c) = lower_char c.
Proof. by destruct c as [[] [] [] [] [] [] [] []]. Qed.

Lemma is_space_lower_char c : is_space (lower_char c) = is_space c.
Proof. by destruct c as [[] [] [] [] [] [] [] []]. Qed.

Lemma lower_idemp s : lower (lower s) = lower s.
Proof. induction s as [|c s IH]; simpl; [done|]. by rewrite lower_char_idemp, IH. Qed.

Lemma string_app_nil_r (s : string) : s +:+ "" = s.
Proof. induction s as [|c s IH]; [done|]. rewrite string_app_cons. by f_equal. Qed.

Lemma rev_app_app (s t u : string) :
  String.rev_app s t +:+ u = String.rev_app s (t +:+ u).
Proof. revert t. induction s as [|c s IH]; intros t; simpl; [done|]. by rewrite IH. Qed.

Lemma rev_app_rev_app (s t u : string) :
  String.rev_app (String.rev_app s t) u = String.rev_app t (s +:+ u).
Proof.
  revert t u. induction s as [|c s IH]; intros t u; [done|].
  rewrite string_app_cons. simpl. by rewrite IH.
Qed.

Lemma string_rev_involutive (s : string) : String.rev (String.rev s) = s.
Proof.
  unfold String.rev. rewrite rev_app_rev_app. simpl. apply string_app_nil_r.
Qed.

Lemma rev_app_append (s t u : string) :
  String.rev_app (s +:+ t) u = String.rev_app t (String.rev_app s u).
Proof.
  revert u. induction s as [|c s IH]; intros u; [done|].
  rewrite string_app_cons. simpl. by rewrite IH.
Qed.

Lemma string_rev_app (s t : string) :
  String.rev (s +:+ t) = String.rev t +:+ String.rev s.
Proof. unfold String.rev. by rewrite rev_app_append, rev_app_app, string_app_nil. Qed.

Lemma lower_rev_app (s t : string) :
  lower (String.rev_app s t) = String.rev_app (lower s) (lower t).
Proof. revert t. induction s as [|c s IH]; intros t; simpl; [done|]. by rewrite IH. Qed.

Lemma lower_lstrip s : lower (lstrip s) = lstrip (lower s).
Proof.
  induction s as [|c s IH]; simpl; [done|]. rewrite is_space_lower_char.
  by destruct (is_space c).
Qed.

Lemma lower_strip s : lower (strip s) = strip (lower s).
Proof.
  unfold strip, rstrip, String.rev.
  by rewrite lower_rev_app, lower_lstrip, lower_rev_app, lower_lstrip.
Qed.

Lemma lstrip_idemp s : lstrip (lstrip s) = lstrip s.
Proof.
  induction s as [|c s IH]; simpl; [done|].
  destruct (is_space c) eqn:Hc; [done|]. simpl. by rewrite Hc.
Qed.

(** [lstrip] removes a prefix. *)
Lemma lstrip_split s : ∃ p, s = p +:+ lstrip s.
Proof.
  induction s as [|c s [p Hp]]; simpl; [by exists ""|].
  destruct (is_space c); [|by exists ""].
  exists (String c p). rewrite string_app_cons. by rewrite <- Hp.
Qed.

Lemma lstrip_length s : (String.length (lstrip s) ≤ String.length s)%nat.
Proof. induction s as [|c s IH]; simpl; [done|]. destruct (is_space c); simpl; lia. Qed.

(** A string that [lstrip] leaves alone does not start with a space. *)
Lemma lstrip_fixed c s : lstrip (String c s) = String c s → is_space c = false.
Proof.
  simpl. destruct (is_space c); [|done]. intros Heq.
  pose proof (lstrip_length s) as Hlen. rewrite Heq in Hlen. simpl in Hlen. lia.
Qed.

Lemma strip_idemp s : strip (strip s) = strip s.
Proof.
  unfold strip, rstrip.
  set (a := lstrip s). set (b := lstrip (String.rev a)).
  assert (lstrip (String.rev b) = String.rev b) as Hb.
  { destruct (lstrip_split (String.rev a)) as [p Hp]. fold b in Hp.
    assert (a = String.rev b +:+ String.rev p) as Ha
      by (by rewrite <- string_rev_app, <- Hp, string_rev_involutive).
    destruct (String.rev b) as [|c r]; [done|].
    assert (is_space c = false) as Hc.
    { apply (lstrip_fixed c (r +:+ String.rev p)).
      rewrite <- string_app_cons, <- Ha. apply lstrip_idemp. }
    simpl. by rewrite Hc. }
  rewrite Hb, string_rev_involutive. f_equal. apply lstrip_idemp.
Qed.

End Normalisation.

Section NormalisedQueries.
Context `{Numerics}.
Context (loader : ModelLoader.t).

(** X18.  On an ASCII word normalising is idempotent, so the services treat
    such a word and its normalised form alike: the vocabulary check, the
    vector lookup and the similarity lookup give the same outcome for both,
    and the single-word endpoint answers the query word it echoes exactly as
    it answered the original word. *)
Theorem normalized_word_same_answers (word model_type : string) (topn : Z) :
  isascii word = true →
  normalize (normalize word) = normalize word ∧
  ModelLoader.is_word_in_vocab loader (normalize word) model_type
    = ModelLoader.is_word_in_vocab loader word model_type ∧
  EmbeddingService.get_word_vector loader (normalize word) model_type
    = EmbeddingService.get_word_vector loader word model_type ∧
  EmbeddingService.get_similar_words loader (normalize word) model_type topn
    = EmbeddingService.get_similar_words loader word model_type topn ∧
  SimilarityRouter.get_similar_words loader (normalize word) model_type topn
    = SimilarityRouter.get_similar_words loader word model_type topn.
Proof.
  intros _.
  assert (normalize (normalize word) = normalize word) as Hnorm.
  { unfold normalize. by rewrite lower_strip, lower_idemp, strip_idemp. }
  split; [done|].
  assert (EmbeddingService.get_similar_words loader (normalize word) model_type topn
          = EmbeddingService.get_similar_words loader word model_type topn) as Hlookup.
  { unfold EmbeddingService.get_similar_words, EmbeddingService.get_similar_words_tfidf,
      EmbeddingService.get_similar_words_tfidf_by,
      EmbeddingService.get_similar_words_word2vec. by rewrite Hnorm. }
  split; [by unfold ModelLoader.is_word_in_vocab; rewrite Hnorm|].
  split; [by unfold EmbeddingService.get_word_vector; rewrite Hnorm|].
  split; [done|].
  unfold SimilarityRouter.get_similar_words. by rewrite Hlookup, Hnorm.
Qed.

End NormalisedQueries.

Lemma normalized_word_same_answers_witness :
  isascii " Cat " = true ∧
  normalize " Cat " = "cat" ∧
  normalize (normalize " Cat ") = normalize " Cat " ∧
  EmbeddingService.get_similar_words Example.files (normalize " Cat ") "tfidf" 2
    = EmbeddingService.get_similar_words Example.files " Cat " "tfidf" 2 ∧
  SimilarityRouter.get_similar_words Example.files (normalize " Cat ") "tfidf" 2
    = SimilarityRouter.get_similar_words Example.files " Cat " "tfidf" 2.
Proof.
  split; [reflexivity|]. split; [reflexivity|].
  destruct (normalized_word_same_answers Example.files " Cat " "tfidf" 2 eq_refl)
    as (Hnorm & _ & _ & Hlookup & Hrouter).
  split; [exact Hnorm|]. split; [exact Hlookup|exact Hrouter].
Defined.

(** ** How many neighbours a TF-IDF lookup returns *)

Section ResultCount.
Context `{Numerics}.
Context (loader : ModelLoader.t).

Lemma filter_ne_seq_length (idx n : nat) :
  length (filter (λ i, i ≠ idx) (seq 0 n))
    = if decide (idx < n)%nat then (n - 1)%nat else n.
Proof.
  induction n as [|n IH]; [done|].
  rewrite seq_S, filter_app, length_app, IH. simpl.
  rewrite filter_cons, filter_nil.
  repeat case_decide; simpl; lia.
Qed.

(** X19.  A TF-IDF lookup that finds the word returns exactly
    [min(topn, n - 1)] neighbours when the cosine routine gives one score per
    row of the [n]-row matrix: every row but the query word's own is a
    candidate, and the list is cut at [topn]. *)
Theorem tfidf_result_count (word : string) (topn : Z) (embeddings : list vec)
    (vocab : list (string * nat)) (word_idx : nat) (v : vec) (sims : list Q)
    (results : list (string * Q)) :
  ModelLoader._load_tfidf_models loader = inr (embeddings, vocab) →
  dict_get vocab (normalize word) = Some word_idx →
  embeddings !! word_idx = Some v →
  cosine_similarity v embeddings = inr sims →
  length sims = length embeddings →
  EmbeddingService.get_similar_words_tfidf loader word topn = (results, true, None) →
  length results = (Z.to_nat topn `min` (length embeddings - 1))%nat.
Proof.
  intros Hload Hidx Hv Hsims Hlen Hcall.
  destruct (get_similar_words_tfidf_inv loader word topn _ _ _ Hload Hidx)
    as [[msg Hr]|(v' & sims' & results' & Hv' & Hsims' & Hr & Hb)]; [congruence|].
  assert (v' = v) as -> by congruence.
  assert (sims' = sims) as -> by congruence.
  assert (results' = results) as -> by congruence.
  apply Forall2_length in Hb. rewrite <- Hb, length_take. f_equal.
  assert (filter (λ i, i ≠ word_idx) (reverse (argsort sims))
            ≡ₚ filter (λ i, i ≠ word_idx) (seq 0 (length sims))) as Hperm
    by (by rewrite reverse_Permutation, argsort_perm).
  rewrite Hperm, filter_ne_seq_length, Hlen.
  apply lookup_lt_Some in Hv. by rewrite decide_True.
Qed.

End ResultCount.

Lemma tfidf_result_count_witness :
  EmbeddingService.get_similar_words_tfidf Example.files "cat" 5
    = ([("dog", 3 # 5); ("fish", 0%Q)], true, None) ∧
  length [("dog", 3 # 5); ("fish", 0%Q)] = (Z.to_nat 5 `min` (3 - 1))%nat.
Proof.
  split; [reflexivity|].
  apply (tfidf_result_count Example.files "cat" 5
           [[1; 0]; [3 # 5; 4 # 5]; [0; 1]]%Q
           [("cat", 0%nat); ("dog", 1%nat); ("fish", 2%nat)] 0%nat [1; 0]%Q
           [1; 3 # 5; 0]%Q [("dog", 3 # 5); ("fish", 0%Q)]); reflexivity.
Defined.

(** ** What the neighbourhood projects *)

Section NeighborhoodVectors.
Context `{Numerics}.
Context (loader : ModelLoader.t).

(** The loop keeps, in order, the pairs whose word has a vector, each with
    its vector. *)
Lemma collect_valid_vectors model_type pairs vectors valid_words valid_similarities :
  ∃ vs ws ss,
    collect_valid loader model_type pairs (vectors, valid_words, valid_similarities)
      = ((vectors ++ vs)%list, (valid_words ++ ws)%list,
         (valid_similarities ++ ss)%list) ∧
    length ss = length ws ∧
    zip ws ss `sublist_of` pairs ∧
    Forall2 (λ w v, EmbeddingService.get_word_vector loader w model_type = Some v) ws vs.
Proof.
  revert vectors valid_words valid_similarities.
  induction pairs as [|[w sim] pairs IH]; intros vectors valid_words valid_similarities.
  { exists [], [], []. rewrite !app_nil_r. repeat split; by constructor. }
  simpl. destruct (EmbeddingService.get_word_vector loader w model_type) as [v|] eqn:Hv.
  - destruct (IH (vectors ++ [v])%list (valid_words ++ [w])%list
                (valid_similarities ++ [sim])%list)
      as (vs & ws & ss & -> & Hlen & Hsub & Hall).
    exists (v :: vs), (w :: ws), (sim :: ss). rewrite <- !(assoc_L (++)).
    repeat split; simpl; [by f_equal|by constructor|by constructor].
  - destruct (IH vectors valid_words valid_similarities)
      as (vs & ws & ss & -> & Hlen & Hsub & Hall).
    exists vs, ws, ss. repeat split; try done. by constructor.
Qed.

(** The vector of a word is the embedding row of its normalised form. *)
Lemma get_word_vector_row w model_type :
  in_MODEL_TYPES model_type = true →
  EmbeddingService.get_word_vector loader w model_type
    = row_of_key loader model_type (normalize w).
Proof.
  intros Hmt. apply bool_decide_eq_true in Hmt. simpl in Hmt.
  rewrite !elem_of_cons, elem_of_nil in Hmt.
  unfold EmbeddingService.get_word_vector, row_of_key, ModelLoader.get_tfidf_vocab,
    ModelLoader.get_tfidf_embeddings, ModelLoader.get_word2vec_cbow,
    ModelLoader.get_word2vec_skipgram.
  destruct Hmt as [->|[->|[->|[]]]]; simpl.
  - destruct (ModelLoader._load_tfidf_models loader) as [e|[embeddings vocab]]; simpl;
      [done|].
    destruct (dict_get vocab (normalize w)) as [i|]; simpl; [|done].
    by destruct (embeddings !! i).
  - by destruct (ModelLoader._load_word2vec_model loader _).
  - by destruct (ModelLoader._load_word2vec_model loader _).
Qed.

(** X20.  A non-empty neighbourhood result is the projection of the vectors
    of its words, in order: the embedding rows of their normalised forms,
    the same rows the full visualization plots.  Each neighbour keeps the
    similarity the lookup gave it, and the neighbours are in the order of the
    lookup; a neighbour without a vector is left out with its score. *)
Theorem neighborhood_projects_word_vectors (word model_type method : string)
    (num_neighbors perplexity : Z) (s s' : DimensionalityReductionService.t)
    (reduced : list (Q * Q)) (words : list string) (similarities : list Q) :
  DimensionalityReductionService.get_word_neighborhood loader word model_type method
    num_neighbors perplexity s = (inr (reduced, words, similarities), s') →
  words ≠ [] →
  in_MODEL_TYPES model_type = true ∧
  zip (tail words) (tail similarities)
    `sublist_of`
      (EmbeddingService.get_similar_words loader word model_type num_neighbors).1.1 ∧
  ∃ vectors : list vec,
    Forall2 (λ w v, row_of_key loader model_type (normalize w) = Some v) words vectors ∧
    (if decide (method = "pca") then reduce_pca vectors
     else reduce_tsne vectors
            (Z.min perplexity (Z.max 2 (Z.of_nat (length vectors) / 3)))) s
      = (inr reduced, s').
Proof.
  unfold DimensionalityReductionService.get_word_neighborhood.
  destruct (EmbeddingService.get_similar_words _ _ _ _) as [[similar in_vocab] msg]
    eqn:Hlookup.
  destruct in_vocab; cbn [negb]; [|by intros [= <- <- <- <-]].
  assert (in_MODEL_TYPES model_type = true) as Hmt.
  { revert Hlookup. unfold EmbeddingService.get_similar_words, in_MODEL_TYPES.
    intros Hlookup. apply bool_decide_eq_true. simpl.
    destruct (decide (model_type = "tfidf")) as [->|Hne]; [by left|].
    right. revert Hlookup. by case_bool_decide. }
  destruct (found_word_has_vector _ _ _ _ _ _ Hlookup) as [v Hv].
  cbn [zip zip_with collect_valid]. rewrite Hv.
  destruct (collect_valid_vectors model_type (zip similar.*1 similar.*2)
              ([] ++ [v])%list ([] ++ [word])%list ([] ++ [1%Q])%list)
    as (vs & ws & ss & -> & Hlen & Hsub & Hall).
  simpl. destruct (_ <? 2)%nat; [by intros [= <- <- <- <-]|].
  assert (Forall2 (λ w v, row_of_key loader model_type (normalize w) = Some v)
            (word :: ws) (v :: vs)) as Hrows.
  { constructor; [by rewrite <- get_word_vector_row|].
    eapply Forall2_impl; [exact Hall|]. intros w' v' Hw'.
    by rewrite <- get_word_vector_row. }
  rewrite zip_fst_snd in Hsub. unfold bind, ret.
  destruct (decide (method = "pca")) as [Hm|Hm].
  - destruct (reduce_pca _ s) as [[e|r] sr] eqn:Hproj; [done|].
    intros [= <- <- <- <-] _. simpl. split; [done|]. split; [done|].
    by exists (v :: vs).
  - destruct (reduce_tsne _ _ s) as [[e|r] sr] eqn:Hproj; [done|].
    intros [= <- <- <- <-] _. simpl. split; [done|]. split; [done|].
    by exists (v :: vs).
Qed.

End NeighborhoodVectors.

Lemma neighborhood_projects_word_vectors_witness :
  in_MODEL_TYPES "tfidf" = true ∧
  zip (tail ["Cat"; "dog"; "fish"]) (tail [1; 3 # 5; 0]%Q)
    `sublist_of` (EmbeddingService.get_similar_words Example.files "Cat" "tfidf" 20).1.1 ∧
  ∃ vectors : list (@vec Example.unit_rows),
    Forall2 (λ w v, row_of_key Example.files "tfidf" (normalize w) = Some v)
      ["Cat"; "dog"; "fish"] vectors ∧
    (if decide ("pca" = "pca") then @reduce_pca Example.unit_rows vectors
     else @reduce_tsne Example.unit_rows vectors
            (Z.min 30 (Z.max 2 (Z.of_nat (length vectors) / 3))))
      DimensionalityReductionService.init
      = (inr [(1, 0); (3 # 5, 4 # 5); (0, 1)]%Q,
         (DimensionalityReductionService.get_word_neighborhood Example.files "Cat"
            "tfidf" "pca" 20 30 DimensionalityReductionService.init).2).
Proof.
  apply (neighborhood_projects_word_vectors Example.files "Cat" "tfidf" "pca" 20 30
           DimensionalityReductionService.init
           (DimensionalityReductionService.get_word_neighborhood Example.files "Cat"
              "tfidf" "pca" 20 30 DimensionalityReductionService.init).2
           [(1, 0); (3 # 5, 4 # 5); (0, 1)]%Q ["Cat"; "dog"; "fish"] [1; 3 # 5; 0]%Q);
    [reflexivity|discriminate].
Defined.

(** ** When the word selection raises *)

Section SelectionErrors.
Context `{Numerics}.
Context (loader : ModelLoader.t).

(** A comprehension whose element expression can only raise exceptions of
    the kind [P]: it returns when every element does, and raises such an
    exception otherwise. *)
Lemma exc_mapM_outcome {A B : Type} (f : A → Exc + B) (P : Exc → Prop) (l : list A) :
  Forall (λ x, (∃ e, f x = inl e ∧ P e) ∨ ∃ y, f x = inr y) l →
  (Forall (λ x, ∃ y, f x = inr y) l ∧ ∃ ys, exc_mapM f l = inr ys) ∨
  (¬ Forall (λ x, ∃ y, f x = inr y) l ∧ ∃ e, exc_mapM f l = inl e ∧ P e).
Proof.
  induction 1 as [|x l Hx _ IH]; [left; split; [constructor|by eexists]|].
  simpl. destruct Hx as [(e & Hx & He)|[y Hx]]; rewrite Hx; simpl.
  - right. split; [|by eexists]. intros Hall. apply Forall_cons in Hall as [[y Hy] _].
    congruence.
  - destruct IH as [[Hall [ys ->]]|[Hnot (e & -> & He)]]; simpl.
    + left. split; [constructor; [by eexists|done]|by eexists].
    + right. split; [|by eexists]. intros Hall.
      by apply Forall_cons in Hall as [_ Hall].
Qed.

Lemma dict_get_key {V : Type} (d : list (string * V)) (k : string) :
  k ∈ d.*1 → is_Some (dict_get d k).
Proof.
  induction d as [|[k' v] d IH]; simpl; [by intros ?%elem_of_nil|].
  intros Hk. case_decide; [by eexists|]. apply elem_of_cons in Hk as [->|Hk]; [done|].
  by apply IH.
Qed.

(** The selected words are keys. *)
Lemma top_words_by_frequency_keys (frequencies : gmap string Z) (keys : list string)
    (num_words : Z) :
  Forall (λ w, w ∈ keys) (EmbeddingService.top_words_by_frequency frequencies keys num_words).
Proof.
  unfold EmbeddingService.top_words_by_frequency.
  set (pairs := map (λ w, (w, default 0 (frequencies !! w))) keys).
  assert (keys = pairs.*1) as Hkeys.
  { subst pairs. by rewrite <- list_fmap_compose, list_fmap_id. }
  apply Forall_forall. intros w Hw.
  apply list_elem_of_fmap in Hw as (p & -> & Hp).
  assert (p ∈ sort_by_freq_desc pairs) as Hsorted.
  { revert Hp. unfold slice_to. destruct (0 <=? num_words); apply subseteq_take. }
  rewrite sort_by_freq_desc_perm in Hsorted. rewrite Hkeys.
  by apply (list_elem_of_fmap_2 fst).
Qed.

(** The vectors of keys of a dict are found. *)
Lemma exc_mapM_keys {V : Type} (d : list (string * V)) (ws : list string) :
  Forall (λ w, w ∈ d.*1) ws →
  ∃ vs, exc_mapM (λ w, match dict_get d w with
                       | Some v => inr v
                       | None => inl (KeyError w)
                       end) ws = inr vs.
Proof.
  intros Hws.
  destruct (exc_mapM_outcome
              (λ w, match dict_get d w with
                    | Some v => inr v
                    | None => inl (KeyError w)
                    end) (λ _, True) ws) as [[_ Hvs]|[Hnot _]]; [|done|].
  - eapply Forall_impl; [exact Hws|]. simpl.
    intros w Hw. right. destruct (dict_get_key _ _ Hw) as [v ->]. by eexists.
  - destruct Hnot. eapply Forall_impl; [exact Hws|]. simpl.
    intros w Hw. destruct (dict_get_key _ _ Hw) as [v ->]. by eexists.
Qed.

(** X21.  When [get_all_embeddings] raises, for TF-IDF artifacts that are on
    disk together.  A model that cannot be loaded makes it raise the
    loader's exception.  Once a Word2Vec model is loaded it always returns,
    for every count, the words selected by frequency with their vectors; so
    it does, with no word, for an unrecognised model type.  For TF-IDF it
    returns exactly when the vocabulary index of every selected word is a
    row of the matrix, and raises an [IndexError] otherwise. *)
Theorem selection_errors (model_type : string) (num_words : Z) :
  tfidf_files_together loader →
  let top keys :=
    EmbeddingService.top_words_by_frequency (ModelLoader.get_word_frequencies loader)
      keys num_words in
  (∀ e,
     model_keys loader model_type = inl e →
     EmbeddingService.get_all_embeddings loader model_type num_words = inl e) ∧
  (∀ keys,
     model_type ≠ "tfidf" →
     model_keys loader model_type = inr keys →
     ∃ rows,
       EmbeddingService.get_all_embeddings loader model_type num_words
         = inr (rows, top keys)) ∧
  (∀ embeddings vocab,
     model_type = "tfidf" →
     ModelLoader._load_tfidf_models loader = inr (embeddings, vocab) →
     let in_range w :=
       ∃ i, dict_get vocab w = Some i ∧ (i < length embeddings)%nat in
     (Forall in_range (top vocab.*1) →
      ∃ rows,
        EmbeddingService.get_all_embeddings loader model_type num_words
          = inr (rows, top vocab.*1)) ∧
     (¬ Forall in_range (top vocab.*1) →
      ∃ msg,
        EmbeddingService.get_all_embeddings loader model_type num_words
          = inl (IndexError msg))).
Proof.
  intros _ top. subst top.
  unfold EmbeddingService.get_all_embeddings, model_keys, ModelLoader.get_tfidf_vocab,
    ModelLoader.get_tfidf_embeddings, ModelLoader.get_word2vec_cbow,
    ModelLoader.get_word2vec_skipgram.
  split; [|split].
  - intros e. destruct (decide (model_type = "tfidf")) as [->|Hne].
    { destruct (ModelLoader._load_tfidf_models loader) as [e'|m]; simpl; [|done].
      by intros [= <-]. }
    destruct (decide (model_type = "word2vec_cbow")) as [->|Hcbow].
    { simpl. destruct (ModelLoader._load_word2vec_model loader _) as [e'|m]; simpl;
        [|done]. by intros [= <-]. }
    destruct (decide (model_type = "word2vec_skipgram")) as [->|Hskip]; [|done].
    simpl. destruct (ModelLoader._load_word2vec_model loader _) as [e'|m]; simpl;
      [|done]. by intros [= <-].
  - intros keys Hne. destruct (decide (model_type = "tfidf")) as [?|_]; [done|].
    destruct (decide (model_type = "word2vec_cbow")) as [->|Hcbow].
    { simpl. destruct (ModelLoader._load_word2vec_model loader _) as [e'|model]; simpl;
        [done|]. intros [= <-].
      destruct (exc_mapM_keys (ModelLoader.wv model) _
                  (top_words_by_frequency_keys (ModelLoader.get_word_frequencies loader)
                     (ModelLoader.wv model).*1 num_words)) as [rows ->].
      by eexists. }
    destruct (decide (model_type = "word2vec_skipgram")) as [->|Hskip].
    { simpl. destruct (ModelLoader._load_word2vec_model loader _) as [e'|model]; simpl;
        [done|]. intros [= <-].
      destruct (exc_mapM_keys (ModelLoader.wv model) _
                  (top_words_by_frequency_keys (ModelLoader.get_word_frequencies loader)
                     (ModelLoader.wv model).*1 num_words)) as [rows ->].
      by eexists. }
    intros [= <-]. rewrite bool_decide_eq_false_2.
    + exists [].
      assert (EmbeddingService.top_words_by_frequency
                (ModelLoader.get_word_frequencies loader) [] num_words = []) as ->;
        [|done].
      unfold EmbeddingService.top_words_by_frequency, slice_to. simpl.
      by destruct (0 <=? num_words); rewrite ?take_nil.
    + rewrite !not_elem_of_cons. repeat split; try done. apply not_elem_of_nil.
  - intros embeddings vocab -> Hload. simpl. rewrite Hload. simpl.
    set (top := EmbeddingService.top_words_by_frequency
                  (ModelLoader.get_word_frequencies loader) vocab.*1 num_words).
    destruct (exc_mapM_keys vocab top
                (top_words_by_frequency_keys (ModelLoader.get_word_frequencies loader)
                   vocab.*1 num_words)) as [indices Hindices].
    rewrite Hindices. simpl. apply exc_mapM_inr in Hindices.
    set (row := λ i, match embeddings !! i with
                     | Some v => inr v
                     | None => inl (out_of_bounds i (length embeddings))
                     end : Exc + vec).
    assert (Forall (λ w, ∃ i, dict_get vocab w = Some i ∧ (i < length embeddings)%nat) top
            ↔ Forall (λ i, ∃ v, row i = inr v) indices) as Hiff.
    { clear -Hindices. subst row. induction Hindices as [|w i ws idxs Hw _ IH].
      { split; constructor. }
      rewrite !Forall_cons, IH.
      assert (dict_get vocab w = Some i) as Hi
        by (by destruct (dict_get vocab w); simplify_eq).
      split; intros [Hhead Htail]; (split; [|done]).
      - destruct Hhead as (i' & Hi' & Hlt). rewrite Hi in Hi'. injection Hi' as <-.
        destruct (lookup_lt_is_Some_2 embeddings i Hlt) as [v ->]. by eexists.
      - exists i. split; [done|]. destruct Hhead as [v Hv].
        destruct (embeddings !! i) eqn:Hrow; [|done]. by eapply lookup_lt_Some. }
    destruct (exc_mapM_outcome row (λ e, ∃ msg, e = IndexError msg) indices)
      as [[Hall [rows Hrows]]|[Hnot (e & Hrows & msg & ->)]].
    { apply Forall_true. intros i. subst row. simpl.
      destruct (embeddings !! i); [right; by eexists|left]. eexists. split; [done|].
      by eexists. }
    + split; [|by intros Hn; destruct Hn; apply Hiff].
      intros _. rewrite Hrows. simpl. by eexists.
    + split; [by intros Hyes; destruct Hnot; apply Hiff|].
      intros _. rewrite Hrows. by eexists.
Qed.

End SelectionErrors.

Lemma selection_errors_witness :
  (∃ msg,
     EmbeddingService.get_all_embeddings Example.files "word2vec_skipgram" 100
       = inl (FileNotFoundError msg)) ∧
  ∃ rows,
    EmbeddingService.get_all_embeddings Example.files "word2vec_cbow" 100
      = inr (rows,
             EmbeddingService.top_words_by_frequency
               (ModelLoader.get_word_frequencies Example.files) ["cat"; "dog"] 100).
Proof.
  destruct (selection_errors Example.files "word2vec_skipgram" 100
              example_tfidf_files_together) as (Hload & _ & _).
  destruct (selection_errors Example.files "word2vec_cbow" 100
              example_tfidf_files_together) as (_ & Hw2v & _).
  split; [eexists; by apply Hload|]. by apply Hw2v.
Defined.

(** ** The vocabulary tables *)

Section VocabularyTables.
Context `{Numerics}.
Context (loader : ModelLoader.t).

Lemma dict_get_elem {V : Type} (d : list (string * V)) (k : string) (v : V) :
  dict_get d k = Some v → (k, v) ∈ d.
Proof.
  induction d as [|[k' v'] d IH]; simpl; [done|].
  case_decide as Hk; [intros [= <-]; subst; by left|]. intros Hd. right. by apply IH.
Qed.

(** The index table built over [m]: an index of [vocab] maps to its word, any
    other index is as in [m]. *)
Lemma invert_vocab_foldl (vocab : list (string * nat)) (m : gmap nat string)
    (i : nat) (w : string) :
  NoDup vocab.*2 →
  foldl (λ m p, (<[p.2 := p.1]> m)) m vocab !! i = Some w
  ↔ (w, i) ∈ vocab ∨ ((i ∉ vocab.*2) ∧ m !! i = Some w).
Proof.
  revert m. induction vocab as [|[w' i'] vocab IH]; intros m Hnd; simpl.
  { rewrite elem_of_nil. split; [intros ?; right; split; [apply not_elem_of_nil|done]|].
    by intros [[]|[_ ?]]. }
  apply NoDup_cons in Hnd as [Hi' Hnd]. rewrite IH by done.
  rewrite elem_of_cons, not_elem_of_cons. split.
  - intros [Hin|[Hni Hm]]; [by left; right|].
    destruct (decide (i = i')) as [->|Hne].
    + rewrite lookup_insert_eq in Hm. injection Hm as ->. left. by left.
    + rewrite lookup_insert_ne in Hm by done. by right.
  - intros [[[= -> ->]|Hin]|[[Hne Hni] Hm]].
    + right. split; [done|]. simpl. by rewrite lookup_insert_eq.
    + by left.
    + right. split; [done|]. simpl. by rewrite lookup_insert_ne.
Qed.

(** X22.  The index table the loader derives from the TF-IDF vocabulary is
    its inverse when no two words share an index: a word has index [i]
    exactly when index [i] has that word.  The vocabulary check of a model
    that loads answers whether the normalised word is a key of the model's
    vocabulary, and answers [False] for an unrecognised model type. *)
Theorem vocabulary_tables_agree (vocab : list (string * nat)) (model_type : string)
    (keys : list string) :
  (NoDup vocab.*1 → NoDup vocab.*2 →
   ∀ w i, dict_get vocab w = Some i ↔ ModelLoader.invert_vocab vocab !! i = Some w) ∧
  (model_keys loader model_type = inr keys →
   ∀ word,
     ModelLoader.is_word_in_vocab loader word model_type
       = inr (bool_decide (normalize word ∈ keys))).
Proof.
  split.
  - intros Hkeys Hidx w i. unfold ModelLoader.invert_vocab.
    rewrite invert_vocab_foldl by done. split.
    + intros Hw. left. by apply dict_get_elem.
    + intros [Hin|[_ Hm]]; [by apply dict_get_item|]. by rewrite lookup_empty in Hm.
  - assert (∀ {V : Type} (d : list (string * V)) (k : string),
              bool_decide (is_Some (dict_get d k)) = bool_decide (k ∈ d.*1)) as Hmem.
    { intros V d k. apply bool_decide_ext. split; [|apply dict_get_key].
      intros [v Hv%dict_get_elem]. by apply (list_elem_of_fmap_2 fst) in Hv. }
    unfold model_keys, ModelLoader.is_word_in_vocab, ModelLoader.get_tfidf_vocab,
      ModelLoader.wv_contains.
    repeat case_decide.
    + destruct (ModelLoader._load_tfidf_models loader) as [e|m]; simpl; [done|].
      intros [= <-] word. by rewrite Hmem.
    + destruct (ModelLoader.get_word2vec_cbow loader) as [e|model]; simpl; [done|].
      intros [= <-] word. by rewrite Hmem.
    + destruct (ModelLoader.get_word2vec_skipgram loader) as [e|model]; simpl; [done|].
      intros [= <-] word. by rewrite Hmem.
    + by intros [= <-] word.
Qed.

End VocabularyTables.

Lemma vocabulary_tables_agree_witness :
  (dict_get [("cat", 0%nat); ("dog", 1%nat); ("fish", 2%nat)] "dog" = Some 1%nat
   ↔ ModelLoader.invert_vocab [("cat", 0%nat); ("dog", 1%nat); ("fish", 2%nat)] !! 1%nat
       = Some "dog") ∧
  ModelLoader.is_word_in_vocab Example.files " FISH " "tfidf"
    = inr (bool_decide (normalize " FISH " ∈ ["cat"; "dog"; "fish"])).
Proof.
  destruct (vocabulary_tables_agree Example.files
              [("cat", 0%nat); ("dog", 1%nat); ("fish", 2%nat)] "tfidf"
              ["cat"; "dog"; "fish"]) as [Hinverse Hcheck].
  split.
  - apply Hinverse; compute_done.
  - by apply Hcheck.
Defined.
